(** * dicom-cli: editing policy, write-back and rendering pipeline

    A shallow embedding of the parts of [dicom_cli.py] that carry the
    invariants of the tool: the windowing and quantisation of pixel data,
    the coercion and bulk propagation of tag edits, and the
    backup / write / clean-up protocol of [action_save_file]; and, beside
    them, the consistency check across files, the loading of datasets and
    the navigation between files, the rescaling and the preset keys of
    the image view, and the search for the files to open.

    Conventions.
    - NumPy float arithmetic is idealised as exact arithmetic over [Q];
      integer arrays are lists of [Z] with the [uint8] wrap-around
      written out. What is stated of intensities is what rounding
      cannot change (ranges, end points, order, the exactly
      representable cases), or is stated to within the unit that
      rounding can move. Python's own float product is a parameter
      ([FloatArith]).
    - Python functions that can raise are functions into [outcome];
      methods that also mutate state are state transformers ([Py]) in
      which the state reached before an exception survives it, as it does
      in Python.
    - pydicom element objects are mutable and shared by reference; they
      live in a store indexed by references, and datasets and [tag_map]
      entries hold references into it.
    - The file system is a finite map from paths to bytes.
    - Python built-ins, the pydicom codec and the system's refusals are
      the fields of the class [Externals]; pydicom's reader is the class
      [Loader], the directory scan the class [FileSystem]; widget calls
      that do not touch the modelled state (labels, titles,
      notifications) are left out. *)

From Stdlib Require Import ZArith QArith Qround Qminmax Lia Lqa.
From stdpp Require Import base option list strings pretty gmap.

Local Open Scope Z_scope.

(** ** Python outcomes *)

Inductive exn : Set :=
| ValueError | TypeError | IndexError | ZeroDivisionError
| AttributeError | RecursionError
| FileNotFoundError | PermissionError | EncodeError.

Inductive outcome (A : Type) : Type :=
| Ok (a : A)
| Raise (e : exn).
Arguments Ok {A} a.
Arguments Raise {A} e.

Definition obind {A B} (o : outcome A) (k : A -> outcome B) : outcome B :=
  match o with
  | Ok a => k a
  | Raise e => Raise e
  end.

(** [mapM] over a list, stopping at the first exception. *)
Fixpoint mapM {A B} (f : A -> outcome B) (l : list A) : outcome (list B) :=
  match l with
  | [] => Ok []
  | x :: l' =>
      obind (f x) (fun y => obind (mapM f l') (fun ys => Ok (y :: ys)))
  end.

(** ** Rendering pipeline: window and quantise *)

Module Render.

(** A 2-D float array (rows of samples) and a 2-D [uint8] array. *)
Definition Grid := list (list Q).
Definition Image8 := list (list Z).

Definition Qgt_bool (a b : Q) : bool := negb (Qle_bool a b).

(** [ndarray.min()] and [ndarray.max()]; NumPy raises [ValueError] on a
    zero-size array. *)
Definition grid_min (g : Grid) : outcome Q :=
  match concat g with
  | [] => Raise ValueError
  | x :: xs => Ok (fold_left Qmin xs x)
  end.

Definition grid_max (g : Grid) : outcome Q :=
  match concat g with
  | [] => Raise ValueError
  | x :: xs => Ok (fold_left Qmax xs x)
  end.

(** [np.clip(x, lo, hi)] is [minimum(maximum(x, lo), hi)]. *)
Definition clip (lo hi x : Q) : Q := Qmin (Qmax x lo) hi.

(** Division with the zero denominator made observable. *)
Definition true_divide (a b : Q) : outcome Q :=
  if Qeq_bool b 0%Q then Raise ZeroDivisionError else Ok (a / b)%Q.

(** [astype(np.uint8)]: truncation toward zero, then wrap-around. *)
Definition Qtrunc (q : Q) : Z :=
  if Qle_bool 0%Q q then Qfloor q else Qceiling q.

Definition astype_uint8 (q : Q) : Z := Qtrunc q mod 256.

Definition grid_map {A B} (f : A -> B) (g : list (list A)) : list (list B) :=
  map (map f) g.

Definition grid_mapM {A B} (f : A -> outcome B) (g : list (list A))
  : outcome (list (list B)) :=
  mapM (mapM f) g.

(** [np.zeros_like(a, dtype=np.uint8)] and [np.zeros_like(a)]. *)
Definition zeros_like {A} (g : list (list A)) : Image8 :=
  grid_map (fun _ => 0) g.

Definition zeros_like_float (g : Grid) : Grid :=
  grid_map (fun _ => 0%Q) g.

(** A window preset [(name, width, center)]; [None] is Python's [None]. *)
Record preset : Set := Preset {
  preset_name : string;
  window_width : option Z;
  window_center : option Z
}.

(** [self.window_presets] as set up by [DicomTreeApp.__init__]. *)
Definition window_presets : list preset :=
  [ Preset "Auto" None None;
    Preset "Soft Tissue" (Some 350) (Some 40);
    Preset "Lung" (Some 1500) (Some (-600));
    Preset "Bone" (Some 2000) (Some 300);
    Preset "Brain" (Some 80) (Some 40);
    Preset "Liver" (Some 150) (Some 30);
    Preset "Mediastinum" (Some 350) (Some 50) ].

Definition is_auto (p : preset) : bool :=
  String.eqb (preset_name p) "Auto" || bool_decide (window_width p = None).

Definition lower_bound (w c : Z) : Q := (inject_Z c - inject_Z w / 2)%Q.
Definition upper_bound (w c : Z) : Q := (inject_Z c + inject_Z w / 2)%Q.

(** The auto branch of [apply_windowing]. *)
Definition window_auto (pixel_array : Grid) : outcome Image8 :=
  obind (grid_min pixel_array) (fun pixel_min =>
  obind (grid_max pixel_array) (fun pixel_max =>
  if Qgt_bool pixel_max pixel_min then
    grid_mapM (fun x =>
      obind (true_divide (x - pixel_min)%Q (pixel_max - pixel_min)%Q) (fun r =>
      Ok (astype_uint8 (r * 255)%Q))) pixel_array
  else Ok (zeros_like pixel_array))).

(** The fixed-preset branch of [apply_windowing]. *)
Definition window_fixed (w c : Z) (pixel_array : Grid) : outcome Image8 :=
  let lower := lower_bound w c in
  let upper := upper_bound w c in
  let windowed_float := grid_map (clip lower upper) pixel_array in
  obind
    (if Qgt_bool upper lower then
       grid_mapM (fun x =>
         obind (true_divide (x - lower)%Q (upper - lower)%Q) (fun r =>
         Ok (r * 255)%Q)) windowed_float
     else Ok (zeros_like_float windowed_float))
    (fun windowed_float => Ok (grid_map astype_uint8 windowed_float)).

Definition apply_windowing (presets : list preset) (current_preset : nat)
    (pixel_array : Grid) : outcome Image8 :=
  match presets !! current_preset with
  | None => Raise IndexError
  | Some p =>
      if is_auto p then window_auto pixel_array
      else
        match window_width p, window_center p with
        | Some w, Some c => window_fixed w c pixel_array
        | _, _ => Raise TypeError
        end
  end.

(** *** Quantisation to glyph levels *)

(** Python's [//] on integers is floor division, [Z.div] here; [clip]
    on an integer array. *)
Definition clipZ (lo hi x : Z) : Z := Z.min (Z.max x lo) hi.

(** One entry of [block_indices = (resized_array // 32).clip(0, 7)]. *)
Definition block_index (v : Z) : Z := clipZ 0 7 (v / 32).

Definition block_indices (resized_array : Image8) : Image8 :=
  grid_map block_index resized_array.

(** The characters of [blocks], by Unicode name. *)
Inductive glyph : Set :=
| Space              (* U+0020 *)
| LightShade         (* U+2591 *)
| MediumShade        (* U+2592 *)
| DarkShade          (* U+2593 *)
| FullBlock          (* U+2588 *)
| LeftSevenEighths   (* U+2589 *)
| LeftThreeQuarters  (* U+258A *)
| LeftFiveEighths.   (* U+258B *)

Definition code_point (c : glyph) : Z :=
  match c with
  | Space => 0x20
  | LightShade => 0x2591
  | MediumShade => 0x2592
  | DarkShade => 0x2593
  | FullBlock => 0x2588
  | LeftSevenEighths => 0x2589
  | LeftThreeQuarters => 0x258A
  | LeftFiveEighths => 0x258B
  end.

(** [blocks] in [pixel_array_to_unicode]. *)
Definition blocks : list glyph :=
  [ Space; LightShade; MediumShade; DarkShade;
    FullBlock; LeftSevenEighths; LeftThreeQuarters; LeftFiveEighths ].

(** Inked part of the character cell, in eighths, as the Unicode charts
    describe the characters: the shades are 25%, 50% and 75% patterns,
    the blocks cover the named fraction of the cell. *)
Definition fill_eighths (c : glyph) : Z :=
  match c with
  | Space => 0
  | LightShade => 2
  | MediumShade => 4
  | DarkShade => 6
  | FullBlock => 8
  | LeftSevenEighths => 7
  | LeftThreeQuarters => 6
  | LeftFiveEighths => 5
  end.

(** [blocks[idx]] for an index produced by [block_index]. *)
Definition block_glyph (idx : Z) : option glyph := blocks !! Z.to_nat idx.

End Render.

(** ** Tags, records and the application state *)

Module Dicom.

(** A tag is a (group, element) pair of unsigned 16-bit numbers. *)
Definition Tag : Type := Z * Z.

Definition loc := nat.
Definition node := nat.
Definition Path := string.
Definition Bytes := list Byte.byte.

(** Python floats, as far as [float(...)] can produce them. *)
Inductive pyfloat :=
| FFinite (q : Q)
| FInf (negative : bool)
| FNan.

(** Values held by a data element or returned by a method. A sequence
    holds its items, each item a dataset given by the references of its
    elements. *)
Inductive Value :=
| VNone
| VStr (s : string)
| VInt (z : Z)
| VFloat (f : pyfloat)
| VSeq (items : list (list (Tag * loc))).

(** A pydicom [DataElement] object. *)
Record DataElement := Element {
  elem_tag : Tag;
  elem_VR : string;
  elem_name : string;
  elem_value : Value
}.

(** [element.value = v] *)
Definition with_value (v : Value) (e : DataElement) : DataElement :=
  {| elem_tag := elem_tag e; elem_VR := elem_VR e;
     elem_name := elem_name e; elem_value := v |}.

#[global] Instance DataElement_inhabited : Inhabited DataElement :=
  populate (Element (0, 0) "" "" VNone).

(** A pydicom [Dataset]: a dict from tag to element object, in iteration
    order. The program never adds or removes elements, so a dataset is
    the list of its (tag, reference) items; the element objects live in
    the store [elements] of the state. *)
Definition Dataset := list (Tag * loc).

(** [tag in dataset] and [dataset[tag]]. *)
Fixpoint ds_get (tag : Tag) (dataset : Dataset) : option loc :=
  match dataset with
  | [] => None
  | (t, l) :: rest => if decide (t = tag) then Some l else ds_get tag rest
  end.

(** Lookup in an insertion-ordered dict keyed by path. *)
Fixpoint dict_get {V} (k : Path) (d : list (Path * V)) : option V :=
  match d with
  | [] => None
  | (k', v) :: rest => if decide (k' = k) then Some v else dict_get k rest
  end.

Inductive path_item :=
| PTag (t : Tag)
| PIndex (i : nat).

(** An entry of [self.tag_map]. *)
Record tag_info := TagInfo {
  ti_element : loc;
  ti_tag : Tag;
  ti_name : string;
  ti_vr : string;
  ti_path : list path_item
}.

(** The attributes of [DicomTreeApp] that the modelled methods read or
    write, the store of element objects, the files on disk, and the
    number of nodes the tree widget has handed out. *)
Record State : Type := mkState {
  dicom_files : list Path;
  current_index : nat;
  dataset : option Dataset;
  has_changes : bool;
  tag_map : gmap node tag_info;
  all_datasets : list (Path * Dataset);
  elements : gmap loc DataElement;
  disk : gmap Path Bytes;
  tree_nodes : nat
}.

Definition set_dataset (d : option Dataset) (s : State) : State :=
  mkState (dicom_files s) (current_index s) d (has_changes s) (tag_map s)
          (all_datasets s) (elements s) (disk s) (tree_nodes s).

Definition set_has_changes (b : bool) (s : State) : State :=
  mkState (dicom_files s) (current_index s) (dataset s) b (tag_map s)
          (all_datasets s) (elements s) (disk s) (tree_nodes s).

Definition set_tag_map (m : gmap node tag_info) (s : State) : State :=
  mkState (dicom_files s) (current_index s) (dataset s) (has_changes s) m
          (all_datasets s) (elements s) (disk s) (tree_nodes s).

Definition set_elements (h : gmap loc DataElement) (s : State) : State :=
  mkState (dicom_files s) (current_index s) (dataset s) (has_changes s)
          (tag_map s) (all_datasets s) h (disk s) (tree_nodes s).

Definition set_disk (d : gmap Path Bytes) (s : State) : State :=
  mkState (dicom_files s) (current_index s) (dataset s) (has_changes s)
          (tag_map s) (all_datasets s) (elements s) d (tree_nodes s).

Definition set_tree_nodes (n : nat) (s : State) : State :=
  mkState (dicom_files s) (current_index s) (dataset s) (has_changes s)
          (tag_map s) (all_datasets s) (elements s) (disk s) n.

(** *** Methods as state transformers that may raise *)

Definition Py (A : Type) : Type := State -> outcome A * State.

Definition ret {A} (a : A) : Py A := fun s => (Ok a, s).

Definition raise {A} (e : exn) : Py A := fun s => (Raise e, s).

Definition bind {A B} (c : Py A) (k : A -> Py B) : Py B :=
  fun s =>
    match c s with
    | (Ok a, s') => k a s'
    | (Raise e, s') => (Raise e, s')
    end.

Declare Scope py_scope.
Delimit Scope py_scope with py.
Notation "x <- c1 ;; c2" := (bind c1 (fun x => c2))
  (at level 100, c1 at next level, right associativity) : py_scope.
Notation "c1 ;; c2" := (bind c1 (fun _ => c2))
  (at level 100, right associativity) : py_scope.
Local Open Scope py_scope.

Definition gets {A} (f : State -> A) : Py A := fun s => (Ok (f s), s).

Definition modify (f : State -> State) : Py unit := fun s => (Ok tt, f s).

Definition lift {A} (o : outcome A) : Py A := fun s => (o, s).

(** [try: body / except Exception: pass] *)
Definition try_pass (body : Py unit) : Py unit :=
  fun s => (Ok tt, snd (body s)).

(** [for x in l: body x] *)
Fixpoint for_each {A} (l : list A) (body : A -> Py unit) : Py unit :=
  match l with
  | [] => ret tt
  | x :: l' => body x ;; for_each l' body
  end.

(** [element.value] and [element.value = v] through a reference. *)
Definition deref (l : loc) : Py DataElement :=
  gets (fun s => elements s !!! l).

Definition assign_value (l : loc) (v : Value) : Py unit :=
  modify (fun s => set_elements (alter (with_value v) l (elements s)) s).

(** [self.current_file], the property [self.dicom_files[self.current_index]]. *)
Definition current_file : Py Path :=
  fun s =>
    match dicom_files s !! current_index s with
    | Some p => (Ok p, s)
    | None => (Raise IndexError, s)
    end.

(** *** What the program takes from Python, pydicom and the system *)

Class Externals : Type := {
  (** [float(s)] and [int(s)]; [None] when they raise [ValueError] *)
  py_float : string -> option pyfloat;
  py_int : string -> option Z;
  (** [s.strip()] *)
  py_strip : string -> string;
  (** [str(v)] for the value of an element *)
  py_str : Value -> string;
  (** [element.tag in critical_tags]: membership of a pydicom tag object
      in a set of (group, element) tuples, as Python's hashing and
      equality decide it *)
  tag_in_tuples : Tag -> list (Z * Z) -> bool;
  (** [dataset.save_as(path)], given the element store, the dataset and
      what the path holds: either the bytes written, or an exception and
      what is left at the path *)
  save_as_codec :
    gmap loc DataElement -> Dataset -> option Bytes -> Bytes + option Bytes;
  (** whether the system refuses [unlink] on a path *)
  unlink_refused : Path -> bool;
  (** depth of recursion the interpreter allows *)
  recursion_limit : nat
}.

Section Methods.
Context {ext : Externals}.

(** **** Editability policy *)

Definition critical_tags : list (Z * Z) :=
  [ (0x0002, 0x0000); (0x0002, 0x0001); (0x0002, 0x0002); (0x0002, 0x0003);
    (0x0002, 0x0010); (0x0008, 0x0016); (0x0008, 0x0018) ].

Definition editable_VRs : list string :=
  [ "CS"; "LO"; "LT"; "PN"; "SH"; "ST"; "UT"; "DS"; "IS"; "AS"; "DA";
    "DT"; "TM" ].

Definition is_editable_tag (element : DataElement) : bool :=
  negb (tag_in_tuples (elem_tag element) critical_tags)
  && bool_decide (elem_VR element ∈ editable_VRs).

Definition slice_specific_tags : list (Z * Z) :=
  [ (0x0018, 0x5100); (0x0020, 0x0032); (0x0020, 0x0037); (0x0020, 0x1041);
    (0x0020, 0x0013); (0x0020, 0x0012); (0x0008, 0x0032); (0x0008, 0x0033);
    (0x0018, 0x0050); (0x0028, 0x1050); (0x0028, 0x1051); (0x0020, 0x1002) ].

(** The tag is first converted to the tuple [(tag.group, tag.element)]. *)
Definition is_slice_specific_tag (tag : Tag) : bool :=
  let tag_tuple := (tag.1, tag.2) in
  bool_decide (tag_tuple ∈ slice_specific_tags).

(** **** Value coercion *)

Definition float_of (s : string) : outcome Value :=
  match py_float s with
  | Some f => Ok (VFloat f)
  | None => Raise ValueError
  end.

Definition int_of (s : string) : outcome Value :=
  match py_int s with
  | Some z => Ok (VInt z)
  | None => Raise ValueError
  end.

(** Truth value of a string: non-empty. *)
Definition truthy (s : string) : bool := negb (bool_decide (s = "")).

Definition convert_value_for_vr (value vr : string) : outcome Value :=
  if bool_decide (vr ∈ ["DS"]) then
    if truthy value then float_of value else Ok (VFloat (FFinite 0))
  else if bool_decide (vr ∈ ["IS"]) then
    if truthy value then int_of value else Ok (VInt 0)
  else if bool_decide (vr ∈ ["AS"]) then Ok (VStr (py_strip value))
  else if bool_decide (vr ∈ ["DA"]) then Ok (VStr (py_strip value))
  else if bool_decide (vr ∈ ["DT"]) then Ok (VStr (py_strip value))
  else if bool_decide (vr ∈ ["TM"]) then Ok (VStr (py_strip value))
  else Ok (VStr (py_strip value)).

(** **** Bulk mutation *)

Definition bulk_update_tag (tag : Tag) (new_value : Value) (vr : string)
  : Py Value :=
  ads <- gets all_datasets ;;
  for_each ads (fun '(file_path, dataset) =>
    try_pass
      (match ds_get tag dataset with
       | Some l =>
           element <- deref l ;;
           if is_editable_tag element then assign_value l new_value
           else ret tt
       | None => ret tt
       end)) ;;
  files <- gets dicom_files ;;
  (if bool_decide (1 < length files)%nat then
     f <- current_file ;;
     ads <- gets all_datasets ;;
     match dict_get f ads with
     | Some d => modify (set_dataset (Some d))
     | None => ret tt
     end
   else ret tt) ;;
  ret VNone.

(** **** Tree population *)

(** [parent.add(...)] and [parent.add_leaf(...)] return a new node. *)
Definition new_node : Py node :=
  fun s => (Ok (tree_nodes s), set_tree_nodes (S (tree_nodes s)) s).

(** [enumerate(l)] *)
Definition enumerate {A} (l : list A) : list (nat * A) :=
  zip (seq 0 (length l)) l.

(** [add_element_to_tree(parent, element, path)]. Labels are not
    modelled; only the nodes created and the entries stored in
    [tag_map] are. [depth] is the recursion depth still available.
    pydicom keeps a sequence under VR [SQ]; any other value there is not
    iterable as one. *)
Fixpoint add_element_to_tree (depth : nat) (element : loc)
    (path : list path_item) : Py unit :=
  match depth with
  | O => raise RecursionError
  | S depth' =>
      e <- deref element ;;
      if bool_decide (elem_VR e = "SQ") then
        seq_node <- new_node ;;
        match elem_value e with
        | VSeq items =>
            for_each (enumerate items) (fun '(i, item) =>
              item_node <- new_node ;;
              for_each item (fun '(_, sub_elem) =>
                add_element_to_tree depth' sub_elem
                  (path ++ [PTag (elem_tag e); PIndex i])))
        | _ => raise TypeError
        end
      else
        node <- new_node ;;
        files <- gets dicom_files ;;
        if negb (bool_decide (elem_VR e ∈ ["SQ"]))
           && is_editable_tag e
           && negb (bool_decide (1 < length files)%nat
                    && is_slice_specific_tag (elem_tag e))
        then
          modify (fun s =>
            set_tag_map
              (<[node := TagInfo element (elem_tag e) (elem_name e)
                           (elem_VR e) path]> (tag_map s)) s)
        else ret tt
  end.

(** [populate_tree] and [populate_split_tree]: the two differ only in
    the widget they fill. An absent or empty dataset is falsy. *)
Definition populate_tree : Py unit :=
  modify (set_tag_map ∅) ;;
  d <- gets dataset ;;
  match d with
  | None | Some [] => ret tt
  | Some ds =>
      root <- new_node ;;
      for_each ds (fun '(_, elem) =>
        add_element_to_tree recursion_limit elem [])
  end.

(** **** Edit submission *)

(** [handle_edit_result(new_value)]; [cursor_node] is the tree widget's
    [tree.cursor_node]. *)
Definition handle_edit_result (cursor_node : option node)
    (new_value : option string) : Py Value :=
  match new_value with
  | Some new_value =>
      tm <- gets tag_map ;;
      (match cursor_node ≫= (fun n => tm !! n) with
       | Some tag_info =>
           e <- deref (ti_element tag_info) ;;
           let current_value := py_str (elem_value e) in
           if bool_decide (new_value ≠ current_value) then
             try_pass
               (converted_value <-
                  lift (convert_value_for_vr new_value (ti_vr tag_info)) ;;
                files <- gets dicom_files ;;
                (if bool_decide (1 < length files)%nat then
                   bulk_update_tag (ti_tag tag_info) converted_value
                     (ti_vr tag_info) ;;
                   ret tt
                 else assign_value (ti_element tag_info) converted_value) ;;
                modify (set_has_changes true) ;;
                populate_tree)
           else ret tt
       | None => ret tt
       end) ;;
      ret VNone
  | None => ret VNone
  end.

(** **** Write transaction *)

(** [file_path.with_suffix(file_path.suffix + '.bak')]: the suffix of the
    name is replaced by itself followed by [.bak], which appends [.bak]
    to the path. *)
Definition backup_path (file_path : Path) : Path := file_path +:+ ".bak".

Definition path_exists (p : Path) : Py bool :=
  gets (fun s => bool_decide (is_Some (disk s !! p))).

(** [shutil.copy2(src, dst)] *)
Definition copy2 (src dst : Path) : Py unit :=
  fun s =>
    match disk s !! src with
    | Some b => (Ok tt, set_disk (<[dst := b]> (disk s)) s)
    | None => (Raise FileNotFoundError, s)
    end.

(** [dataset.save_as(str(path))] *)
Definition save_as (dataset : Dataset) (path : Path) : Py unit :=
  fun s =>
    match save_as_codec (elements s) dataset (disk s !! path) with
    | inl b => (Ok tt, set_disk (<[path := b]> (disk s)) s)
    | inr rest =>
        (Raise EncodeError,
         set_disk (partial_alter (fun _ => rest) path (disk s)) s)
    end.

(** [path.unlink()] *)
Definition unlink (p : Path) : Py unit :=
  fun s =>
    match disk s !! p with
    | None => (Raise FileNotFoundError, s)
    | Some _ =>
        if unlink_refused p then (Raise PermissionError, s)
        else (Ok tt, set_disk (delete p (disk s)) s)
    end.

Definition cleanup_backup_files (backup_files : list Path) : Py Value :=
  for_each backup_files (fun backup_path =>
    try_pass
      (ex <- path_exists backup_path ;;
       if ex then unlink backup_path else ret tt)) ;;
  ret VNone.

(** The backup step of one file: copy unless the backup is there, and
    record the copy in [backup_files]. *)
Definition create_backup (file_path : Path) (backup_files : list Path)
  : Py (list Path) :=
  let backup_path := backup_path file_path in
  ex <- path_exists backup_path ;;
  if negb ex then
    copy2 file_path backup_path ;;
    ret (backup_files ++ [backup_path])
  else ret backup_files.

(** The loop over [self.all_datasets.items()] of the bulk save. *)
Fixpoint save_all (items : list (Path * Dataset)) (backup_files : list Path)
  : Py (list Path) :=
  match items with
  | [] => ret backup_files
  | (file_path, dataset) :: rest =>
      backup_files <- create_backup file_path backup_files ;;
      save_as dataset file_path ;;
      save_all rest backup_files
  end.

(** The two branches of [action_save_file] that back up and write; the
    result is [backup_files]. *)
Definition save_files : Py (list Path) :=
  files <- gets dicom_files ;;
  if bool_decide (1 < length files)%nat then
    ads <- gets all_datasets ;;
    save_all ads []
  else
    f <- current_file ;;
    backup_files <- create_backup f [] ;;
    d <- gets dataset ;;
    match d with
    | Some d => save_as d f
    | None => raise AttributeError
    end ;;
    ret backup_files.

(** The body of the [try] of [action_save_file]. *)
Definition save_try_body : Py unit :=
  backup_files <- save_files ;;
  cleanup_backup_files backup_files ;;
  modify (set_has_changes false).

Definition action_save_file : Py Value :=
  changed <- gets has_changes ;;
  (if changed then try_pass save_try_body else ret tt) ;;
  ret VNone.

(** **** Notions used to state the properties *)

(** The elements [bulk_update_tag] assigns to: for each record that
    holds the tag, the element under it when it passes the policy. *)
Definition bulk_targets (tag : Tag) (h : gmap loc DataElement)
    (ads : list (Path * Dataset)) : list loc :=
  omap (fun r : Path * Dataset =>
          l ← ds_get tag r.2;
          if is_editable_tag (h !!! l) then Some l else None) ads.

(** An invariant of the state kept by an action, raised or not. *)
Definition preserves {A} (I : State -> Prop) (c : Py A) : Prop :=
  forall s, I s -> I (snd (c s)).


(** [(f, d)] is written by [action_save_file]: any loaded record in
    multi-file mode, the current file and dataset otherwise. *)
Definition save_target (s : State) (f : Path) (d : Dataset) : Prop :=
  if bool_decide (1 < length (dicom_files s))%nat
  then (f, d) ∈ all_datasets s
  else dicom_files s !! current_index s = Some f /\ dataset s = Some d.

(** What reaches the caller tells a failed call from a successful one,
    which returns [None]. *)
Definition reports_failure (r : outcome Value) : Prop := r <> Ok VNone.

End Methods.
End Dicom.

(** ** Concrete runtime and states for the worked examples *)

Module Examples.
Import Dicom.

(** A small stand-in for the Python runtime: [int] reads unsigned decimal
    digits, [float] reads the same strings, [strip] and [str] are the
    identity on the strings used here; the codec refuses a dataset in
    which some element has no value and then leaves the file as it was;
    [unlink] is never refused. *)
Fixpoint digits_to_Z (acc : Z) (s : string) : option Z :=
  match s with
  | EmptyString => Some acc
  | String a s' =>
      let n := Z.of_nat (Ascii.nat_of_ascii a) - 48 in
      if (0 <=? n) && (n <=? 9) then digits_to_Z (10 * acc + n) s'
      else None
  end.

Definition test_int (s : string) : option Z :=
  if bool_decide (s = "") then None else digits_to_Z 0 s.

Definition test_float (s : string) : option pyfloat :=
  z ← test_int s; Some (FFinite (inject_Z z)).

Definition test_str (v : Value) : string :=
  match v with
  | VStr s => s
  | VInt z => pretty z
  | _ => "?"
  end.

Definition has_value (h : gmap loc DataElement) (l : loc) : bool :=
  match h !! l with
  | Some (Element _ _ _ VNone) | None => false
  | Some _ => true
  end.

Definition test_codec (h : gmap loc DataElement) (d : Dataset)
    (old : option Bytes) : Bytes + option Bytes :=
  if forallb (fun kv => has_value h kv.2) d
  then inl (map (fun _ => Byte.x2a) d)
  else inr old.

#[local] Instance test_runtime : Externals := {|
  py_float := test_float;
  py_int := test_int;
  py_strip := fun s => s;
  py_str := test_str;
  tag_in_tuples := fun t ts => bool_decide (t ∈ ts);
  save_as_codec := test_codec;
  unlink_refused := fun _ => false;
  recursion_limit := 1000%nat
|}.

Definition PatientName : Tag := (0x0010, 0x0010).
Definition Modality : Tag := (0x0008, 0x0060).
Definition InstanceNumber : Tag := (0x0020, 0x0013).

(** Three loaded files; the second has no patient name. *)
Definition three_records : State := {|
  dicom_files := ["a.dcm"; "b.dcm"; "c.dcm"];
  current_index := 0%nat;
  dataset := Some [(Modality, 1%nat); (PatientName, 0%nat)];
  has_changes := false;
  tag_map := ∅;
  all_datasets :=
    [ ("a.dcm", [(Modality, 1%nat); (PatientName, 0%nat)]);
      ("b.dcm", [(Modality, 2%nat)]);
      ("c.dcm", [(Modality, 4%nat); (PatientName, 3%nat)]) ];
  elements :=
    <[0%nat := Element PatientName "PN" "Patient's Name" (VStr "Doe")]>
    (<[1%nat := Element Modality "CS" "Modality" (VStr "CT")]>
    (<[2%nat := Element Modality "CS" "Modality" (VStr "CT")]>
    (<[3%nat := Element PatientName "PN" "Patient's Name" (VStr "Roe")]>
    (<[4%nat := Element Modality "CS" "Modality" (VStr "CT")]> ∅))));
  disk := ∅;
  tree_nodes := 0%nat
|}.

(** Two loaded slices, each with its own instance number. *)
Definition two_slices : State := {|
  dicom_files := ["s1.dcm"; "s2.dcm"];
  current_index := 0%nat;
  dataset := Some [(InstanceNumber, 0%nat)];
  has_changes := false;
  tag_map := ∅;
  all_datasets :=
    [ ("s1.dcm", [(InstanceNumber, 0%nat)]);
      ("s2.dcm", [(InstanceNumber, 1%nat)]) ];
  elements :=
    <[0%nat := Element InstanceNumber "IS" "Instance Number" (VInt 1)]>
    (<[1%nat := Element InstanceNumber "IS" "Instance Number" (VInt 2)]> ∅);
  disk := ∅;
  tree_nodes := 0%nat
|}.

(** One file, edited and not yet saved, listed in the tree. *)
Definition one_file (d : gmap Path Bytes) (v : Value) : State := {|
  dicom_files := ["scan.dcm"];
  current_index := 0%nat;
  dataset := Some [(PatientName, 0%nat)];
  has_changes := true;
  tag_map := {[ 1%nat := TagInfo 0%nat PatientName "Patient's Name" "PN" [] ]};
  all_datasets := [];
  elements := {[ 0%nat := Element PatientName "PN" "Patient's Name" v ]};
  disk := d;
  tree_nodes := 2%nat
|}.

Definition old_bytes : Bytes := [Byte.x01; Byte.x02].
Definition stale_bytes : Bytes := [Byte.x09].

(** The file on disk, no backup; the dataset cannot be encoded. *)
Definition failing_save : State :=
  one_file {[ "scan.dcm" := old_bytes ]} VNone.

(** The file and a backup left by an earlier save; the dataset encodes. *)
Definition stale_backup : State :=
  one_file (<[ "scan.dcm.bak" := stale_bytes ]> {[ "scan.dcm" := old_bytes ]})
           (VStr "Doe").

(** The file on disk, no backup; the dataset encodes. *)
Definition clean_save : State :=
  one_file {[ "scan.dcm" := old_bytes ]} (VStr "Doe").

(** Three edited files on disk; the second cannot be encoded. *)
Definition batch_second_fails : State := {|
  dicom_files := ["a.dcm"; "b.dcm"; "c.dcm"];
  current_index := 0%nat;
  dataset := Some [(PatientName, 0%nat)];
  has_changes := true;
  tag_map := ∅;
  all_datasets :=
    [ ("a.dcm", [(PatientName, 0%nat)]);
      ("b.dcm", [(PatientName, 1%nat)]);
      ("c.dcm", [(PatientName, 2%nat)]) ];
  elements :=
    <[0%nat := Element PatientName "PN" "Patient's Name" (VStr "Doe")]>
    (<[1%nat := Element PatientName "PN" "Patient's Name" VNone]>
    (<[2%nat := Element PatientName "PN" "Patient's Name" (VStr "Roe")]> ∅));
  disk :=
    <["a.dcm" := old_bytes]>
    (<["b.dcm" := old_bytes]> (<["c.dcm" := old_bytes]> ∅));
  tree_nodes := 0%nat
|}.

(** An element with VR [IS] under the cursor of a single loaded file. *)
Definition editing_number : State := {|
  dicom_files := ["scan.dcm"];
  current_index := 0%nat;
  dataset := Some [(InstanceNumber, 0%nat)];
  has_changes := false;
  tag_map := {[ 1%nat := TagInfo 0%nat InstanceNumber "Instance Number" "IS" [] ]};
  all_datasets := [];
  elements :=
    {[ 0%nat := Element InstanceNumber "IS" "Instance Number" (VInt 7) ]};
  disk := ∅;
  tree_nodes := 2%nat
|}.

(** A codec that, like a writer that has opened its file for writing
    before the encoding fails, leaves the file empty when it raises;
    otherwise as [test_codec]. *)
Definition truncating_codec (h : gmap loc DataElement) (d : Dataset)
    (old : option Bytes) : Bytes + option Bytes :=
  if forallb (fun kv => has_value h kv.2) d
  then inl (map (fun _ => Byte.x2a) d)
  else inr (Some []).

#[local] Instance truncating_runtime : Externals := {|
  py_float := test_float;
  py_int := test_int;
  py_strip := fun s => s;
  py_str := test_str;
  tag_in_tuples := fun t ts => bool_decide (t ∈ ts);
  save_as_codec := truncating_codec;
  unlink_refused := fun _ => false;
  recursion_limit := 1000%nat
|}.

(** A file and the backup an earlier save left of it, both loaded as
    working files, as happens when the directory is opened again; both
    edited, both datasets encode. *)
Definition backup_loaded : State := {|
  dicom_files := ["a.dcm"; "a.dcm.bak"];
  current_index := 0%nat;
  dataset := Some [(PatientName, 0%nat)];
  has_changes := true;
  tag_map := ∅;
  all_datasets :=
    [ ("a.dcm", [(PatientName, 0%nat)]);
      ("a.dcm.bak", [(PatientName, 1%nat)]) ];
  elements :=
    <[0%nat := Element PatientName "PN" "Patient's Name" (VStr "Doe")]>
    (<[1%nat := Element PatientName "PN" "Patient's Name" (VStr "Roe")]> ∅);
  disk := <["a.dcm" := old_bytes]> (<["a.dcm.bak" := stale_bytes]> ∅);
  tree_nodes := 0%nat
|}.

End Examples.

(** ** Consistency across files, navigation and loading *)

Module Session.
Import Dicom.
Local Open Scope py_scope.

Definition set_current_index (i : nat) (s : State) : State :=
  mkState (dicom_files s) i (dataset s) (has_changes s) (tag_map s)
          (all_datasets s) (elements s) (disk s) (tree_nodes s).

Definition set_all_datasets (ads : list (Path * Dataset)) (s : State) : State :=
  mkState (dicom_files s) (current_index s) (dataset s) (has_changes s)
          (tag_map s) ads (elements s) (disk s) (tree_nodes s).

(** [sep.join(l)] *)
Fixpoint join (sep : string) (l : list string) : string :=
  match l with
  | [] => ""
  | [x] => x
  | x :: rest => x +:+ sep +:+ join sep rest
  end.

Section Consistency.
Context {ext : Externals}.

(** [get_tag_values_across_files(tag)]: for each loaded file the string
    of the value under the tag, [None] when the file lacks the tag. *)
Definition get_tag_values_across_files (tag : Tag) (s : State)
  : list (Path * option string) :=
  map (fun '(file_path, dataset) =>
         (file_path,
          match ds_get tag dataset with
          | Some l => Some (py_str (elem_value (elements s !!! l)))
          | None => None
          end))
      (all_datasets s).

(** [is_tag_consistent_across_files(tag)]. The distinct values form a
    Python set, whose iteration order is not specified; the listing of
    the finite set fixes one. *)
Definition is_tag_consistent_across_files (tag : Tag) (s : State)
  : bool * option string :=
  if bool_decide (length (dicom_files s) <= 1)%nat then (true, None)
  else
    let values := get_tag_values_across_files tag s in
    let unique_values : gset string := list_to_set (omap snd values) in
    if bool_decide (size unique_values <= 1)%nat then
      (true, head (base.elements unique_values))
    else
      (false,
       Some ("Mixed values: "
             +:+ join ", " (take 3 (base.elements unique_values))
             +:+ (if bool_decide (3 < size unique_values)%nat
                  then "..." else ""))).

(** A string some loaded file shows under the tag. *)
Definition shown_value (tag : Tag) (s : State) (v : string) : Prop :=
  exists p d l,
    (p, d) ∈ all_datasets s /\ ds_get tag d = Some l /\
    v = py_str (elem_value (elements s !!! l)).

(** What a refresh of the tree leaves alone: everything but [tag_map]
    and the nodes handed out. *)
Definition same_records (s0 s : State) : Prop :=
  dicom_files s = dicom_files s0 /\ current_index s = current_index s0 /\
  dataset s = dataset s0 /\ has_changes s = has_changes s0 /\
  all_datasets s = all_datasets s0 /\ elements s = elements s0 /\
  disk s = disk s0.

(** Every entry of [tag_map] points at an element of the store [h] that
    may be edited, is no sequence, and has the tag, VR and name the
    entry records. *)
Definition entries_sound (h : gmap loc DataElement) (s : State) : Prop :=
  elements s = h /\
  forall n ti, tag_map s !! n = Some ti ->
    let e := h !!! ti_element ti in
    is_editable_tag e = true /\ elem_VR e <> "SQ" /\
    ti_tag ti = elem_tag e /\ ti_vr ti = elem_VR e /\
    ti_name ti = elem_name e.

End Consistency.

(** *** Loading and navigation *)

(** [pydicom.dcmread(str(path))]: decodes the file at the path into a
    dataset of new element objects, or raises. *)
Class Loader : Type := {
  dcmread : Path -> Py Dataset
}.

(** Reading a file allocates element objects and changes nothing else:
    the objects already in the store stay as they are. *)
Class LoaderLaws (ld : Loader) : Prop := {
  dcmread_allocates :
    forall p s, exists h,
      snd (dcmread p s) = set_elements h s /\
      forall l e, elements s !! l = Some e -> h !! l = Some e
}.

Section Navigation.
Context {ext : Externals} {ld : Loader}.

(** [load_all_datasets]: a file is read only when the cache has no
    entry for it; a file that cannot be read is skipped. *)
Definition load_all_datasets : Py unit :=
  files <- gets dicom_files ;;
  for_each files (fun file_path =>
    ads <- gets all_datasets ;;
    if bool_decide (is_Some (dict_get file_path ads)) then ret tt
    else
      try_pass
        (d <- dcmread file_path ;;
         modify (fun s =>
           set_all_datasets (all_datasets s ++ [(file_path, d)]) s))).

(** [load_dicom_file]. The result is [None], or the exception for which
    [self.exit] was called. *)
Definition load_dicom_file : Py (option exn) :=
  fun s =>
    match
      (f <- current_file ;;
       d <- dcmread f ;;
       modify (set_dataset (Some d)) ;;
       files <- gets dicom_files ;;
       if bool_decide (1 < length files)%nat then load_all_datasets
       else ret tt) s
    with
    | (Ok _, s') => (Ok None, s')
    | (Raise e, s') => (Ok (Some e), s')
    end.

(** [switch_to_current_file]: the cached dataset, edits included, when
    there is one; a fresh load otherwise. *)
Definition switch_to_current_file : Py (option exn) :=
  files <- gets dicom_files ;;
  if bool_decide (1 < length files)%nat then
    f <- current_file ;;
    ads <- gets all_datasets ;;
    match dict_get f ads with
    | Some d => modify (set_dataset (Some d)) ;; ret None
    | None => load_dicom_file
    end
  else load_dicom_file.

(** [(i + 1) % n] and [(i - 1) % n] on Python integers. *)
Definition next_index (i n : nat) : nat :=
  Z.to_nat ((Z.of_nat i + 1) mod Z.of_nat n).

Definition prev_index (i n : nat) : nat :=
  Z.to_nat ((Z.of_nat i - 1) mod Z.of_nat n).

(** [action_next_file] and [action_prev_file]; the tree is refreshed in
    either view, the image view is not modelled. *)
Definition action_next_file : Py Value :=
  files <- gets dicom_files ;;
  if bool_decide (1 < length files)%nat then
    modify (fun s =>
      set_current_index (next_index (current_index s) (length files)) s) ;;
    switch_to_current_file ;;
    populate_tree ;;
    ret VNone
  else ret VNone.

Definition action_prev_file : Py Value :=
  files <- gets dicom_files ;;
  if bool_decide (1 < length files)%nat then
    modify (fun s =>
      set_current_index (prev_index (current_index s) (length files)) s) ;;
    switch_to_current_file ;;
    populate_tree ;;
    ret VNone
  else ret VNone.

(** What loading and navigation keep: the files, the flag, the disk and
    every element object already in the store. *)
Definition keeps_session (s0 s : State) : Prop :=
  dicom_files s = dicom_files s0 /\ has_changes s = has_changes s0 /\
  disk s = disk s0 /\
  forall l e, elements s0 !! l = Some e -> elements s !! l = Some e.

(** The cache only grows by new keys: the old entries come first, as
    they were, and each new key is one of [files] that had no entry. *)
Definition extends_cache (files : list Path)
    (old new : list (Path * Dataset)) : Prop :=
  exists added,
    new = old ++ added /\
    forall p d, (p, d) ∈ added -> p ∈ files /\ dict_get p old = None.

End Navigation.
End Session.

(** ** Rescaling, preset keys and glyph lines *)

Module Viewer.
Import Render.

(** The value of a dataset attribute as array arithmetic sees it: a
    number, or something NumPy cannot compute with (pydicom gives [None]
    for an empty value). *)
Inductive attr :=
| Number (q : Q)
| NotANumber.

(** [getattr(self.dataset, name, default)] *)
Definition getattr (a : option attr) (default : Q) : attr :=
  match a with
  | Some v => v
  | None => Number default
  end.

(** [array * v] and [array + v]. *)
Definition array_mul (g : Grid) (v : attr) : outcome Grid :=
  match v with
  | Number q => Ok (grid_map (fun x => x * q)%Q g)
  | NotANumber => Raise TypeError
  end.

Definition array_add (g : Grid) (v : attr) : outcome Grid :=
  match v with
  | Number q => Ok (grid_map (fun x => x + q)%Q g)
  | NotANumber => Raise TypeError
  end.

(** [apply_dicom_rescaling]: the arguments are the dataset's
    [RescaleSlope] and [RescaleIntercept], [None] when it has none. The
    [except] branch returns the array as converted to float. *)
Definition apply_dicom_rescaling (RescaleSlope RescaleIntercept : option attr)
    (pixel_array : Grid) : Grid :=
  let rescale_slope := getattr RescaleSlope 1 in
  let rescale_intercept := getattr RescaleIntercept 0 in
  match
    obind (array_mul pixel_array rescale_slope) (fun scaled =>
    array_add scaled rescale_intercept)
  with
  | Ok hounsfield_array => hounsfield_array
  | Raise _ => pixel_array
  end.

(** Python's [a % n] on integers. *)
Definition py_mod (a n : Z) : outcome Z :=
  if bool_decide (n = 0) then Raise ZeroDivisionError else Ok (a mod n).

(** [on_key]: the new value of [self.current_preset]. The refresh of the
    image view is not modelled. *)
Definition on_key (presets : list preset) (show_image : bool) (key : string)
    (current_preset : nat) : outcome nat :=
  if show_image && bool_decide (key ∈ ["w"; "s"]) then
    if bool_decide (key = "w") then
      obind (py_mod (Z.of_nat current_preset + 1) (Z.of_nat (length presets)))
        (fun r => Ok (Z.to_nat r))
    else
      obind (py_mod (Z.of_nat current_preset - 1) (Z.of_nat (length presets)))
        (fun r => Ok (Z.to_nat r))
  else Ok current_preset.

(** A run of key events, each with the view that is showing when the
    key arrives. *)
Fixpoint on_keys (presets : list preset) (events : list (bool * string))
    (current_preset : nat) : outcome nat :=
  match events with
  | [] => Ok current_preset
  | (show_image, key) :: rest =>
      obind (on_key presets show_image key current_preset)
        (on_keys presets rest)
  end.

(** The loop of [pixel_array_to_unicode] that turns the resized image
    into lines of glyphs; [blocks[idx]] raises [IndexError] outside the
    list. *)
Definition unicode_lines (resized_array : Image8)
  : outcome (list (list glyph)) :=
  grid_mapM (fun idx =>
    match block_glyph idx with
    | Some c => Ok c
    | None => Raise IndexError
    end) (block_indices resized_array).

End Viewer.

(** ** Finding and ordering the files to open *)

Module Discovery.
Import Dicom.

(** What a function hands back: a value, or [sys.exit(code)]. *)
Inductive result (A : Type) : Type :=
| Returns (a : A)
| Exits (code : Z).
Arguments Returns {A} a.
Arguments Exits {A} code.

(** An attribute of a dataset read from a file: not there, there with
    the value [None], or there with a value. *)
Inductive attribute (A : Type) : Type :=
| Missing
| IsNone
| Holds (v : A).
Arguments Missing {A}.
Arguments IsNone {A}.
Arguments Holds {A} v.

(** The two attributes [get_instance_number] looks at, each value given
    by what [int(...)] and [float(...)] make of it: [None] when the
    conversion raises. *)
Record header := Header {
  InstanceNumber : attribute (option Z);
  SliceLocation : attribute (option pyfloat)
}.

(** The file system during the scan. [read_header] is
    [pydicom.dcmread(path, stop_before_pixels=True)], [None] when it
    raises. *)
Class FileSystem : Type := {
  is_file : Path -> bool;
  is_dir : Path -> bool;
  iterdir : Path -> list Path;
  read_header : Path -> option header
}.

(** Python's float multiplication [a * b]: the product as a double,
    that is, rounded, and an infinity when it overflows. *)
Class FloatArith : Type := {
  float_mul : pyfloat -> pyfloat -> pyfloat
}.

(** [int(f)] for a float [f]: truncation toward zero, which is exact;
    an infinity or a NaN makes [int] raise. *)
Definition int_of_float (f : pyfloat) : option Z :=
  match f with
  | FFinite q => Some (Render.Qtrunc q)
  | FInf _ => None
  | FNan => None
  end.

(** [sorted(l, key=key)]: the stable ascending sort, here by insertion
    from the right; an element goes before the first one whose key is
    not smaller. *)
Fixpoint insert_by {A} (key : A -> Z) (x : A) (l : list A) : list A :=
  match l with
  | [] => [x]
  | y :: l' =>
      if key x <=? key y then x :: y :: l' else y :: insert_by key x l'
  end.

Definition sorted {A} (key : A -> Z) (l : list A) : list A :=
  foldr (insert_by key) [] l.

(** Ascending by key. *)
Fixpoint ascending {A} (key : A -> Z) (l : list A) : Prop :=
  match l with
  | [] => True
  | x :: l' => Forall (fun y => key x <= key y) l' /\ ascending key l'
  end.

Section Scan.
Context {fs : FileSystem} {fa : FloatArith}.

Definition is_dicom_file (file_path : Path) : bool :=
  match read_header file_path with
  | Some _ => true
  | None => false
  end.

(** [get_instance_number]: the body of the [try], [None] when it
    raises, and the function with its [except]. *)
Definition instance_number_of (dataset : header) : option Z :=
  match InstanceNumber dataset with
  | Holds v => v
  | Missing | IsNone =>
      match SliceLocation dataset with
      | Holds v => f ← v; int_of_float (float_mul f (FFinite 1000))
      | Missing | IsNone => Some 999999
      end
  end.

Definition get_instance_number (file_path : Path) : Z :=
  default 999999 (dataset ← read_header file_path; instance_number_of dataset).

Definition find_dicom_files (path : Path) : result (list Path) :=
  if is_file path then
    if is_dicom_file path then Returns [path] else Exits 1
  else if is_dir path then
    let dicom_files :=
      List.filter (fun file_path => is_file file_path && is_dicom_file file_path)
        (iterdir path) in
    if bool_decide (dicom_files = []) then Exits 1
    else Returns (sorted get_instance_number dicom_files)
  else Exits 1.

(** [main], up to the list of files the application is built with;
    [argv] includes the program name. *)
Definition main (argv : list string) : result (list Path) :=
  if bool_decide (length argv <> 2%nat) then Exits 1
  else
    match argv !! 1%nat with
    | Some path => find_dicom_files path
    | None => Exits 1
    end.

End Scan.
End Discovery.

(** ** Further stand-ins and states for the worked examples *)

Module Scenes.
Import Dicom Examples Session Discovery.

(** The three records, with the patient name of the first one listed in
    the tree. *)
Definition three_records_listed : State :=
  set_tag_map
    {[ 1%nat := TagInfo 0%nat PatientName "Patient's Name" "PN" [] ]}
    three_records.

(** A stand-in for [pydicom.dcmread]: a path that holds bytes reads as a
    dataset with one new element object, a patient name; any other path
    raises. *)
Definition test_dcmread (p : Path) : Py Dataset :=
  fun s =>
    match disk s !! p with
    | Some _ =>
        let l := fresh (dom (elements s) : gset loc) in
        (Ok [(PatientName, l)],
         set_elements
           (<[l := Element PatientName "PN" "Patient's Name" (VStr p)]>
              (elements s)) s)
    | None => (Raise FileNotFoundError, s)
    end.

#[local] Instance test_loader : Loader := {| dcmread := test_dcmread |}.

(** Two files on disk and a third that is listed but missing; nothing
    loaded yet. *)
Definition two_on_disk : State := {|
  dicom_files := ["a.dcm"; "b.dcm"; "gone.dcm"];
  current_index := 0%nat;
  dataset := None;
  has_changes := false;
  tag_map := ∅;
  all_datasets := [];
  elements := ∅;
  disk := <["a.dcm" := old_bytes]> {[ "b.dcm" := old_bytes ]};
  tree_nodes := 0%nat
|}.

(** A directory [scan] with four DICOM files and a text file, and a
    lone DICOM file beside it. *)
Definition test_header (p : Path) : option header :=
  if bool_decide (p = "scan/a.dcm") then
    Some (Header (Holds (Some 2)) Missing)
  else if bool_decide (p = "scan/b.dcm") then
    Some (Header IsNone Missing)
  else if bool_decide (p = "scan/c.dcm") then
    Some (Header (Holds (Some 1)) (Holds (Some (FFinite 7))))
  else if bool_decide (p = "scan/d.dcm") then
    Some (Header (Holds None) Missing)
  else if bool_decide (p = "scan/e.dcm") then
    Some (Header Missing (Holds (Some (FFinite (3 # 2)))))
  else if bool_decide (p = "one.dcm") then
    Some (Header Missing Missing)
  else None.

(** A stand-in for the multiplication of floats: exact on finite
    operands, which is what a double gives for the products of the
    examples; an infinity keeps or flips its sign, and a NaN, or an
    infinity times zero, gives a NaN. *)
Definition test_float_mul (a b : pyfloat) : pyfloat :=
  let negative (q : Q) := negb (Qle_bool 0 q) in
  let times_inf (s : bool) (q : Q) :=
    if Qeq_bool q 0 then FNan else FInf (xorb s (negative q)) in
  match a, b with
  | FFinite x, FFinite y => FFinite (x * y)
  | FInf s, FFinite y => times_inf s y
  | FFinite x, FInf s => times_inf s x
  | FInf s, FInf t => FInf (xorb s t)
  | FNan, _ | _, FNan => FNan
  end.

#[local] Instance test_float_arith : FloatArith := {|
  float_mul := test_float_mul
|}.

#[local] Instance test_fs : FileSystem := {|
  is_file := fun p =>
    bool_decide (p ∈ ["scan/a.dcm"; "scan/b.dcm"; "scan/c.dcm"; "scan/d.dcm";
                      "scan/e.dcm"; "scan/notes.txt"; "one.dcm"]);
  is_dir := fun p => bool_decide (p ∈ ["scan"; "scan/sub"]);
  iterdir := fun p =>
    if bool_decide (p = "scan") then
      ["scan/b.dcm"; "scan/a.dcm"; "scan/notes.txt"; "scan/sub"; "scan/d.dcm";
       "scan/e.dcm"; "scan/c.dcm"]
    else [];
  read_header := test_header
|}.

End Scenes.

(** * Properties of the rendering pipeline *)

Module RenderFacts.
Import Render.

Lemma mapM_total {A B} (f : A -> outcome B) (h : A -> B) (l : list A) :
  (forall x, x ∈ l -> f x = Ok (h x)) -> mapM f l = Ok (map h l).
Proof.
  induction l as [|x l IH]; intros Hf; [reflexivity|].
  cbn. rewrite (Hf x) by left. cbn.
  rewrite IH by (intros y Hy; apply Hf; now right). reflexivity.
Qed.

Lemma grid_mapM_total {A B} (f : A -> outcome B) (h : A -> B)
    (g : list (list A)) :
  (forall x, f x = Ok (h x)) -> grid_mapM f g = Ok (grid_map h g).
Proof.
  intros Hf. unfold grid_mapM, grid_map.
  apply mapM_total. intros row _. apply mapM_total. intros x _. apply Hf.
Qed.

Lemma true_divide_nonzero (a b : Q) :
  ~ (b == 0)%Q -> true_divide a b = Ok (a / b)%Q.
Proof.
  intros Hb. unfold true_divide.
  destruct (Qeq_bool b 0) eqn:E; [|reflexivity].
  apply Qeq_bool_eq in E. contradiction.
Qed.

Lemma Qgt_bool_true (a b : Q) : Qgt_bool a b = true <-> (b < a)%Q.
Proof.
  unfold Qgt_bool. rewrite negb_true_iff.
  split.
  - intros E. apply Qnot_le_lt. intros Hle.
    apply Qle_bool_iff in Hle. congruence.
  - intros Hlt. destruct (Qle_bool a b) eqn:E; [|reflexivity].
    apply Qle_bool_iff in E. exfalso. apply (Qlt_not_le _ _ Hlt E).
Qed.

Lemma Qgt_bool_false (a b : Q) : Qgt_bool a b = false <-> (a <= b)%Q.
Proof.
  unfold Qgt_bool. rewrite negb_false_iff. apply Qle_bool_iff.
Qed.

Lemma clip_range (lo hi x : Q) :
  (lo <= hi)%Q -> (lo <= clip lo hi x /\ clip lo hi x <= hi)%Q.
Proof.
  intros Hle. unfold clip. split.
  - apply Q.min_glb; [apply Q.le_max_r | exact Hle].
  - apply Q.le_min_r.
Qed.

Lemma clip_below (lo hi x : Q) :
  (lo <= hi)%Q -> (x <= lo)%Q -> (clip lo hi x == lo)%Q.
Proof.
  intros Hle Hx. unfold clip.
  rewrite (Q.max_r x lo) by exact Hx. apply Q.min_l. exact Hle.
Qed.

Lemma clip_above (lo hi x : Q) :
  (lo <= hi)%Q -> (hi <= x)%Q -> (clip lo hi x == hi)%Q.
Proof.
  intros Hle Hx. unfold clip. apply Q.min_r.
  apply Qle_trans with x; [exact Hx | apply Q.le_max_l].
Qed.

Lemma clip_inside (lo hi x : Q) :
  (lo <= x)%Q -> (x <= hi)%Q -> (clip lo hi x == x)%Q.
Proof.
  intros H1 H2. unfold clip.
  rewrite (Q.max_l x lo) by exact H1. apply Q.min_l. exact H2.
Qed.

Lemma astype_uint8_in_range (q : Q) :
  (0 <= q)%Q -> (q <= 255)%Q ->
  astype_uint8 q = Qfloor q /\ 0 <= Qfloor q <= 255.
Proof.
  intros H0 H255.
  assert (Hf : 0 <= Qfloor q <= 255).
  { split.
    - change 0 with (Qfloor 0). now apply Qfloor_resp_le.
    - change 255 with (Qfloor 255). now apply Qfloor_resp_le. }
  split; [|exact Hf].
  unfold astype_uint8, Qtrunc.
  apply Qle_bool_iff in H0. rewrite H0.
  apply Z.mod_small. lia.
Qed.

(** The value [apply_windowing] computes for one sample under a fixed
    window with [lo < hi]. *)
Lemma scaled_range (lo hi x : Q) :
  (lo < hi)%Q ->
  (0 <= (clip lo hi x - lo) / (hi - lo) * 255 /\
   (clip lo hi x - lo) / (hi - lo) * 255 <= 255)%Q.
Proof.
  intros Hlt.
  destruct (clip_range lo hi x (Qlt_le_weak _ _ Hlt)) as [Hlo Hhi].
  remember (clip lo hi x) as y eqn:Ey. clear Ey.
  assert (Hd : (0 < hi - lo)%Q) by (clear -Hlt; lra).
  assert (H0 : (0 <= (y - lo) / (hi - lo))%Q).
  { apply Qle_shift_div_l; [exact Hd | lra]. }
  assert (H1 : ((y - lo) / (hi - lo) <= 1)%Q).
  { apply Qle_shift_div_r; [exact Hd | lra]. }
  remember ((y - lo) / (hi - lo))%Q as r eqn:Er. clear Er. split; lra.
Qed.

Lemma grid_map_Forall2 {A B} (R : A -> B -> Prop) (f : A -> B)
    (g : list (list A)) :
  (forall x, R x (f x)) -> Forall2 (Forall2 R) g (grid_map f g).
Proof.
  intros HR. unfold grid_map.
  induction g as [|row g IH]; cbn; constructor; [|exact IH].
  induction row as [|x row IHr]; cbn; constructor; [apply HR | exact IHr].
Qed.

Lemma window_fixed_value (w c : Z) (g : Grid) :
  (lower_bound w c < upper_bound w c)%Q ->
  window_fixed w c g =
  Ok (grid_map (fun x =>
        astype_uint8 ((clip (lower_bound w c) (upper_bound w c) x
                       - lower_bound w c)
                      / (upper_bound w c - lower_bound w c) * 255)%Q) g).
Proof.
  intros Hlt. unfold window_fixed.
  apply Qgt_bool_true in Hlt as Hg. rewrite Hg.
  rewrite (grid_mapM_total _
             (fun x => ((x - lower_bound w c)
                        / (upper_bound w c - lower_bound w c) * 255)%Q)).
  - cbn. f_equal. unfold grid_map. rewrite !map_map.
    apply map_ext. intros row. rewrite !map_map. reflexivity.
  - intros x. rewrite true_divide_nonzero; [reflexivity|]. lra.
Qed.

Lemma window_fixed_degenerate (w c : Z) (g : Grid) :
  (upper_bound w c <= lower_bound w c)%Q ->
  window_fixed w c g = Ok (zeros_like g).
Proof.
  intros Hle. unfold window_fixed.
  apply Qgt_bool_false in Hle. rewrite Hle. cbn. f_equal.
  unfold zeros_like, zeros_like_float, grid_map. rewrite !map_map.
  apply map_ext. intros row. rewrite !map_map. reflexivity.
Qed.

Lemma clip_mono (lo hi x y : Q) :
  (x <= y)%Q -> (clip lo hi x <= clip lo hi y)%Q.
Proof.
  intros Hxy. unfold clip.
  apply Q.min_le_compat_r. now apply Q.max_le_compat_r.
Qed.

Lemma scale_mono (lo hi x y : Q) :
  (lo < hi)%Q -> (x <= y)%Q ->
  ((x - lo) / (hi - lo) * 255 <= (y - lo) / (hi - lo) * 255)%Q.
Proof.
  intros Hlt Hxy.
  assert (Hd : (0 < hi - lo)%Q) by lra.
  assert (H : ((x - lo) / (hi - lo) <= (y - lo) / (hi - lo))%Q).
  { apply Qle_shift_div_l; [exact Hd|].
    assert (E : ((x - lo) / (hi - lo) * (hi - lo) == x - lo)%Q)
      by (field; lra).
    rewrite E. lra. }
  lra.
Qed.

Lemma soft_tissue_bounds :
  (lower_bound 350 40 == -135)%Q /\ (upper_bound 350 40 == 215)%Q.
Proof. split; reflexivity. Qed.

(** C6: under a fixed preset whose upper bound exceeds its lower bound,
    [apply_windowing] returns a grid of the same shape in which every
    sample has been clipped to the window and scaled linearly to 0..255:
    intensities stay within 0..255, samples at or below the lower bound
    give 0, samples at or above the upper bound give 255, a sample
    inside the window gets the integer part of its linear position
    [(x - lower) / (upper - lower) * 255] to within one unit, and a
    larger sample never gets a smaller intensity. For width 350 and
    center 40, sample 40 gives 127 or 128, samples at most -135 give 0
    and samples at least 215 give 255.

    The unit of slack is what rounding can move: the embedding computes
    the position exactly and truncates it, the program truncates a
    position that floating-point arithmetic has rounded, which may fall
    on the other side of an integer. The other parts do not depend on
    the rounding. *)
Theorem fixed_window_clips_and_scales
    (presets : list preset) (i : nat) (p : preset) (w c : Z) (g : Grid) :
  presets !! i = Some p ->
  is_auto p = false ->
  window_width p = Some w ->
  window_center p = Some c ->
  (lower_bound w c < upper_bound w c)%Q ->
  exists out,
    apply_windowing presets i g = Ok out /\
    Forall2 (Forall2 (fun (x : Q) (v : Z) =>
      0 <= v <= 255 /\
      ((x <= lower_bound w c)%Q -> v = 0) /\
      ((upper_bound w c <= x)%Q -> v = 255) /\
      ((lower_bound w c <= x)%Q -> (x <= upper_bound w c)%Q ->
       Qfloor ((x - lower_bound w c)
               / (upper_bound w c - lower_bound w c) * 255) - 1 <= v
       <= Qfloor ((x - lower_bound w c)
                  / (upper_bound w c - lower_bound w c) * 255) + 1) /\
      (w = 350 -> c = 40 ->
       ((x == 40)%Q -> v = 127 \/ v = 128) /\
       ((x <= -135)%Q -> v = 0) /\
       ((215 <= x)%Q -> v = 255)))) g out /\
    exists level : Q -> Z,
      out = grid_map level g /\
      forall x y, (x <= y)%Q -> level x <= level y.
Proof.
  intros Hp Hauto Hw Hc Hlt.
  eexists. split; [|split].
  - unfold apply_windowing. rewrite Hp, Hauto, Hw, Hc.
    apply window_fixed_value. exact Hlt.
  - apply grid_map_Forall2. intros x.
    set (lo := lower_bound w c) in *. set (hi := upper_bound w c) in *.
    destruct (scaled_range lo hi x Hlt) as [H0 H255].
    destruct (astype_uint8_in_range _ H0 H255) as [Hv Hr].
    assert (Hle : (lo <= hi)%Q) by lra.
    assert (Hbelow : (x <= lo)%Q ->
              astype_uint8 ((clip lo hi x - lo) / (hi - lo) * 255) = 0).
    { intros Hx. rewrite Hv.
      rewrite (Qfloor_comp _ 0%Q); [reflexivity|].
      rewrite (clip_below lo hi x Hle Hx). field. lra. }
    assert (Habove : (hi <= x)%Q ->
              astype_uint8 ((clip lo hi x - lo) / (hi - lo) * 255) = 255).
    { intros Hx. rewrite Hv.
      rewrite (Qfloor_comp _ 255%Q); [reflexivity|].
      rewrite (clip_above lo hi x Hle Hx). field. lra. }
    assert (Hin : (lo <= x)%Q -> (x <= hi)%Q ->
              astype_uint8 ((clip lo hi x - lo) / (hi - lo) * 255)
              = Qfloor ((x - lo) / (hi - lo) * 255)).
    { intros H1 H2. rewrite Hv. apply Qfloor_comp.
      rewrite (clip_inside lo hi x H1 H2). reflexivity. }
    split; [rewrite Hv; exact Hr|].
    split; [exact Hbelow|]. split; [exact Habove|].
    split; [intros H1 H2; rewrite (Hin H1 H2); lia|].
    intros -> ->. destruct soft_tissue_bounds as [El Eh]. fold lo hi in El, Eh.
    split; [|split].
    + intros Hx. left. rewrite Hin by lra.
      rewrite (Qfloor_comp _ (255 # 2)); [reflexivity|].
      rewrite Hx, El, Eh. reflexivity.
    + intros Hx. apply Hbelow. lra.
    + intros Hx. apply Habove. lra.
  - eexists. split; [reflexivity|]. intros x y Hxy.
    destruct (scaled_range _ _ x Hlt) as [Hx0 Hx1].
    destruct (scaled_range _ _ y Hlt) as [Hy0 Hy1].
    destruct (astype_uint8_in_range _ Hx0 Hx1) as [-> _].
    destruct (astype_uint8_in_range _ Hy0 Hy1) as [-> _].
    apply Qfloor_resp_le. apply scale_mono; [exact Hlt|].
    now apply clip_mono.
Qed.

Lemma fixed_window_clips_and_scales_witness :
  exists out,
    apply_windowing window_presets 1 [[40; -200; 300]%Q] = Ok out /\
    Forall2 (Forall2 (fun (x : Q) (v : Z) =>
      0 <= v <= 255 /\
      ((x <= lower_bound 350 40)%Q -> v = 0) /\
      ((upper_bound 350 40 <= x)%Q -> v = 255) /\
      ((lower_bound 350 40 <= x)%Q -> (x <= upper_bound 350 40)%Q ->
       Qfloor ((x - lower_bound 350 40)
               / (upper_bound 350 40 - lower_bound 350 40) * 255) - 1 <= v
       <= Qfloor ((x - lower_bound 350 40)
                  / (upper_bound 350 40 - lower_bound 350 40) * 255) + 1) /\
      (350 = 350 -> 40 = 40 ->
       ((x == 40)%Q -> v = 127 \/ v = 128) /\
       ((x <= -135)%Q -> v = 0) /\
       ((215 <= x)%Q -> v = 255)))) [[40; -200; 300]%Q] out /\
    exists level : Q -> Z,
      out = grid_map level [[40; -200; 300]%Q] /\
      forall x y, (x <= y)%Q -> level x <= level y.
Proof.
  apply (fixed_window_clips_and_scales window_presets 1
           (Preset "Soft Tissue" (Some 350) (Some 40)) 350 40);
    reflexivity.
Defined.

Example soft_tissue_samples :
  apply_windowing window_presets 1 [[40; -200; 300; -135; 215; 0]%Q]
  = Ok [[127; 0; 255; 0; 255; 98]].
Proof. reflexivity. Qed.

(** *** No division by zero *)

Lemma grid_min_raises (g : Grid) (e : exn) :
  grid_min g = Raise e -> e = ValueError.
Proof. unfold grid_min. destruct (concat g); congruence. Qed.

Lemma grid_max_raises (g : Grid) (e : exn) :
  grid_max g = Raise e -> e = ValueError.
Proof. unfold grid_max. destruct (concat g); congruence. Qed.

Lemma window_auto_stretch (g : Grid) (mn mx : Q) :
  grid_min g = Ok mn -> grid_max g = Ok mx -> (mn < mx)%Q ->
  window_auto g =
  Ok (grid_map (fun x => astype_uint8 ((x - mn) / (mx - mn) * 255)%Q) g).
Proof.
  intros Hmn Hmx Hlt. unfold window_auto. rewrite Hmn, Hmx. cbn.
  apply Qgt_bool_true in Hlt as Hg. rewrite Hg.
  apply grid_mapM_total. intros x.
  rewrite true_divide_nonzero; [reflexivity|]. lra.
Qed.

Lemma window_auto_flat (g : Grid) (mn mx : Q) :
  grid_min g = Ok mn -> grid_max g = Ok mx -> (mx <= mn)%Q ->
  window_auto g = Ok (zeros_like g).
Proof.
  intros Hmn Hmx Hle. unfold window_auto. rewrite Hmn, Hmx. cbn.
  apply Qgt_bool_false in Hle. now rewrite Hle.
Qed.

Lemma window_auto_no_zero_division (g : Grid) :
  window_auto g <> Raise ZeroDivisionError.
Proof.
  destruct (grid_min g) as [mn|e] eqn:Hmn.
  - destruct (grid_max g) as [mx|e] eqn:Hmx.
    + destruct (Qlt_le_dec mn mx) as [Hlt|Hle].
      * now rewrite (window_auto_stretch g mn mx).
      * now rewrite (window_auto_flat g mn mx).
    + unfold window_auto. rewrite Hmn, Hmx. cbn.
      apply grid_max_raises in Hmx. congruence.
  - unfold window_auto. rewrite Hmn. cbn.
    apply grid_min_raises in Hmn. congruence.
Qed.

Lemma window_fixed_no_zero_division (w c : Z) (g : Grid) :
  window_fixed w c g <> Raise ZeroDivisionError.
Proof.
  destruct (Qlt_le_dec (lower_bound w c) (upper_bound w c)) as [Hlt|Hle].
  - now rewrite window_fixed_value.
  - now rewrite window_fixed_degenerate.
Qed.

(** C7: [apply_windowing] never divides by zero. Whatever the preset
    list, the selected preset and the grid, no division with a zero
    denominator is reached; under auto-windowing a grid whose minimum
    equals its maximum gives the all-zero grid, and so does a fixed
    preset whose upper bound does not exceed its lower bound. *)
Theorem windowing_never_divides_by_zero
    (presets : list preset) (i : nat) (g : Grid) :
  apply_windowing presets i g <> Raise ZeroDivisionError /\
  (forall p mn mx,
     presets !! i = Some p -> is_auto p = true ->
     grid_min g = Ok mn -> grid_max g = Ok mx -> (mn == mx)%Q ->
     apply_windowing presets i g = Ok (zeros_like g)) /\
  (forall p w c,
     presets !! i = Some p -> is_auto p = false ->
     window_width p = Some w -> window_center p = Some c ->
     (upper_bound w c <= lower_bound w c)%Q ->
     apply_windowing presets i g = Ok (zeros_like g)).
Proof.
  split; [|split].
  - unfold apply_windowing.
    destruct (presets !! i) as [p|]; [|congruence].
    destruct (is_auto p); [apply window_auto_no_zero_division|].
    destruct (window_width p) as [w|]; [|congruence].
    destruct (window_center p) as [c|]; [|congruence].
    apply window_fixed_no_zero_division.
  - intros p mn mx Hp Ha Hmn Hmx Heq.
    unfold apply_windowing. rewrite Hp, Ha.
    apply (window_auto_flat g mn mx Hmn Hmx). rewrite Heq. apply Qle_refl.
  - intros p w c Hp Ha Hw Hc Hle.
    unfold apply_windowing. rewrite Hp, Ha, Hw, Hc.
    now apply window_fixed_degenerate.
Qed.

Lemma windowing_never_divides_by_zero_witness :
  apply_windowing window_presets 0 [[5; 5]; [5; 5]]%Q
  = Ok [[0; 0]; [0; 0]] /\
  apply_windowing [Preset "Flat" (Some 0) (Some 40)] 0 [[1; 2]]%Q
  = Ok [[0; 0]].
Proof.
  split.
  - apply (proj1 (proj2 (windowing_never_divides_by_zero
                           window_presets 0 [[5; 5]; [5; 5]]%Q))
             (Preset "Auto" None None) 5%Q 5%Q); reflexivity.
  - apply (proj2 (proj2 (windowing_never_divides_by_zero
                           [Preset "Flat" (Some 0) (Some 40)] 0 [[1; 2]]%Q))
             (Preset "Flat" (Some 0) (Some 40)) 0 40);
      try reflexivity.
    unfold upper_bound, lower_bound, Qle. cbn. lia.
Defined.

(** *** Quantisation *)

Lemma block_index_mono (a b : Z) : a <= b -> block_index a <= block_index b.
Proof.
  intros Hab. unfold block_index, clipZ.
  pose proof (Z.div_le_mono a b 32 ltac:(lia) Hab). lia.
Qed.

Lemma grid_map_Forall2_in {A B} (P : A -> Prop) (R : A -> B -> Prop)
    (f : A -> B) (g : list (list A)) :
  Forall (Forall P) g -> (forall x, P x -> R x (f x)) ->
  Forall2 (Forall2 R) g (grid_map f g).
Proof.
  intros Hg HR. unfold grid_map.
  induction Hg as [|row g Hrow _ IH]; cbn; constructor; [|exact IH].
  induction Hrow as [|x row Hx _ IHr]; cbn; constructor;
    [now apply HR | exact IHr].
Qed.

Lemma grid_map_lookup {A B} (f : A -> B) (g : list (list A)) (r c : nat) :
  grid_map f g !! r ≫= (.!! c) = f <$> (g !! r ≫= (.!! c)).
Proof.
  unfold grid_map. revert r. induction g as [|row g IH]; intros r.
  - reflexivity.
  - destruct r as [|r]; [|apply IH]. cbn. clear IH.
    revert c. induction row as [|x row IHr]; intros c; [reflexivity|].
    destruct c as [|c]; [reflexivity|apply IHr].
Qed.

(** C8: the quantize step, [(resized_array // 32).clip(0, 7)], maps every
    intensity of a 0..255 image to its quotient by 32 clamped to the top
    level 7, which is one of the 8 levels 0..7, position by position,
    and the mapping is monotonic: of two samples of the image, the one
    with the smaller intensity never gets the higher level. *)
Theorem quantize_levels_monotone (resized_array : Image8) :
  Forall (Forall (fun i => 0 <= i <= 255)) resized_array ->
  Forall2 (Forall2 (fun i level =>
             level = Z.min 7 (i / 32) /\ 0 <= level <= 7))
    resized_array (block_indices resized_array) /\
  forall r1 c1 r2 c2 i1 i2,
    resized_array !! r1 ≫= (.!! c1) = Some i1 ->
    resized_array !! r2 ≫= (.!! c2) = Some i2 ->
    i1 < i2 ->
    exists level1 level2,
      block_indices resized_array !! r1 ≫= (.!! c1) = Some level1 /\
      block_indices resized_array !! r2 ≫= (.!! c2) = Some level2 /\
      level1 <= level2.
Proof.
  intros Hrange. unfold block_indices. split.
  - apply (grid_map_Forall2_in _ _ _ _ Hrange). intros i Hi.
    assert (Hq : 0 <= i / 32 <= 7).
    { split; [apply Z.div_pos; lia|].
      assert (i / 32 < 8) by (apply Z.div_lt_upper_bound; lia). lia. }
    unfold block_index, clipZ. lia.
  - intros r1 c1 r2 c2 i1 i2 H1 H2 Hlt.
    exists (block_index i1), (block_index i2).
    unfold Image8 in *. rewrite !grid_map_lookup, H1, H2.
    split; [reflexivity|]. split; [reflexivity|].
    apply block_index_mono. lia.
Qed.

Lemma quantize_levels_monotone_witness :
  Forall2 (Forall2 (fun i level =>
             level = Z.min 7 (i / 32) /\ 0 <= level <= 7))
    [[31; 224]; [128; 255]] (block_indices [[31; 224]; [128; 255]]) /\
  forall r1 c1 r2 c2 i1 i2,
    [[31; 224]; [128; 255]] !! r1 ≫= (.!! c1) = Some i1 ->
    [[31; 224]; [128; 255]] !! r2 ≫= (.!! c2) = Some i2 ->
    i1 < i2 ->
    exists level1 level2,
      block_indices [[31; 224]; [128; 255]] !! r1 ≫= (.!! c1) = Some level1 /\
      block_indices [[31; 224]; [128; 255]] !! r2 ≫= (.!! c2) = Some level2 /\
      level1 <= level2.
Proof.
  apply (quantize_levels_monotone [[31; 224]; [128; 255]]).
  repeat constructor; lia.
Defined.

Example block_indices_values :
  block_indices [[0; 31; 32; 127; 128]; [159; 160; 223; 224; 255]]
  = [[0; 0; 1; 3; 4]; [4; 5; 6; 7; 7]].
Proof. reflexivity. Qed.

Example block_index_values :
  map block_index [0; 31; 32; 127; 128; 159; 160; 223; 224; 255]
  = [0; 0; 1; 3; 4; 4; 5; 6; 7; 7].
Proof. reflexivity. Qed.

(** *** The glyph palette *)

(** C5: the palette is not ordered from empty to full. Intensity 128
    gets level 4, the full block, while the brighter intensities 160, 192
    and 255 get levels 5, 6 and 7, whose glyphs cover seven, six and five
    eighths of the cell: the fill grows up to level 4 and shrinks after
    it. *)
Theorem palette_fill_drops_after_full_block :
  block_glyph (block_index 128) = Some FullBlock /\
  block_glyph (block_index 160) = Some LeftSevenEighths /\
  block_glyph (block_index 192) = Some LeftThreeQuarters /\
  block_glyph (block_index 255) = Some LeftFiveEighths /\
  map fill_eighths blocks = [0; 2; 4; 6; 8; 7; 6; 5] /\
  fill_eighths LeftSevenEighths < fill_eighths FullBlock.
Proof. repeat split; reflexivity. Qed.

End RenderFacts.

(** * Properties of coercion, bulk mutation and the write transaction *)

Module DicomFacts.
Import Dicom.
Local Open Scope py_scope.

Section Facts.
Context {ext : Externals}.

(** *** Value coercion and rejected edits *)





(** *** Bulk mutation *)

Lemma set_elements_id (s : State) : set_elements (elements s) s = s.
Proof. now destruct s. Qed.

Lemma set_elements_twice (h h' : gmap loc DataElement) (s : State) :
  set_elements h (set_elements h' s) = set_elements h s.
Proof. reflexivity. Qed.

Lemma editable_after_alter (v : Value) (l l' : loc)
    (h : gmap loc DataElement) :
  is_editable_tag (alter (with_value v) l h !!! l')
  = is_editable_tag (h !!! l').
Proof.
  rewrite lookup_total_alter. case_decide as E; [|reflexivity].
  subst l'. rewrite lookup_total_alt.
  now destruct (h !! l).
Qed.

Lemma bulk_targets_after_alter (tag : Tag) (v : Value) (l : loc)
    (h : gmap loc DataElement) (ads : list (Path * Dataset)) :
  bulk_targets tag (alter (with_value v) l h) ads = bulk_targets tag h ads.
Proof.
  unfold bulk_targets. apply list_omap_ext.
  induction ads as [|r ads IH]; constructor; [|exact IH].
  destruct (ds_get tag r.2) as [l'|]; cbn; [|reflexivity].
  now rewrite editable_after_alter.
Qed.

Lemma elem_of_bulk_targets (tag : Tag) (h : gmap loc DataElement)
    (ads : list (Path * Dataset)) (l : loc) :
  l ∈ bulk_targets tag h ads <->
  exists p d, (p, d) ∈ ads /\ ds_get tag d = Some l /\
              is_editable_tag (h !!! l) = true.
Proof.
  unfold bulk_targets. rewrite list_elem_of_omap. split.
  - intros [[p d] [Hin Hf]]. exists p, d. cbn in Hf.
    destruct (ds_get tag d) as [l'|]; cbn in Hf; [|discriminate].
    destruct (is_editable_tag (h !!! l')) eqn:E; [|discriminate].
    injection Hf as ->. auto.
  - intros (p & d & Hin & Hget & Hed). exists (p, d). split; [exact Hin|].
    cbn. rewrite Hget. cbn. now rewrite Hed.
Qed.

(** Assigning [v] to a list of elements, one after the other. *)
Lemma lookup_assign_all (v : Value) (ls : list loc)
    (h : gmap loc DataElement) (l : loc) :
  foldl (fun h l => alter (with_value v) l h) h ls !! l
  = if decide (l ∈ ls) then with_value v <$> h !! l else h !! l.
Proof.
  revert h. induction ls as [|l0 ls IH]; intros h; cbn.
  - rewrite decide_False by apply not_elem_of_nil. reflexivity.
  - rewrite IH, lookup_alter.
    destruct (decide (l0 = l)) as [->|Hne].
    + rewrite (decide_True (P := l ∈ l :: ls)) by left.
      destruct (decide (l ∈ ls)); [|reflexivity]. now destruct (h !! l).
    + destruct (decide (l ∈ ls)) as [Hin|Hnin].
      * rewrite (decide_True (P := l ∈ l0 :: ls)) by now right. reflexivity.
      * rewrite (decide_False (P := l ∈ l0 :: ls)); [reflexivity|].
        intros Hc. apply elem_of_cons in Hc as [Hc|Hc]; [congruence|tauto].
Qed.

(** The loop of [bulk_update_tag] never raises and assigns exactly to the
    targets. *)
Lemma bulk_loop_run (tag : Tag) (v : Value) (ads : list (Path * Dataset)) :
  forall s,
    for_each ads (fun '(file_path, dataset) =>
      try_pass
        (match ds_get tag dataset with
         | Some l =>
             element <- deref l ;;
             if is_editable_tag element then assign_value l v
             else ret tt
         | None => ret tt
         end)) s
    = (Ok tt,
       set_elements
         (foldl (fun h l => alter (with_value v) l h) (elements s)
            (bulk_targets tag (elements s) ads)) s).
Proof.
  induction ads as [|[p d] ads IH]; intros s.
  - cbn. unfold ret. now rewrite set_elements_id.
  - cbn [for_each]. unfold bind at 1. unfold try_pass at 1. cbn [fst snd].
    unfold bulk_targets. cbn [omap list_omap]. fold (bulk_targets tag (elements s) ads).
    cbn [snd].
    destruct (ds_get tag d) as [l|] eqn:Hget; cbn [mbind option_bind].
    + unfold bind, deref, gets. cbn [fst snd].
      destruct (is_editable_tag (elements s !!! l)) eqn:Hed.
      * unfold assign_value, modify. cbn [snd]. rewrite IH. cbn [elements set_elements].
        rewrite bulk_targets_after_alter. reflexivity.
      * unfold ret. cbn [snd]. apply IH.
    + unfold ret. cbn [snd]. apply IH.
Qed.

Lemma bulk_update_tag_eq (tag : Tag) (v : Value) (vr : string) (s : State) :
  bulk_update_tag tag v vr s
  = let s1 :=
      set_elements
        (foldl (fun h l => alter (with_value v) l h) (elements s)
           (bulk_targets tag (elements s) (all_datasets s))) s in
    if bool_decide (1 < length (dicom_files s))%nat then
      match dicom_files s !! current_index s with
      | Some f =>
          (Ok VNone,
           match dict_get f (all_datasets s) with
           | Some d => set_dataset (Some d) s1
           | None => s1
           end)
      | None => (Raise IndexError, s1)
      end
    else (Ok VNone, s1).
Proof.
  unfold bulk_update_tag. unfold bind at 1. unfold gets at 1.
  unfold bind at 1. rewrite bulk_loop_run.
  unfold bind at 1. unfold gets at 1. cbn [dicom_files set_elements].
  unfold bind at 1.
  destruct (bool_decide (1 < length (dicom_files s))%nat); [|reflexivity].
  unfold bind at 1. unfold current_file.
  cbn [dicom_files current_index set_elements].
  destruct (dicom_files s !! current_index s) as [f|]; [|reflexivity].
  unfold bind, gets. cbn [all_datasets set_elements].
  now destruct (dict_get f (all_datasets s)).
Qed.

(** What [bulk_update_tag] leaves behind: the loop's assignments, the
    other attributes but [dataset] as they were, and [None] or the
    [IndexError] of [current_file] for the caller. *)
Lemma bulk_update_tag_run (tag : Tag) (v : Value) (vr : string) (s : State) :
  let r := bulk_update_tag tag v vr s in
  elements (snd r)
  = foldl (fun h l => alter (with_value v) l h) (elements s)
      (bulk_targets tag (elements s) (all_datasets s)) /\
  all_datasets (snd r) = all_datasets s /\
  dicom_files (snd r) = dicom_files s /\
  has_changes (snd r) = has_changes s /\
  disk (snd r) = disk s /\
  tag_map (snd r) = tag_map s /\
  (fst r = Ok VNone \/ fst r = Raise IndexError) /\
  ((current_index s < length (dicom_files s))%nat -> fst r = Ok VNone).
Proof.
  cbn zeta. rewrite bulk_update_tag_eq.
  destruct (bool_decide (1 < length (dicom_files s))%nat); [|cbn; auto 10].
  destruct (dicom_files s !! current_index s) as [f|] eqn:Hf.
  - destruct (dict_get f (all_datasets s)); cbn; auto 10.
  - cbn. repeat split; auto. intros Hlt.
    apply lookup_lt_is_Some_2 in Hlt. rewrite Hf in Hlt.
    now destruct Hlt.
Qed.

Lemma bulk_update_assigns_holder (tag : Tag) (v : Value) (vr : string)
    (s : State) (p : Path) (d : Dataset) (l : loc) (e : DataElement) :
  (p, d) ∈ all_datasets s ->
  ds_get tag d = Some l ->
  elements s !! l = Some e ->
  is_editable_tag e = true ->
  elements (snd (bulk_update_tag tag v vr s)) !! l = Some (with_value v e).
Proof.
  intros Hin Hget Hl Hed.
  destruct (bulk_update_tag_run tag v vr s) as [-> _].
  rewrite lookup_assign_all, decide_True, Hl; [reflexivity|].
  apply elem_of_bulk_targets. exists p, d.
  rewrite lookup_total_alt, Hl. auto.
Qed.



(** *** Tree population *)

Lemma preserves_ret {A} (I : State -> Prop) (a : A) : preserves I (ret a).
Proof. intros s Hs. exact Hs. Qed.

Lemma preserves_raise {A} (I : State -> Prop) (e : exn) :
  preserves I (raise (A := A) e).
Proof. intros s Hs. exact Hs. Qed.

Lemma preserves_gets {A} (I : State -> Prop) (f : State -> A) :
  preserves I (gets f).
Proof. intros s Hs. exact Hs. Qed.

Lemma preserves_bind {A B} (I : State -> Prop) (c : Py A) (k : A -> Py B) :
  preserves I c -> (forall a, preserves I (k a)) -> preserves I (bind c k).
Proof.
  intros Hc Hk s Hs. unfold bind.
  specialize (Hc s Hs). destruct (c s) as [[a|e] s']; cbn in *.
  - now apply Hk.
  - exact Hc.
Qed.

Lemma preserves_for_each {A} (I : State -> Prop) (l : list A)
    (body : A -> Py unit) :
  (forall x, preserves I (body x)) -> preserves I (for_each l body).
Proof.
  intros Hb. induction l as [|x l IH]; cbn.
  - apply preserves_ret.
  - apply preserves_bind; [apply Hb | intros _; exact IH].
Qed.





(** *** The write transaction *)

Lemma length_backup_path (f : Path) :
  String.length (backup_path f) = (String.length f + 4)%nat.
Proof.
  unfold backup_path. induction f as [|a f IH]; [reflexivity|].
  simpl. now rewrite IH.
Qed.

Lemma backup_path_ne (f : Path) : backup_path f <> f.
Proof.
  intros E. apply (f_equal String.length) in E.
  rewrite length_backup_path in E. lia.
Qed.

Lemma create_backup_eq (f : Path) (bf : list Path) (s : State) :
  create_backup f bf s
  = match disk s !! backup_path f with
    | Some _ => (Ok bf, s)
    | None =>
        match disk s !! f with
        | Some b =>
            (Ok (bf ++ [backup_path f]),
             set_disk (<[backup_path f := b]> (disk s)) s)
        | None => (Raise FileNotFoundError, s)
        end
    end.
Proof.
  unfold create_backup, bind, path_exists, gets, copy2. cbn.
  destruct (disk s !! backup_path f) as [b0|]; cbn; [reflexivity|].
  now destruct (disk s !! f).
Qed.

Lemma save_all_cons (f : Path) (d : Dataset) (rest : list (Path * Dataset))
    (bf : list Path) (s : State) :
  save_all ((f, d) :: rest) bf s
  = match create_backup f bf s with
    | (Ok bf1, sa) =>
        match save_as d f sa with
        | (Ok _, sb) => save_all rest bf1 sb
        | (Raise e, sb) => (Raise e, sb)
        end
    | (Raise e, sa) => (Raise e, sa)
    end.
Proof.
  cbn [save_all]. unfold bind.
  destruct (create_backup f bf s) as [[bf1|e] sa]; [|reflexivity].
  now destruct (save_as d f sa) as [[[]|e] sb].
Qed.

(** The backup step and the write change nothing but the disk. *)
Lemma create_backup_only_disk (f : Path) (bf : list Path) (s : State) :
  exists dk, snd (create_backup f bf s) = set_disk dk s.
Proof.
  rewrite create_backup_eq.
  destruct (disk s !! backup_path f); [exists (disk s); now destruct s|].
  destruct (disk s !! f); cbn; [eauto|exists (disk s); now destruct s].
Qed.

Lemma save_as_only_disk (d : Dataset) (f : Path) (s : State) :
  exists dk, snd (save_as d f s) = set_disk dk s.
Proof.
  unfold save_as. destruct (save_as_codec _ _ _); cbn; eauto.
Qed.

Lemma save_all_only_disk (items : list (Path * Dataset)) :
  forall bf s, exists dk, snd (save_all items bf s) = set_disk dk s.
Proof.
  induction items as [|[f d] rest IH]; intros bf s.
  - exists (disk s). now destruct s.
  - rewrite save_all_cons.
    destruct (create_backup_only_disk f bf s) as [d1 E1].
    destruct (create_backup f bf s) as [[bf1|e] sa]; cbn in E1; subst sa;
      [|cbn; eauto].
    destruct (save_as_only_disk d f (set_disk d1 s)) as [d2 E2].
    destruct (save_as d f (set_disk d1 s)) as [[[]|e] sb]; cbn in E2; subst sb;
      [|cbn; eauto].
    destruct (IH bf1 (set_disk d2 (set_disk d1 s))) as [d3 E3].
    exists d3. rewrite E3. reflexivity.
Qed.

(** The clean-up never raises; it deletes each listed backup that exists
    unless the system refuses. *)
Lemma cleanup_backup_files_eq (bf : list Path) (s : State) :
  cleanup_backup_files bf s
  = (Ok VNone,
     set_disk
       (foldl (fun dk p => if unlink_refused p then dk else delete p dk)
          (disk s) bf) s).
Proof.
  unfold cleanup_backup_files.
  enough (H : forall s,
    for_each bf (fun backup_path =>
      try_pass
        (ex <- path_exists backup_path ;;
         if ex then unlink backup_path else ret tt)) s
    = (Ok tt,
       set_disk
         (foldl (fun dk p => if unlink_refused p then dk else delete p dk)
            (disk s) bf) s)).
  { unfold bind at 1. now rewrite H. }
  clear s. induction bf as [|p bf IH]; intros s.
  - cbn. unfold ret. now destruct s.
  - cbn [for_each foldl]. unfold bind at 1, try_pass at 1.
    unfold bind, path_exists, gets, unlink. cbn [fst snd].
    destruct (disk s !! p) as [b|] eqn:Hp.
    + rewrite bool_decide_eq_true_2 by eauto.
      rewrite Hp. destruct (unlink_refused p); cbn [snd]; [apply IH|].
      rewrite IH. reflexivity.
    + rewrite bool_decide_eq_false_2 by (intros [? ?]; discriminate).
      unfold ret. cbn [snd]. rewrite IH.
      destruct (unlink_refused p); [reflexivity|].
      now rewrite (delete_id (disk s) p Hp).
Qed.

Lemma lookup_cleanup_other (bf : list Path) (q : Path) :
  forall dk : gmap Path Bytes,
    q ∉ bf ->
    foldl (fun dk p => if unlink_refused p then dk else delete p dk) dk bf !! q
    = dk !! q.
Proof.
  induction bf as [|p bf IH]; intros dk Hq; [reflexivity|].
  cbn. apply not_elem_of_cons in Hq as [Hne Hq]. rewrite IH by exact Hq.
  destruct (unlink_refused p); [reflexivity|]. now apply lookup_delete_ne.
Qed.

Lemma dom_cleanup (bf : list Path) :
  (forall p, p ∈ bf -> unlink_refused p = false) ->
  forall dk : gmap Path Bytes,
    dom (foldl (fun dk p => if unlink_refused p then dk else delete p dk) dk bf)
    = dom dk ∖ list_to_set bf.
Proof.
  intros Hok. induction bf as [|p bf IH]; intros dk; cbn.
  - now rewrite difference_empty_L.
  - rewrite IH by (intros q Hq; apply Hok; now right).
    rewrite (Hok p) by left.
    now rewrite dom_delete_L, difference_difference_l_L.
Qed.

(** *** The save as a loop over its targets *)

Lemma save_files_multi (s : State) :
  (1 < length (dicom_files s))%nat ->
  save_files s = save_all (all_datasets s) [] s.
Proof.
  intros Hm. unfold save_files. unfold bind at 1, gets at 1.
  rewrite (bool_decide_eq_true_2 _ Hm). reflexivity.
Qed.

Lemma save_files_single (s : State) :
  ~ (1 < length (dicom_files s))%nat ->
  save_files s
  = match dicom_files s !! current_index s with
    | None => (Raise IndexError, s)
    | Some f =>
        match dataset s with
        | Some d => save_all [(f, d)] [] s
        | None =>
            match create_backup f [] s with
            | (Ok _, sa) => (Raise AttributeError, sa)
            | (Raise e, sa) => (Raise e, sa)
            end
        end
    end.
Proof.
  intros Hm. unfold save_files. unfold bind at 1, gets at 1.
  rewrite (bool_decide_eq_false_2 _ Hm).
  unfold bind at 1, current_file.
  destruct (dicom_files s !! current_index s) as [f|]; [|reflexivity].
  unfold bind at 1.
  destruct (create_backup_only_disk f [] s) as [dk E].
  destruct (dataset s) as [d|] eqn:Hd.
  - rewrite save_all_cons.
    destruct (create_backup f [] s) as [[bf|e] sa]; cbn in E; subst sa;
      [|reflexivity].
    unfold bind at 1, gets at 1. cbn [dataset set_disk]. rewrite Hd.
    unfold bind at 1.
    now destruct (save_as d f (set_disk dk s)) as [[[]|e] sb].
  - destruct (create_backup f [] s) as [[bf|e] sa]; cbn in E; subst sa;
      [|reflexivity].
    unfold bind at 1, gets at 1. cbn [dataset set_disk]. now rewrite Hd.
Qed.

(** When the writes all succeed, or one of them raises, the save has run
    the loop over its targets. *)
Lemma save_files_as_loop (s : State) :
  (fst (save_files s) = Raise EncodeError \/
   exists bf, fst (save_files s) = Ok bf) ->
  exists items,
    save_files s = save_all items [] s /\
    (forall f d, (f, d) ∈ items <-> save_target s f d) /\
    (NoDup (all_datasets s).*1 -> NoDup items.*1).
Proof.
  intros Hr. unfold save_target.
  destruct (decide (1 < length (dicom_files s))%nat) as [Hm|Hm].
  - exists (all_datasets s). rewrite (bool_decide_eq_true_2 _ Hm).
    split; [now apply save_files_multi|]. split; [reflexivity|auto].
  - rewrite (bool_decide_eq_false_2 _ Hm).
    rewrite (save_files_single s Hm) in Hr |- *.
    destruct (dicom_files s !! current_index s) as [f|].
    + destruct (dataset s) as [d|].
      * exists [(f, d)]. split; [reflexivity|]. split.
        -- intros f' d'. rewrite list_elem_of_singleton.
           split; [intros [= -> ->]; auto | intros [[= ->] [= ->]]; auto].
        -- intros _. cbn. apply NoDup_singleton.
      * exfalso.
        rewrite create_backup_eq in Hr.
        destruct (disk s !! backup_path f); cbn in Hr.
        -- destruct Hr as [Hr|[bf Hr]]; discriminate.
        -- destruct (disk s !! f); cbn in Hr;
             destruct Hr as [Hr|[bf Hr]]; discriminate.
    + exfalso. destruct Hr as [Hr|[bf Hr]]; discriminate.
Qed.

(** A write that raises: the file it was writing, what it found there
    and what it left; the backup of that file is on disk. *)
Lemma save_all_encode_error (items : list (Path * Dataset)) :
  forall bf s,
    NoDup items.*1 ->
    (forall f, f ∈ items.*1 -> is_Some (disk s !! f)) ->
    fst (save_all items bf s) = Raise EncodeError ->
    exists f d rest,
      (f, d) ∈ items /\
      save_as_codec (elements s) d (disk s !! f) = inr rest /\
      disk (snd (save_all items bf s)) !! f = rest /\
      is_Some (disk (snd (save_all items bf s)) !! backup_path f).
Proof.
  induction items as [|[f0 d0] items IH]; intros bf s Hnd Hex Hr.
  - discriminate.
  - rewrite save_all_cons in Hr |- *.
    apply NoDup_cons in Hnd as [Hf0 Hnd].
    assert (Hbak : exists bf1 dk,
      create_backup f0 bf s = (Ok bf1, set_disk dk s) /\
      is_Some (dk !! backup_path f0) /\
      (forall f, is_Some (disk s !! f) -> dk !! f = disk s !! f)).
    { rewrite create_backup_eq in Hr |- *.
      destruct (disk s !! backup_path f0) as [b0|] eqn:Hb.
      - exists bf, (disk s). split; [now destruct s|]. split; [|auto].
        rewrite Hb. eauto.
      - destruct (disk s !! f0) as [b|] eqn:Hb0; [|discriminate].
        exists (bf ++ [backup_path f0]), (<[backup_path f0 := b]> (disk s)).
        split; [reflexivity|]. split.
        + rewrite lookup_insert_eq. eauto.
        + intros f Hf. apply lookup_insert_ne. intros <-.
          rewrite Hb in Hf. now destruct Hf. }
    destruct Hbak as (bf1 & dk & Ecb & Hbk & Hsame).
    rewrite Ecb in Hr |- *. unfold save_as in Hr |- *.
    cbn [elements disk set_disk] in Hr |- *.
    rewrite (Hsame f0) in Hr |- * by (apply Hex; left).
    destruct (save_as_codec (elements s) d0 (disk s !! f0))
      as [b|rest] eqn:Ecodec.
    + set (sb := set_disk (<[f0 := b]> dk) (set_disk dk s)) in *.
      destruct (IH bf1 sb Hnd) as (f & d & rest & Hin & Hc & Hleft & Hbackup).
      * intros f Hf. cbn. rewrite lookup_insert_ne.
        -- rewrite Hsame; apply Hex; now right.
        -- intros <-. contradiction.
      * exact Hr.
      * exists f, d, rest. split; [now right|]. split; [|auto].
        assert (Hfin : f ∈ items.*1).
        { apply list_elem_of_fmap. now exists (f, d). }
        cbn in Hc. rewrite lookup_insert_ne in Hc
          by (intros <-; contradiction).
        rewrite Hsame in Hc by (apply Hex; now right). exact Hc.
    + exists f0, d0, rest. split; [left|]. split; [exact Ecodec|].
      cbn. split.
      * rewrite lookup_partial_alter. now rewrite decide_True.
      * rewrite lookup_partial_alter, decide_False; [exact Hbk|].
        intros E. symmetry in E. now apply backup_path_ne in E.
Qed.

(** A loop that succeeds: the files on disk are those it started with
    and the backups it made, which were not there before. *)
Lemma save_all_success (items : list (Path * Dataset)) :
  forall bf s bf',
    (forall f, f ∈ items.*1 -> is_Some (disk s !! f)) ->
    fst (save_all items bf s) = Ok bf' ->
    exists made,
      bf' = bf ++ made /\
      dom (disk (snd (save_all items bf s)))
      = dom (disk s) ∪ list_to_set made /\
      (forall p, p ∈ made -> p ∉ dom (disk s)).
Proof.
  induction items as [|[f0 d0] items IH]; intros bf s bf' Hex Hr.
  - cbn in Hr |- *. injection Hr as <-. exists [].
    rewrite app_nil_r, list_to_set_nil, union_empty_r_L.
    split; [reflexivity|]. split; [reflexivity|]. intros p Hp.
    now apply not_elem_of_nil in Hp.
  - rewrite save_all_cons in Hr |- *.
    assert (Hbak : exists made0 dk,
      create_backup f0 bf s = (Ok (bf ++ made0), set_disk dk s) /\
      dom dk = dom (disk s) ∪ list_to_set made0 /\
      (forall p, p ∈ made0 -> p ∉ dom (disk s))).
    { rewrite create_backup_eq in Hr |- *.
      destruct (disk s !! backup_path f0) as [b0|] eqn:Hb.
      - exists [], (disk s). rewrite app_nil_r.
        split; [now destruct s|].
        rewrite list_to_set_nil, union_empty_r_L.
        split; [reflexivity|]. intros p Hp. now apply not_elem_of_nil in Hp.
      - destruct (disk s !! f0) as [b|] eqn:Hb0; [|discriminate].
        exists [backup_path f0], (<[backup_path f0 := b]> (disk s)).
        split; [reflexivity|]. split.
        + rewrite dom_insert_L, list_to_set_cons, list_to_set_nil.
          rewrite union_empty_r_L. apply union_comm_L.
        + intros p Hp. apply list_elem_of_singleton in Hp as ->.
          now apply not_elem_of_dom. }
    destruct Hbak as (made0 & dk & Ecb & Hdom & Hnew).
    rewrite Ecb in Hr |- *. unfold save_as in Hr |- *.
    cbn [elements disk set_disk] in Hr |- *.
    destruct (save_as_codec (elements s) d0 (dk !! f0)) as [b|rest];
      [|discriminate].
    set (sb := set_disk (<[f0 := b]> dk) (set_disk dk s)) in *.
    assert (Hf0 : f0 ∈ dom dk).
    { rewrite Hdom. apply elem_of_union_l, elem_of_dom. apply Hex. left. }
    assert (Hdomb : dom (disk sb) = dom dk).
    { cbn. rewrite dom_insert_L. apply subseteq_union_1_L.
      now apply singleton_subseteq_l. }
    destruct (IH (bf ++ made0) sb bf') as (made1 & -> & Hdom1 & Hnew1).
    + intros f Hf. apply elem_of_dom. rewrite Hdomb, Hdom.
      apply elem_of_union_l, elem_of_dom. apply Hex. now right.
    + exact Hr.
    + exists (made0 ++ made1). split; [now rewrite app_assoc|]. split.
      * rewrite Hdom1, Hdomb, Hdom, list_to_set_app_L.
        now rewrite union_assoc_L.
      * intros p Hp. apply elem_of_app in Hp as [Hp|Hp]; [now apply Hnew|].
        apply Hnew1 in Hp. rewrite Hdomb, Hdom in Hp.
        intros Hc. apply Hp. now apply elem_of_union_l.
Qed.

(** A file that exists and is not written by the loop keeps its bytes,
    and is not registered for deletion. *)
Lemma save_all_frame (items : list (Path * Dataset)) (q : Path) (b : Bytes) :
  forall bf s,
    disk s !! q = Some b -> q ∉ items.*1 -> q ∉ bf ->
    disk (snd (save_all items bf s)) !! q = Some b /\
    (forall bf', fst (save_all items bf s) = Ok bf' -> q ∉ bf').
Proof.
  induction items as [|[f0 d0] items IH]; intros bf s Hq Hni Hbf.
  - cbn. split; [exact Hq|]. now intros bf' [= <-].
  - rewrite save_all_cons. cbn in Hni.
    apply not_elem_of_cons in Hni as [Hne Hni].
    assert (Hbak : exists r dk,
      create_backup f0 bf s = (r, set_disk dk s) /\ dk !! q = Some b /\
      (forall bf1, r = Ok bf1 -> q ∉ bf1)).
    { rewrite create_backup_eq.
      destruct (disk s !! backup_path f0) as [b0|] eqn:Hb.
      - exists (Ok bf), (disk s). split; [now destruct s|].
        split; [exact Hq|]. now intros bf1 [= <-].
      - destruct (disk s !! f0) as [b1|].
        + exists (Ok (bf ++ [backup_path f0])),
                 (<[backup_path f0 := b1]> (disk s)).
          split; [reflexivity|].
          assert (Hbq : backup_path f0 <> q)
            by (intros E; rewrite E in Hb; congruence).
          split; [now rewrite lookup_insert_ne|].
          intros bf1 [= <-] Hin. apply elem_of_app in Hin as [Hin|Hin];
            [contradiction|]. apply list_elem_of_singleton in Hin. congruence.
        + exists (Raise FileNotFoundError), (disk s).
          split; [now destruct s|]. split; [exact Hq|]. discriminate. }
    destruct Hbak as (r & dk & -> & Hdk & Hr).
    destruct r as [bf1|e]; [|cbn; split; [exact Hdk|discriminate]].
    unfold save_as. cbn [elements disk set_disk].
    destruct (save_as_codec (elements s) d0 (dk !! f0)) as [b1|rest].
    + apply IH; [|exact Hni|now apply Hr].
      cbn. now rewrite lookup_insert_ne.
    + cbn. split; [|discriminate].
      rewrite lookup_partial_alter. now rewrite decide_False.
Qed.

Lemma save_files_frame (s : State) (q : Path) (b : Bytes) :
  disk s !! q = Some b ->
  (forall d, ~ save_target s q d) ->
  disk (snd (save_files s)) !! q = Some b /\
  (forall bf, fst (save_files s) = Ok bf -> q ∉ bf).
Proof.
  intros Hq Hnt. unfold save_target in Hnt.
  destruct (decide (1 < length (dicom_files s))%nat) as [Hm|Hm].
  - rewrite (bool_decide_eq_true_2 _ Hm) in Hnt.
    rewrite (save_files_multi s Hm).
    apply save_all_frame; [exact Hq| |apply not_elem_of_nil].
    intros Hin. apply list_elem_of_fmap in Hin as [[q' d] [-> Hin]].
    now apply (Hnt d).
  - rewrite (bool_decide_eq_false_2 _ Hm) in Hnt.
    rewrite (save_files_single s Hm).
    destruct (dicom_files s !! current_index s) as [f|];
      [|cbn; split; [exact Hq|discriminate]].
    destruct (dataset s) as [d|].
    + apply save_all_frame; [exact Hq| |apply not_elem_of_nil].
      cbn. intros Hin. apply list_elem_of_singleton in Hin as ->.
      now apply (Hnt d).
    + rewrite create_backup_eq.
      destruct (disk s !! backup_path f) eqn:Hb;
        [cbn; split; [exact Hq|discriminate]|].
      destruct (disk s !! f); cbn; (split; [|discriminate]); [|exact Hq].
      rewrite lookup_insert_ne; [exact Hq|].
      intros E. rewrite E in Hb. congruence.
Qed.

Lemma save_try_body_eq (s : State) :
  save_try_body s
  = match save_files s with
    | (Ok bf, s1) =>
        (Ok tt,
         set_has_changes false
           (set_disk
              (foldl (fun dk p => if unlink_refused p then dk else delete p dk)
                 (disk s1) bf) s1))
    | (Raise e, s1) => (Raise e, s1)
    end.
Proof.
  unfold save_try_body. unfold bind at 1.
  destruct (save_files s) as [[bf|e] s1]; [|reflexivity].
  unfold bind at 1. now rewrite cleanup_backup_files_eq.
Qed.

Lemma action_save_file_changed (s : State) :
  has_changes s = true ->
  action_save_file s = (Ok VNone, snd (save_try_body s)).
Proof.
  intros Hc. unfold action_save_file, bind, gets, try_pass. cbn.
  now rewrite Hc.
Qed.

Lemma action_save_file_clean (s : State) :
  has_changes s = false -> action_save_file s = (Ok VNone, s).
Proof.
  intros Hc. unfold action_save_file, bind, gets. cbn. now rewrite Hc.
Qed.

Lemma save_files_only_disk (s : State) :
  exists dk, snd (save_files s) = set_disk dk s.
Proof.
  destruct (decide (1 < length (dicom_files s))%nat) as [Hm|Hm].
  - rewrite (save_files_multi s Hm). apply save_all_only_disk.
  - rewrite (save_files_single s Hm).
    destruct (dicom_files s !! current_index s) as [f|];
      [|exists (disk s); now destruct s].
    destruct (dataset s) as [d|]; [apply save_all_only_disk|].
    destruct (create_backup_only_disk f [] s) as [dk E].
    exists dk. now destruct (create_backup f [] s) as [[bf|e] sa].
Qed.

(** C4: the backup step copies the original only when no backup is
    there. With a backup present the step changes nothing at all and
    registers nothing for deletion; with none, its whole effect is the
    new backup holding the bytes of the original (or [FileNotFoundError]
    and no change when the original is missing). Through a whole call of
    [action_save_file], failed or not, a backup that was there before
    keeps its bytes, as long as the backup is not itself one of the files
    being saved. *)
Theorem backup_step_never_overwrites
    (f : Path) (bf : list Path) (s : State) :
  (forall b, disk s !! backup_path f = Some b ->
     create_backup f bf s = (Ok bf, s)) /\
  (forall b, disk s !! backup_path f = None -> disk s !! f = Some b ->
     create_backup f bf s
     = (Ok (bf ++ [backup_path f]),
        set_disk (<[backup_path f := b]> (disk s)) s)) /\
  (disk s !! backup_path f = None -> disk s !! f = None ->
     create_backup f bf s = (Raise FileNotFoundError, s)) /\
  (forall b, disk s !! backup_path f = Some b ->
     (forall d, ~ save_target s (backup_path f) d) ->
     disk (snd (action_save_file s)) !! backup_path f = Some b).
Proof.
  rewrite create_backup_eq. split; [|split; [|split]].
  - now intros b ->.
  - now intros b -> ->.
  - now intros -> ->.
  - intros b Hb Hnt.
    destruct (has_changes s) eqn:Hc;
      [|now rewrite action_save_file_clean].
    rewrite (action_save_file_changed s Hc). cbn [snd].
    rewrite save_try_body_eq.
    destruct (save_files_frame s _ b Hb Hnt) as [Hkeep Hnot].
    destruct (save_files s) as [[bf'|e] s1]; cbn in *; [|exact Hkeep].
    rewrite lookup_cleanup_other; [exact Hkeep|]. now apply Hnot.
Qed.

(** C1, as the code has it: when a write raises during a save, the call
    still returns [None] as a successful call does, and [has_changes]
    stays set; for the file whose write raised, the backup is on disk
    after the call, and the file holds what the failed write left of the
    content it had before the save, so it is unchanged whenever the
    codec fails before touching the file. *)
Theorem failed_write_keeps_backup (s : State) :
  NoDup (all_datasets s).*1 ->
  (forall f d, save_target s f d -> is_Some (disk s !! f)) ->
  has_changes s = true ->
  fst (save_try_body s) = Raise EncodeError ->
  let r := action_save_file s in
  fst r = Ok VNone /\
  has_changes (snd r) = true /\
  exists f d rest,
    save_target s f d /\
    save_as_codec (elements s) d (disk s !! f) = inr rest /\
    is_Some (disk (snd r) !! backup_path f) /\
    disk (snd r) !! f = rest /\
    (rest = disk s !! f -> disk (snd r) !! f = disk s !! f).
Proof.
  intros Hnd Hex Hc Hr. cbn zeta.
  rewrite (action_save_file_changed s Hc). cbn [fst snd].
  split; [reflexivity|].
  rewrite save_try_body_eq in Hr |- *.
  destruct (save_files_only_disk s) as [dk Hdk].
  destruct (save_files s) as [[bf|e] s1] eqn:Esf; [discriminate|].
  cbn in Hr, Hdk |- *. injection Hr as ->. subst s1.
  split; [exact Hc|].
  destruct (save_files_as_loop s) as (items & Eloop & Htargets & Hnd').
  { left. now rewrite Esf. }
  rewrite Esf in Eloop.
  destruct (save_all_encode_error items [] s (Hnd' Hnd))
    as (f & d & rest & Hin & Hcodec & Hleft & Hbak).
  - intros f Hf. apply list_elem_of_fmap in Hf as [[f' d] [-> Hin]].
    apply (Hex f' d). now apply Htargets.
  - now rewrite <- Eloop.
  - rewrite <- Eloop in Hleft, Hbak. cbn in Hleft, Hbak.
    exists f, d, rest. split; [now apply Htargets|].
    split; [exact Hcodec|]. split; [exact Hbak|]. split; [exact Hleft|].
    intros <-. exact Hleft.
Qed.

(** C2, as the code has it: after a save that succeeds for the whole
    batch, [has_changes] is cleared and every backup the save itself made
    has been deleted, so the files on disk are those that were there
    before the save: a file of the batch has a [.bak] afterwards exactly
    when it had one before the save started. A backup that was already
    there is kept, not removed. (Every saved file is on disk beforehand
    and the system does not refuse a deletion.) *)
Theorem successful_save_removes_its_own_backups (s : State) :
  (forall f d, save_target s f d -> is_Some (disk s !! f)) ->
  (forall p, unlink_refused p = false) ->
  has_changes s = true ->
  fst (save_try_body s) = Ok tt ->
  let r := action_save_file s in
  fst r = Ok VNone /\
  has_changes (snd r) = false /\
  (forall p, is_Some (disk (snd r) !! p) <-> is_Some (disk s !! p)) /\
  (forall f d, save_target s f d ->
     (is_Some (disk (snd r) !! backup_path f)
      <-> is_Some (disk s !! backup_path f))).
Proof.
  intros Hex Hun Hc Hr. cbn zeta.
  rewrite (action_save_file_changed s Hc). cbn [fst snd].
  split; [reflexivity|].
  rewrite save_try_body_eq in Hr |- *.
  destruct (save_files s) as [[bf|e] s1] eqn:Esf; [|discriminate].
  cbn [snd has_changes set_has_changes disk set_disk].
  split; [reflexivity|].
  destruct (save_files_as_loop s) as (items & Eloop & Htargets & _).
  { right. rewrite Esf. eauto. }
  rewrite Esf in Eloop.
  destruct (save_all_success items [] s bf) as (made & -> & Hdom & Hnew).
  { intros f Hf. apply list_elem_of_fmap in Hf as [[f' d] [-> Hin]].
    apply (Hex f' d). now apply Htargets. }
  { now rewrite <- Eloop. }
  rewrite <- Eloop in Hdom. cbn in Hdom.
  assert (Hsame : forall p,
    is_Some (foldl (fun dk p => if unlink_refused p then dk else delete p dk)
               (disk s1) made !! p) <-> is_Some (disk s !! p)).
  { intros p. rewrite <- !elem_of_dom.
    rewrite dom_cleanup by (intros; apply Hun). rewrite Hdom.
    rewrite elem_of_difference, elem_of_union, elem_of_list_to_set.
    split; [intros [[?|?] ?]; tauto|].
    intros Hp. split; [now left|]. intros Hm. now apply (Hnew p). }
  split; [exact Hsame|]. intros f d _. apply Hsame.
Qed.

End Facts.
End DicomFacts.

(** * The properties at work on the worked examples *)

Module Worked.
Import Dicom Examples DicomFacts.
#[local] Existing Instance test_runtime.

(** The failing save of [failing_save]: the write of [scan.dcm] raises. *)
Lemma failed_write_keeps_backup_witness :
  let r := action_save_file failing_save in
  fst r = Ok VNone /\
  has_changes (snd r) = true /\
  exists f d rest,
    save_target failing_save f d /\
    save_as_codec (elements failing_save) d (disk failing_save !! f)
    = inr rest /\
    is_Some (disk (snd r) !! backup_path f) /\
    disk (snd r) !! f = rest /\
    (rest = disk failing_save !! f ->
     disk (snd r) !! f = disk failing_save !! f).
Proof.
  apply (failed_write_keeps_backup failing_save).
  - apply NoDup_nil_2.
  - intros f d [[= <-] _]. vm_compute. eauto.
  - reflexivity.
  - vm_compute. reflexivity.
Defined.

Example failing_save_disk :
  let s' := snd (action_save_file failing_save) in
  disk s' !! "scan.dcm" = Some old_bytes /\
  disk s' !! "scan.dcm.bak" = Some old_bytes /\
  has_changes s' = true.
Proof. vm_compute. auto. Qed.

(** In a batch the first failing write ends the save: the files before
    it are written and keep their backups, the failing file and its
    backup hold the old bytes, the files after it are not reached. *)
Example batch_stops_at_first_failure :
  let s' := snd (action_save_file batch_second_fails) in
  fst (save_try_body batch_second_fails) = Raise EncodeError /\
  disk s' !! "a.dcm" = Some [Byte.x2a] /\
  disk s' !! "a.dcm.bak" = Some old_bytes /\
  disk s' !! "b.dcm" = Some old_bytes /\
  disk s' !! "b.dcm.bak" = Some old_bytes /\
  disk s' !! "c.dcm" = Some old_bytes /\
  disk s' !! "c.dcm.bak" = None /\
  has_changes s' = true.
Proof. vm_compute. auto 10. Qed.

(** With the codec of the examples, which fails before it touches the
    file, the failing save hands its caller exactly what a successful
    save does, [None], and raises nothing. *)
Example failing_save_returns_none :
  fst (save_try_body failing_save) = Raise EncodeError /\
  fst (action_save_file failing_save) = fst (action_save_file clean_save) /\
  ~ reports_failure (fst (action_save_file failing_save)).
Proof.
  split; [vm_compute; reflexivity|]. split; [vm_compute; reflexivity|].
  intros H. apply H. vm_compute. reflexivity.
Qed.

Lemma successful_save_removes_its_own_backups_witness :
  let r := action_save_file clean_save in
  fst r = Ok VNone /\
  has_changes (snd r) = false /\
  (forall p, is_Some (disk (snd r) !! p) <-> is_Some (disk clean_save !! p)) /\
  (forall f d, save_target clean_save f d ->
     (is_Some (disk (snd r) !! backup_path f)
      <-> is_Some (disk clean_save !! backup_path f))).
Proof.
  apply (successful_save_removes_its_own_backups clean_save).
  - intros f d [[= <-] _]. vm_compute. eauto.
  - reflexivity.
  - reflexivity.
  - vm_compute. reflexivity.
Defined.

(** C2 as stated fails for a [.bak] that was there before the save: the
    save of [stale_backup] succeeds and clears [has_changes], and the
    old [scan.dcm.bak] is still on disk with its bytes. *)
Lemma stale_backup_outlives_successful_save :
  save_target stale_backup "scan.dcm" [(PatientName, 0%nat)] /\
  is_Some (disk stale_backup !! backup_path "scan.dcm") /\
  fst (save_try_body stale_backup) = Ok tt /\
  has_changes (snd (action_save_file stale_backup)) = false /\
  disk (snd (action_save_file stale_backup)) !! backup_path "scan.dcm"
  = Some stale_bytes.
Proof.
  split; [split; reflexivity|].
  split; [vm_compute; eauto|].
  split; [vm_compute; reflexivity|].
  split; vm_compute; reflexivity.
Qed.


(** On the three records, the two that hold the patient name get the new
    value and everything else keeps its value. *)
Example three_records_after_update :
  let s' := snd (bulk_update_tag PatientName (VStr "X") "PN" three_records) in
  map (fun l => elem_value <$> elements s' !! l) [0; 1; 2; 3; 4]%nat
  = [Some (VStr "X"); Some (VStr "CT"); Some (VStr "CT");
     Some (VStr "X"); Some (VStr "CT")] /\
  length (bulk_targets PatientName (elements three_records)
            (all_datasets three_records)) = 2%nat.
Proof. vm_compute. auto. Qed.


Lemma backup_step_never_overwrites_witness :
  create_backup "scan.dcm" [] stale_backup = (Ok [], stale_backup) /\
  create_backup "scan.dcm" [] clean_save
  = (Ok ([] ++ [backup_path "scan.dcm"]),
     set_disk (<[backup_path "scan.dcm" := old_bytes]> (disk clean_save))
       clean_save) /\
  disk (snd (action_save_file stale_backup)) !! backup_path "scan.dcm"
  = Some stale_bytes.
Proof.
  split; [|split].
  - apply (proj1 (backup_step_never_overwrites "scan.dcm" [] stale_backup)
             stale_bytes).
    vm_compute. reflexivity.
  - apply (proj1 (proj2 (backup_step_never_overwrites
                           "scan.dcm" [] clean_save)) old_bytes);
      vm_compute; reflexivity.
  - apply (proj2 (proj2 (proj2 (backup_step_never_overwrites
                                  "scan.dcm" [] stale_backup))) stale_bytes).
    + vm_compute. reflexivity.
    + intros d [Hf _]. vm_compute in Hf. discriminate.
Defined.


(** An accepted edit, for comparison. *)
Example accepted_edit :
  let s' := snd (handle_edit_result (Some 1%nat) (Some "12") editing_number) in
  elem_value <$> elements s' !! 0%nat = Some (VInt 12) /\
  has_changes s' = true.
Proof. vm_compute. auto. Qed.


(** With a single file loaded the same element is offered for editing. *)
Example single_file_offers_instance_number :
  tag_map (snd (populate_tree editing_number)) !! 3%nat
  = Some (TagInfo 0%nat InstanceNumber "Instance Number" "IS" []).
Proof. vm_compute. reflexivity. Qed.

(** Both slices end up with the same instance number, and the tree of the
    two loaded slices offers no entry for it. *)
Example two_slices_after_update :
  let s' := snd (bulk_update_tag InstanceNumber (VInt 9) "IS" two_slices) in
  map (fun l => elem_value <$> elements s' !! l) [0; 1]%nat
  = [Some (VInt 9); Some (VInt 9)] /\
  tag_map (snd (populate_tree two_slices)) = ∅.
Proof. vm_compute. auto. Qed.

(** C4 as stated fails for a backup that is itself one of the loaded
    files: [a.dcm.bak] is there before the save, the save succeeds, and
    afterwards [a.dcm.bak] holds the bytes written for its own dataset,
    not the bytes it held. The copy step left it alone; the write of
    the loaded file [a.dcm.bak] did not. *)
Lemma loaded_backup_is_overwritten :
  save_target backup_loaded "a.dcm" [(PatientName, 0%nat)] /\
  save_target backup_loaded (backup_path "a.dcm") [(PatientName, 1%nat)] /\
  disk backup_loaded !! backup_path "a.dcm" = Some stale_bytes /\
  create_backup "a.dcm" [] backup_loaded = (Ok [], backup_loaded) /\
  fst (save_try_body backup_loaded) = Ok tt /\
  disk (snd (action_save_file backup_loaded)) !! backup_path "a.dcm"
  = Some [Byte.x2a] /\
  disk (snd (action_save_file backup_loaded)) !! backup_path "a.dcm"
  <> disk backup_loaded !! backup_path "a.dcm".
Proof.
  split; [left|]. split; [right; left|].
  split; [vm_compute; reflexivity|].
  split; [vm_compute; reflexivity|].
  split; [vm_compute; reflexivity|].
  split; vm_compute; [reflexivity|discriminate].
Qed.

End Worked.

(** * A failing write that damages the file *)

Module WorkedTruncating.
Import Dicom Examples DicomFacts.
#[local] Existing Instance truncating_runtime.

(** C1 as stated fails on two of its parts. With a writer that empties
    the file before the encoding fails, the write of [scan.dcm] raises,
    the file that held [old_bytes] is empty afterwards (the old bytes
    are in the backup only), and the save still hands its caller what a
    successful save does, [None], and raises nothing. *)
Lemma failed_save_is_silent_and_may_empty_the_file :
  save_target failing_save "scan.dcm" [(PatientName, 0%nat)] /\
  fst (save_try_body failing_save) = Raise EncodeError /\
  disk failing_save !! "scan.dcm" = Some old_bytes /\
  disk (snd (action_save_file failing_save)) !! "scan.dcm" = Some [] /\
  disk (snd (action_save_file failing_save)) !! "scan.dcm"
  <> disk failing_save !! "scan.dcm" /\
  disk (snd (action_save_file failing_save)) !! backup_path "scan.dcm"
  = Some old_bytes /\
  fst (action_save_file failing_save) = fst (action_save_file clean_save) /\
  ~ reports_failure (fst (action_save_file failing_save)).
Proof.
  split; [split; reflexivity|].
  split; [vm_compute; reflexivity|].
  split; [vm_compute; reflexivity|].
  split; [vm_compute; reflexivity|].
  split; [vm_compute; discriminate|].
  split; [vm_compute; reflexivity|].
  split; [vm_compute; reflexivity|].
  intros H. apply H. vm_compute. reflexivity.
Qed.

End WorkedTruncating.

(** * Further properties: edits, consistency and the save *)

Module SessionFacts.
Import Dicom DicomFacts Session.
Local Open Scope py_scope.

Section Facts.
Context {ext : Externals}.

(** *** The save and the in-memory records *)

(** X1: a save changes nothing in memory but the dirty flag.
    [action_save_file] always returns [None]; whether the save succeeds
    or stops on an exception, the state afterwards differs from the
    state before at most in the disk and in [has_changes]: the loaded
    datasets, the element objects, the file list, the index and the
    tree are as they were. When nothing was changed it does nothing at
    all. *)
Theorem save_changes_only_disk_and_flag (s : State) :
  fst (action_save_file s) = Ok VNone /\
  (exists dk hc, snd (action_save_file s) = set_has_changes hc (set_disk dk s)) /\
  (has_changes s = false -> snd (action_save_file s) = s).
Proof.
  destruct (has_changes s) eqn:Hc.
  - rewrite (action_save_file_changed s Hc). cbn [fst snd].
    split; [reflexivity|]. split; [|discriminate].
    rewrite save_try_body_eq.
    destruct (save_files_only_disk s) as [dk Hdk].
    destruct (save_files s) as [[bf|e] s1]; cbn in Hdk |- *; subst s1.
    + eexists _, false. reflexivity.
    + exists dk, true. rewrite <- Hc. now destruct s.
  - rewrite (action_save_file_clean s Hc). cbn. split; [reflexivity|].
    split; [|reflexivity]. exists (disk s), false. rewrite <- Hc. now destruct s.
Qed.

Lemma backup_path_inj (f1 f2 : Path) :
  backup_path f1 = backup_path f2 -> f1 = f2.
Proof.
  revert f2. induction f1 as [|a f1 IH]; intros [|b f2] E.
  - reflexivity.
  - apply (f_equal String.length) in E.
    rewrite (length_backup_path (String b f2)) in E. simpl in E. lia.
  - apply (f_equal String.length) in E.
    rewrite (length_backup_path (String a f1)) in E. simpl in E. lia.
  - unfold backup_path in E. simpl in E. injection E as -> E.
    f_equal. now apply IH.
Qed.

Lemma create_backup_cases (f : Path) (bf : list Path) (s : State) :
  (exists b0, disk s !! backup_path f = Some b0 /\
              create_backup f bf s = (Ok bf, s)) \/
  (disk s !! backup_path f = None /\
   exists b, disk s !! f = Some b /\
     create_backup f bf s
     = (Ok (bf ++ [backup_path f]),
        set_disk (<[backup_path f := b]> (disk s)) s)) \/
  (disk s !! backup_path f = None /\ disk s !! f = None /\
   create_backup f bf s = (Raise FileNotFoundError, s)).
Proof.
  rewrite create_backup_eq.
  destruct (disk s !! backup_path f) as [b0|]; [left; eauto|].
  destruct (disk s !! f) as [b|]; [right; left; eauto|right; right; auto].
Qed.

(** A file that exists and is not written by the loop keeps its bytes
    until the loop ends or stops. *)
Lemma save_all_keeps (items : list (Path * Dataset)) (q : Path) (b : Bytes) :
  forall bf s,
    disk s !! q = Some b -> q ∉ items.*1 ->
    disk (snd (save_all items bf s)) !! q = Some b.
Proof.
  induction items as [|[f0 d0] items IH]; intros bf s Hq Hni; [exact Hq|].
  rewrite save_all_cons. cbn in Hni.
  apply not_elem_of_cons in Hni as [Hne Hni].
  destruct (create_backup_cases f0 bf s)
    as [(b0 & Hb & ->)|[(Hb & b0 & Hf0 & ->)|(Hb & Hf0 & ->)]];
    [| |exact Hq].
  - unfold save_as. destruct (save_as_codec _ _ _) as [b1|rest].
    + apply IH; [|exact Hni]. cbn. now rewrite lookup_insert_ne.
    + cbn. rewrite lookup_partial_alter. now rewrite decide_False.
  - assert (Hbq : backup_path f0 <> q)
      by (intros E; rewrite E in Hb; congruence).
    unfold save_as. cbn [elements disk set_disk].
    destruct (save_as_codec _ _ _) as [b1|rest].
    + apply IH; [|exact Hni]. cbn. now rewrite !lookup_insert_ne.
    + cbn. rewrite lookup_partial_alter, decide_False by auto.
      now rewrite lookup_insert_ne.
Qed.

(** A loop that succeeds leaves in every file the bytes the codec made
    of its dataset, and registers no saved file for deletion. *)
Lemma save_all_writes (items : list (Path * Dataset)) :
  forall bf s bf',
    NoDup items.*1 ->
    (forall f, f ∈ items.*1 -> is_Some (disk s !! f)) ->
    (forall f, f ∈ items.*1 -> f ∉ bf) ->
    fst (save_all items bf s) = Ok bf' ->
    forall f d, (f, d) ∈ items ->
      (f ∉ bf') /\
      exists b, save_as_codec (elements s) d (disk s !! f) = inl b /\
                disk (snd (save_all items bf s)) !! f = Some b.
Proof.
  induction items as [|[f0 d0] items IH];
    intros bf s bf' Hnd Hex Hbf Hr f d Hin.
  - now apply elem_of_nil in Hin.
  - rewrite save_all_cons in Hr |- *.
    apply NoDup_cons in Hnd as [Hf0 Hnd].
    assert (Hstep : exists bf1 dk,
      create_backup f0 bf s = (Ok bf1, set_disk dk s) /\
      (forall g, is_Some (disk s !! g) -> dk !! g = disk s !! g) /\
      (forall g, is_Some (disk s !! g) -> g ∉ bf -> g ∉ bf1)).
    { destruct (create_backup_cases f0 bf s)
        as [(b0 & Hb & E)|[(Hb & b0 & Hb0 & E)|(Hb & Hb0 & E)]];
        rewrite E in Hr |- *.
      - exists bf, (disk s). split; [now destruct s|]. auto.
      - exists (bf ++ [backup_path f0]), (<[backup_path f0 := b0]> (disk s)).
        split; [reflexivity|].
        assert (Hne : forall g, is_Some (disk s !! g) -> backup_path f0 <> g).
        { intros g Hg E'. rewrite <- E', Hb in Hg. now destruct Hg. }
        split.
        + intros g Hg. apply lookup_insert_ne. auto.
        + intros g Hg Hgb Hc. apply elem_of_app in Hc as [Hc|Hc]; [auto|].
          apply list_elem_of_singleton in Hc. now apply (Hne g Hg).
      - discriminate. }
    destruct Hstep as (bf1 & dk & Ecb & Hsame & Hbf1).
    rewrite Ecb in Hr |- *. unfold save_as in Hr |- *.
    cbn [elements disk set_disk] in Hr |- *.
    rewrite (Hsame f0) in Hr |- * by (apply Hex; left).
    destruct (save_as_codec (elements s) d0 (disk s !! f0))
      as [b1|rest] eqn:Ecodec; [|discriminate].
    set (sb := set_disk (<[f0 := b1]> dk) (set_disk dk s)) in *.
    assert (Hexb : forall g, g ∈ items.*1 -> is_Some (disk sb !! g)).
    { intros g Hg. cbn. rewrite lookup_insert_ne
        by (intros <-; contradiction).
      rewrite Hsame; apply Hex; now right. }
    assert (Hbfb : forall g, g ∈ items.*1 -> g ∉ bf1).
    { intros g Hg. apply Hbf1; [apply Hex|apply Hbf]; now right. }
    apply elem_of_cons in Hin as [[= -> ->]|Hin].
    + destruct (save_all_frame items f0 b1 bf1 sb) as [Hkeep Hnot].
      * cbn. apply lookup_insert_eq.
      * exact Hf0.
      * apply Hbf1; [apply Hex|apply Hbf]; left.
      * split; [now apply Hnot|]. exists b1. auto.
    + destruct (IH bf1 sb bf' Hnd Hexb Hbfb Hr f d Hin) as (Hnot & b & Hc & Hd).
      split; [exact Hnot|]. exists b. split; [|exact Hd].
      assert (Hfin : f ∈ items.*1).
      { apply list_elem_of_fmap. now exists (f, d). }
      cbn in Hc. rewrite lookup_insert_ne in Hc
        by (intros <-; contradiction).
      rewrite Hsame in Hc by (apply Hex; now right). exact Hc.
Qed.

(** The original bytes of a file that had no backup survive the loop,
    finished or stopped: in the file itself or in its backup. *)
Lemma save_all_no_loss (items : list (Path * Dataset)) :
  forall bf s,
    NoDup items.*1 ->
    (forall f, f ∈ items.*1 -> is_Some (disk s !! f)) ->
    forall f b, f ∈ items.*1 ->
      disk s !! f = Some b -> disk s !! backup_path f = None ->
      disk (snd (save_all items bf s)) !! f = Some b \/
      disk (snd (save_all items bf s)) !! backup_path f = Some b.
Proof.
  induction items as [|[f0 d0] items IH];
    intros bf s Hnd Hex f b Hin Hf Hbak.
  - now apply elem_of_nil in Hin.
  - rewrite save_all_cons. cbn in Hin.
    apply NoDup_cons in Hnd as [Hf0 Hnd].
    assert (Hrest : forall g, g ∈ items.*1 -> g <> f0)
      by (intros g Hg ->; contradiction).
    destruct (create_backup_cases f0 bf s)
      as [(b0 & Hb & ->)|[(Hb & b0 & Hb0 & ->)|(Hb & Hb0 & ->)]];
      [| |now left].
    + (* the backup of the first file is already there *)
      assert (Hne : f <> f0) by (intros ->; congruence).
      apply elem_of_cons in Hin as [?|Hin]; [contradiction|].
      assert (Hbne : backup_path f <> f0).
      { intros E. destruct (Hex f0) as [x Hx]; [left|]. congruence. }
      unfold save_as. destruct (save_as_codec _ _ _) as [b1|rest].
      * apply IH; [exact Hnd| |exact Hin| |].
        -- intros g Hg. cbn. rewrite lookup_insert_ne by (symmetry; auto).
           apply Hex. now right.
        -- cbn. now rewrite lookup_insert_ne.
        -- cbn. now rewrite lookup_insert_ne.
      * left. cbn. rewrite lookup_partial_alter. now rewrite decide_False.
    + (* the first file is backed up now *)
      assert (Hnew : forall g, is_Some (disk s !! g) -> backup_path f0 <> g).
      { intros g Hg E. rewrite <- E, Hb in Hg. now destruct Hg. }
      unfold save_as. cbn [elements disk set_disk].
      apply elem_of_cons in Hin as [->|Hin].
      * assert (b0 = b) as -> by congruence.
        right.
        destruct (save_as_codec _ _ _) as [b1|rest].
        -- apply save_all_keeps.
           ++ cbn. rewrite lookup_insert_ne by apply not_eq_sym, backup_path_ne.
              apply lookup_insert_eq.
           ++ intros Hc. apply (Hnew (backup_path f0)); [|reflexivity].
              apply Hex. now right.
        -- cbn. rewrite lookup_partial_alter.
           rewrite decide_False by apply not_eq_sym, backup_path_ne.
           apply lookup_insert_eq.
      * assert (Hne : f <> f0) by now apply Hrest.
        assert (Hfb : backup_path f0 <> f) by (apply Hnew; eauto).
        assert (Hbb : backup_path f0 <> backup_path f).
        { intros E. apply backup_path_inj in E. congruence. }
        assert (Hbne : backup_path f <> f0).
        { intros E. destruct (Hex f0) as [x Hx]; [left|]. congruence. }
        destruct (save_as_codec _ _ _) as [b1|rest].
        -- apply IH; [exact Hnd| |exact Hin| |].
           ++ intros g Hg. cbn.
              rewrite lookup_insert_ne by (symmetry; auto).
              rewrite lookup_insert_ne; [apply Hex; now right|].
              apply Hnew, Hex. now right.
           ++ cbn. now rewrite !lookup_insert_ne.
           ++ cbn. now rewrite !lookup_insert_ne.
        -- left. cbn. rewrite lookup_partial_alter, decide_False by auto.
           now rewrite lookup_insert_ne.
Qed.

(** Every target of the save is an item of the loop the save runs. *)
Lemma save_files_of_target (s : State) (f : Path) (d : Dataset) :
  save_target s f d ->
  exists items,
    save_files s = save_all items [] s /\ (f, d) ∈ items /\
    (forall f' d', (f', d') ∈ items -> save_target s f' d') /\
    (NoDup (all_datasets s).*1 -> NoDup items.*1).
Proof.
  unfold save_target.
  destruct (decide (1 < length (dicom_files s))%nat) as [Hm|Hm].
  - rewrite (bool_decide_eq_true_2 _ Hm). intros Hin.
    exists (all_datasets s). rewrite (save_files_multi s Hm). auto.
  - rewrite (bool_decide_eq_false_2 _ Hm). intros [Hf Hd].
    exists [(f, d)]. rewrite (save_files_single s Hm), Hf, Hd.
    split; [reflexivity|]. split; [left|]. split.
    + intros f' d' Hin. apply list_elem_of_singleton in Hin as [= -> ->]. auto.
    + intros _. apply NoDup_singleton.
Qed.

(** X2: after a save that succeeds, every saved file holds on disk the
    bytes the codec produced from its dataset and from what the file
    held before the save. *)
Theorem successful_save_writes_every_file (s : State) :
  NoDup (all_datasets s).*1 ->
  (forall f d, save_target s f d -> is_Some (disk s !! f)) ->
  has_changes s = true ->
  fst (save_try_body s) = Ok tt ->
  forall f d, save_target s f d ->
    exists b, save_as_codec (elements s) d (disk s !! f) = inl b /\
              disk (snd (action_save_file s)) !! f = Some b.
Proof.
  intros Hnd Hex Hc Hr f d Ht.
  rewrite (action_save_file_changed s Hc). cbn [snd].
  rewrite save_try_body_eq in Hr |- *.
  destruct (save_files_of_target s f d Ht) as (items & Eloop & Hin & Hts & Hnd').
  rewrite Eloop in Hr |- *.
  destruct (save_all items [] s) as [[bf|e] s1] eqn:Esa; [|discriminate].
  destruct (save_all_writes items [] s bf (Hnd' Hnd)) with (f := f) (d := d)
    as (Hnot & b & Hcodec & Hdisk).
  - intros g Hg. apply list_elem_of_fmap in Hg as [[g' d'] [-> Hg]].
    apply (Hex g' d'). now apply Hts.
  - intros g _. apply not_elem_of_nil.
  - now rewrite Esa.
  - exact Hin.
  - rewrite Esa in Hdisk. cbn in Hdisk |- *.
    exists b. split; [exact Hcodec|].
    now rewrite lookup_cleanup_other.
Qed.

(** X3: a save that stops on an exception loses no original: for every
    file of the batch that had no backup before the save, the bytes it
    held are afterwards still in the file or in its backup. *)
Theorem failed_save_loses_no_original (s : State) (e : exn) :
  NoDup (all_datasets s).*1 ->
  (forall f d, save_target s f d -> is_Some (disk s !! f)) ->
  has_changes s = true ->
  fst (save_try_body s) = Raise e ->
  forall f d b,
    save_target s f d ->
    disk s !! f = Some b -> disk s !! backup_path f = None ->
    disk (snd (action_save_file s)) !! f = Some b \/
    disk (snd (action_save_file s)) !! backup_path f = Some b.
Proof.
  intros Hnd Hex Hc Hr f d b Ht Hf Hbak.
  rewrite (action_save_file_changed s Hc). cbn [snd].
  rewrite save_try_body_eq in Hr |- *.
  destruct (save_files_of_target s f d Ht) as (items & Eloop & Hin & Hts & Hnd').
  rewrite Eloop in Hr |- *.
  pose proof (save_all_no_loss items [] s (Hnd' Hnd)) as Hloss.
  destruct (save_all items [] s) as [[bf|e'] s1] eqn:Esa; [discriminate|].
  cbn [snd] in Hloss |- *. apply Hloss; [|apply list_elem_of_fmap; now exists (f, d)|exact Hf|exact Hbak].
  intros g Hg. apply list_elem_of_fmap in Hg as [[g' d'] [-> Hg]].
  apply (Hex g' d'). now apply Hts.
Qed.

(** X4: the clean-up never raises; it leaves every path that is not in
    its list as it is, deletes the listed paths the system lets it
    delete, keeps those it is refused, and touches nothing but the
    disk. *)
Theorem cleanup_deletes_exactly_what_it_may (bf : list Path) (s : State) :
  fst (cleanup_backup_files bf s) = Ok VNone /\
  (exists dk, snd (cleanup_backup_files bf s) = set_disk dk s) /\
  (forall q, q ∉ bf ->
     disk (snd (cleanup_backup_files bf s)) !! q = disk s !! q) /\
  (forall q, q ∈ bf -> unlink_refused q = false ->
     disk (snd (cleanup_backup_files bf s)) !! q = None) /\
  (forall q, unlink_refused q = true ->
     disk (snd (cleanup_backup_files bf s)) !! q = disk s !! q).
Proof.
  rewrite cleanup_backup_files_eq. cbn [fst snd disk set_disk].
  split; [reflexivity|]. split; [eauto|].
  split; [intros q Hq; now apply lookup_cleanup_other|].
  split.
  - generalize (disk s). clear s.
    induction bf as [|p bf IH]; intros dk q Hq Hun.
    + now apply elem_of_nil in Hq.
    + cbn. destruct (decide (q ∈ bf)) as [Hin|Hnin]; [now apply IH|].
      apply elem_of_cons in Hq as [->|Hq]; [|contradiction].
      rewrite lookup_cleanup_other by exact Hnin.
      rewrite Hun. apply lookup_delete_eq.
  - generalize (disk s). clear s.
    induction bf as [|p bf IH]; intros dk q Hun; [reflexivity|].
    cbn. rewrite IH by exact Hun.
    destruct (unlink_refused p) eqn:Hp; [reflexivity|].
    apply lookup_delete_ne. intros ->. congruence.
Qed.

(** X5: saving again after a save that went through does nothing. Once
    a save has succeeded, or when there was nothing to save, a second
    [action_save_file] returns at once and leaves the whole state, the
    disk included, as the first one left it. *)
Theorem second_save_after_success_is_idle (s : State) :
  fst (save_try_body s) = Ok tt \/ has_changes s = false ->
  let s1 := snd (action_save_file s) in
  action_save_file s1 = (Ok VNone, s1).
Proof.
  intros H. cbn zeta. destruct (has_changes s) eqn:Hc.
  - destruct H as [H|H]; [|discriminate].
    rewrite (action_save_file_changed s Hc). cbn [snd].
    rewrite save_try_body_eq in H |- *.
    destruct (save_files s) as [[bf|e] s1]; [|discriminate].
    cbn [snd]. now apply action_save_file_clean.
  - rewrite (action_save_file_clean s Hc). cbn [snd].
    now apply action_save_file_clean.
Qed.

(** *** Tree population *)

Lemma same_records_refl (s : State) : same_records s s.
Proof. unfold same_records. auto 10. Qed.

Lemma new_node_same_records (s0 : State) :
  preserves (same_records s0) new_node.
Proof. intros s Hs. exact Hs. Qed.

Lemma add_element_to_tree_same_records (s0 : State) (depth : nat) :
  forall element path,
    preserves (same_records s0) (add_element_to_tree depth element path).
Proof.
  induction depth as [|depth IH]; intros element path;
    cbn [add_element_to_tree].
  - apply preserves_raise.
  - apply preserves_bind; [apply preserves_gets|]. intros e.
    destruct (bool_decide (elem_VR e = "SQ")).
    + apply preserves_bind; [apply new_node_same_records|]. intros _.
      destruct (elem_value e); try apply preserves_raise.
      apply preserves_for_each. intros [i item].
      apply preserves_bind; [apply new_node_same_records|]. intros _.
      apply preserves_for_each. intros [t sub]. apply IH.
    + apply preserves_bind; [apply new_node_same_records|]. intros n.
      apply preserves_bind; [apply preserves_gets|]. intros files.
      destruct (_ && _); [|apply preserves_ret].
      intros s Hs. exact Hs.
Qed.

Lemma populate_tree_same_records (s : State) :
  same_records s (snd (populate_tree s)).
Proof.
  unfold populate_tree. unfold bind at 1. unfold modify at 1.
  assert (H0 : same_records s (set_tag_map ∅ s))
    by (unfold same_records; cbn; auto 10).
  revert H0. generalize (set_tag_map ∅ s).
  apply preserves_bind; [apply preserves_gets|]. intros [[|[t l] d]|].
  - apply preserves_ret.
  - apply preserves_bind; [apply new_node_same_records|]. intros _.
    apply preserves_for_each. intros [t' l'].
    apply add_element_to_tree_same_records.
  - apply preserves_ret.
Qed.

Lemma new_node_entries_sound (h : gmap loc DataElement) :
  preserves (entries_sound h) new_node.
Proof. intros s Hs. exact Hs. Qed.

Lemma add_element_to_tree_entries_sound (h : gmap loc DataElement)
    (depth : nat) :
  forall element path,
    preserves (entries_sound h) (add_element_to_tree depth element path).
Proof.
  induction depth as [|depth IH]; intros element path;
    cbn [add_element_to_tree].
  - apply preserves_raise.
  - intros s Hs. destruct Hs as [Hh Hmap].
    revert s Hh Hmap. unfold bind at 1, deref, gets. cbn [fst snd].
    intros s Hh Hmap.
    destruct (bool_decide (elem_VR (elements s !!! element) = "SQ")) eqn:Hsq.
    + revert s Hh Hmap Hsq.
      enough (Hk : forall e,
        preserves (entries_sound h)
          (seq_node <- new_node ;;
           match elem_value e with
           | VSeq items =>
               for_each (enumerate items) (fun '(i, item) =>
                 item_node <- new_node ;;
                 for_each item (fun '(_, sub_elem) =>
                   add_element_to_tree depth sub_elem
                     (path ++ [PTag (elem_tag e); PIndex i])))
           | _ => raise TypeError
           end)).
      { intros s Hh Hmap _. apply Hk. now split. }
      intros e.
      apply preserves_bind; [apply new_node_entries_sound|]. intros _.
      destruct (elem_value e); try apply preserves_raise.
      apply preserves_for_each. intros [i item].
      apply preserves_bind; [apply new_node_entries_sound|]. intros _.
      apply preserves_for_each. intros [t sub]. apply IH.
    + apply bool_decide_eq_false in Hsq.
      unfold bind, new_node, gets. cbn.
      destruct (negb _ && is_editable_tag (elements s !!! element)
                && negb _) eqn:G; cbn; [|now split].
      split; [exact Hh|]. intros n ti. cbn.
      rewrite lookup_insert.
      match goal with
      | |- context [@decide ?P ?d] => destruct (@decide P d) as [_|_]
      end; [|apply Hmap].
      intros [= <-]. cbn. rewrite <- Hh.
      apply andb_true_iff in G as [G _].
      apply andb_true_iff in G as [_ G]. auto.
Qed.

Lemma populate_tree_entries_sound (s : State) :
  entries_sound (elements s) (snd (populate_tree s)).
Proof.
  unfold populate_tree. unfold bind at 1. unfold modify at 1.
  assert (H0 : entries_sound (elements s) (set_tag_map ∅ s)).
  { split; [reflexivity|]. intros n ti. cbn. now rewrite lookup_empty. }
  revert H0. generalize (elements s). intros h.
  generalize (set_tag_map ∅ s).
  apply preserves_bind; [apply preserves_gets|]. intros [[|[t l] d]|].
  - apply preserves_ret.
  - apply preserves_bind; [apply new_node_entries_sound|]. intros _.
    apply preserves_for_each. intros [t' l'].
    apply add_element_to_tree_entries_sound.
  - apply preserves_ret.
Qed.

(** X6: a refresh of the tree changes nothing but [tag_map] and the
    nodes handed out, and every entry it stores points at an element
    that passes [is_editable_tag], is no sequence, and has the tag, the
    VR and the name the entry records. *)
Theorem populate_tree_offers_only_editable_elements (s : State) :
  let s' := snd (populate_tree s) in
  same_records s s' /\
  forall n ti, tag_map s' !! n = Some ti ->
    let e := elements s !!! ti_element ti in
    is_editable_tag e = true /\ elem_VR e <> "SQ" /\
    ti_tag ti = elem_tag e /\ ti_vr ti = elem_VR e /\
    ti_name ti = elem_name e.
Proof.
  cbn zeta. split; [apply populate_tree_same_records|].
  apply (populate_tree_entries_sound s).
Qed.

(** *** Edit submission *)

(** The state an edit leaves once the cursor has an entry, the text
    differs from the shown value and the coercion succeeds. *)
Lemma handle_edit_result_attempt (cursor : option node) (new_value : string)
    (s : State) (ti : tag_info) (v : Value) :
  cursor ≫= (fun n => tag_map s !! n) = Some ti ->
  new_value <> py_str (elem_value (elements s !!! ti_element ti)) ->
  convert_value_for_vr new_value (ti_vr ti) = Ok v ->
  handle_edit_result cursor (Some new_value) s
  = (Ok VNone,
     if bool_decide (1 < length (dicom_files s))%nat then
       match bulk_update_tag (ti_tag ti) v (ti_vr ti) s with
       | (Ok _, s1) => snd (populate_tree (set_has_changes true s1))
       | (Raise _, s1) => s1
       end
     else
       snd (populate_tree
              (set_has_changes true
                 (set_elements
                    (alter (with_value v) (ti_element ti) (elements s)) s)))).
Proof.
  intros Hti Hne Hconv.
  unfold handle_edit_result. unfold bind at 1, gets at 1. unfold bind at 1.
  rewrite Hti. unfold bind at 1, deref at 1, gets at 1.
  rewrite (bool_decide_eq_true_2 _ Hne).
  unfold try_pass. cbn [fst snd]. f_equal.
  unfold bind at 1, lift at 1. rewrite Hconv.
  unfold bind at 1, gets at 1. unfold bind at 1.
  destruct (bool_decide (1 < length (dicom_files s))%nat) eqn:Hm.
  - unfold bind at 1.
    pose proof (bulk_update_tag_run (ti_tag ti) v (ti_vr ti) s) as Hrun.
    destruct (bulk_update_tag (ti_tag ti) v (ti_vr ti) s) as [[r|e] s1];
      [|reflexivity].
    unfold ret at 1. unfold bind at 1, modify at 1. reflexivity.
  - unfold assign_value at 1, modify at 1.
    unfold bind at 1, modify at 1. reflexivity.
Qed.

(** X7: [handle_edit_result] never raises, never touches the disk, the
    loaded files or the set of records, and never clears [has_changes].
    It leaves the whole state exactly as it was unless the cursor is on
    an entry of [tag_map], the submitted text differs from the string of
    the current value, and the text can be coerced for the entry's VR. *)
Theorem edit_changes_state_only_on_a_real_edit
    (cursor : option node) (new_value : option string) (s : State) :
  let r := handle_edit_result cursor new_value s in
  fst r = Ok VNone /\
  disk (snd r) = disk s /\
  all_datasets (snd r) = all_datasets s /\
  dicom_files (snd r) = dicom_files s /\
  (has_changes s = true -> has_changes (snd r) = true) /\
  (snd r = s \/
   exists text ti v,
     new_value = Some text /\
     cursor ≫= (fun n => tag_map s !! n) = Some ti /\
     text <> py_str (elem_value (elements s !!! ti_element ti)) /\
     convert_value_for_vr text (ti_vr ti) = Ok v).
Proof.
  cbn zeta.
  destruct new_value as [text|]; [|cbn; auto 10].
  destruct (cursor ≫= (fun n => tag_map s !! n)) as [ti|] eqn:Hti.
  2:{ unfold handle_edit_result, bind, gets. cbn. rewrite Hti. cbn. auto 10. }
  destruct (decide (text = py_str (elem_value (elements s !!! ti_element ti))))
    as [Heq|Hne].
  { unfold handle_edit_result, bind, gets, deref. cbn. rewrite Hti. cbn.
    rewrite bool_decide_eq_false_2 by auto. cbn. auto 10. }
  destruct (convert_value_for_vr text (ti_vr ti)) as [v|e] eqn:Hconv.
  2:{ unfold handle_edit_result, bind, gets, deref. cbn. rewrite Hti. cbn.
      rewrite (bool_decide_eq_true_2 _ Hne).
      unfold try_pass, bind, lift. cbn. rewrite Hconv. cbn. auto 10. }
  rewrite (handle_edit_result_attempt cursor text s ti v Hti Hne Hconv).
  cbn [fst snd]. split; [reflexivity|].
  assert (Hright : exists text' ti' v',
    Some text = Some text' /\
    Some ti = Some ti' /\
    text' <> py_str (elem_value (elements s !!! ti_element ti')) /\
    convert_value_for_vr text' (ti_vr ti') = Ok v') by eauto 10.
  destruct (bool_decide (1 < length (dicom_files s))%nat).
  - destruct (bulk_update_tag_run (ti_tag ti) v (ti_vr ti) s)
      as (_ & Hads & Hfiles & Hhc & Hdisk & _).
    destruct (bulk_update_tag (ti_tag ti) v (ti_vr ti) s) as [[r|e] s1];
      cbn [snd] in *.
    + destruct (populate_tree_same_records (set_has_changes true s1))
        as (Hf & _ & _ & Hh & Ha & _ & Hd).
      rewrite Hd, Ha, Hf, Hh. cbn. rewrite Hdisk, Hads, Hfiles. auto 10.
    + rewrite Hdisk, Hads, Hfiles, Hhc. auto 10.
  - match goal with
    | |- context [populate_tree ?s2] =>
        destruct (populate_tree_same_records s2)
          as (Hf & _ & _ & Hh & Ha & _ & Hd)
    end.
    rewrite Hd, Ha, Hf, Hh. cbn. auto 10.
Qed.



(** *** Bulk updates, one after the other *)

Lemma bulk_targets_after_assign_all (tag : Tag) (v : Value)
    (ads : list (Path * Dataset)) (ls : list loc) :
  forall h,
    bulk_targets tag (foldl (fun h l => alter (with_value v) l h) h ls) ads
    = bulk_targets tag h ads.
Proof.
  induction ls as [|l ls IH]; intros h; [reflexivity|].
  cbn. now rewrite IH, bulk_targets_after_alter.
Qed.

(** X10: of two bulk updates of the same tag the last one wins: the
    store after both is the store after the second alone; in particular
    repeating a bulk update changes nothing more. *)
Theorem bulk_update_last_write_wins
    (tag : Tag) (v1 v2 : Value) (vr1 vr2 : string) (s : State) :
  elements (snd (bulk_update_tag tag v2 vr2
                   (snd (bulk_update_tag tag v1 vr1 s))))
  = elements (snd (bulk_update_tag tag v2 vr2 s)).
Proof.
  destruct (bulk_update_tag_run tag v1 vr1 s) as (E1 & A1 & _).
  destruct (bulk_update_tag_run tag v2 vr2
              (snd (bulk_update_tag tag v1 vr1 s))) as (E2 & _).
  destruct (bulk_update_tag_run tag v2 vr2 s) as (E3 & _).
  rewrite E2, E3, A1, E1. rewrite bulk_targets_after_assign_all.
  apply map_eq. intros l. rewrite !lookup_assign_all.
  destruct (decide (l ∈ bulk_targets tag (elements s) (all_datasets s)));
    [|reflexivity].
  now destruct (elements s !! l).
Qed.

(** *** Consistency across files *)

Lemma elem_of_shown (tag : Tag) (s : State) (v : string) :
  v ∈ omap snd (get_tag_values_across_files tag s) <-> shown_value tag s v.
Proof.
  unfold get_tag_values_across_files, shown_value.
  rewrite list_elem_of_omap. split.
  - intros ([p o] & Hin & Ho). cbn in Ho. subst o.
    apply list_elem_of_fmap in Hin as ([p' d] & E & Hin).
    destruct (ds_get tag d) as [l|] eqn:Hget; [|discriminate].
    injection E as -> ->. eauto 10.
  - intros (p & d & l & Hin & Hget & ->).
    exists (p, Some (py_str (elem_value (elements s !!! l)))).
    split; [|reflexivity].
    apply list_elem_of_fmap. exists (p, d). now rewrite Hget.
Qed.

Lemma size_at_most_one (X : gset string) :
  (size X <= 1)%nat <-> forall x y, x ∈ X -> y ∈ X -> x = y.
Proof.
  split.
  - intros Hsz x y Hx Hy.
    destruct (size X) as [|[|n]] eqn:E; [| |lia].
    + apply size_empty_inv in E. now apply E in Hx.
    + apply size_1_elem_of in E as [z Hz].
      apply Hz in Hx. apply Hz in Hy.
      apply elem_of_singleton in Hx. apply elem_of_singleton in Hy.
      congruence.
  - intros Hall. destruct (set_choose_or_empty X) as [[x Hx]|HX].
    + assert (E : X ≡ {[x]}).
      { intros y. rewrite elem_of_singleton. split; [|now intros ->].
        intros Hy. now apply (Hall y x). }
      rewrite E, size_singleton. lia.
    + rewrite HX, size_empty. lia.
Qed.

Lemma head_elements_of_one (X : gset string) (v : string) :
  v ∈ X -> (forall x y, x ∈ X -> y ∈ X -> x = y) ->
  head (base.elements X) = Some v.
Proof.
  intros Hv Hall.
  assert (E : X = {[v]}).
  { apply leibniz_equiv. intros y. rewrite elem_of_singleton.
    split; [|now intros ->]. intros Hy. now apply (Hall y v). }
  rewrite E, elements_singleton. reflexivity.
Qed.

(** The report of the check with several files loaded. *)
Lemma consistency_check_cases (tag : Tag) (s : State) :
  (1 < length (dicom_files s))%nat ->
  let r := is_tag_consistent_across_files tag s in
  (fst r = true <->
   forall v1 v2, shown_value tag s v1 -> shown_value tag s v2 -> v1 = v2) /\
  (fst r = true -> forall v, shown_value tag s v -> snd r = Some v) /\
  ((forall v, ~ shown_value tag s v) -> r = (true, None)) /\
  (fst r = false -> exists msg, snd r = Some msg).
Proof.
  cbn zeta. unfold is_tag_consistent_across_files.
  intros Hm. rewrite bool_decide_eq_false_2 by lia. cbn zeta.
  set (X := (list_to_set (omap snd (get_tag_values_across_files tag s))
             : gset string)).
  assert (HX : forall v, v ∈ X <-> shown_value tag s v).
  { intros v. unfold X. rewrite elem_of_list_to_set. apply elem_of_shown. }
  assert (Hone : (size X <= 1)%nat <->
                 forall v1 v2, shown_value tag s v1 ->
                               shown_value tag s v2 -> v1 = v2).
  { rewrite size_at_most_one. split.
    - intros H v1 v2 H1 H2. apply H; now apply HX.
    - intros H x y Hx Hy. apply H; now apply HX. }
  destruct (decide (size X <= 1)%nat) as [Hsz|Hsz].
  - rewrite bool_decide_eq_true_2 by exact Hsz. cbn [fst snd].
    split; [split; [intros _; now apply Hone|reflexivity]|].
    split; [|split; [|discriminate]].
    + intros _ v Hv. apply head_elements_of_one; [now apply HX|].
      now apply size_at_most_one.
    + intros Hnone. f_equal.
      assert (E : X = ∅).
      { apply leibniz_equiv. intros v.
        split; [|intros H; now apply not_elem_of_empty in H].
        intros Hv. apply HX in Hv. now apply Hnone in Hv. }
      rewrite E, elements_empty. reflexivity.
  - rewrite bool_decide_eq_false_2 by exact Hsz. cbn [fst snd].
    split; [split; [discriminate|intros H; now apply Hone in H]|].
    split; [discriminate|]. split; [|eauto].
    intros Hnone. exfalso. apply Hsz. apply Hone.
    intros v1 v2 H1. now apply Hnone in H1.
Qed.

(** X11: with at most one file loaded a tag is always reported
    consistent, with no value. With several, it is reported consistent
    exactly when all the loaded files that hold the tag show the same
    string for it; the value reported is then that string, or none when
    no file holds the tag (files without the tag do not count); and an
    inconsistent tag comes with a message. *)
Theorem consistency_check_meaning (tag : Tag) (s : State) :
  let r := is_tag_consistent_across_files tag s in
  ((length (dicom_files s) <= 1)%nat -> r = (true, None)) /\
  ((1 < length (dicom_files s))%nat ->
   (fst r = true <->
    forall v1 v2, shown_value tag s v1 -> shown_value tag s v2 -> v1 = v2) /\
   (fst r = true -> forall v, shown_value tag s v -> snd r = Some v) /\
   ((forall v, ~ shown_value tag s v) -> r = (true, None)) /\
   (fst r = false -> exists msg, snd r = Some msg)).
Proof.
  cbn zeta. split.
  - intros Hle. unfold is_tag_consistent_across_files.
    now rewrite bool_decide_eq_true_2.
  - apply consistency_check_cases.
Qed.

(** X12: with several files loaded, once [bulk_update_tag] has run on a
    tag whose holders are all editable, every file that holds the tag
    shows the string of the new value, so the tag is reported
    consistent, with that string when some file holds the tag. *)
Theorem bulk_update_makes_tag_consistent
    (tag : Tag) (v : Value) (vr : string) (s : State) :
  (1 < length (dicom_files s))%nat ->
  (forall p d l, (p, d) ∈ all_datasets s -> ds_get tag d = Some l ->
     exists e, elements s !! l = Some e /\ is_editable_tag e = true) ->
  let s' := snd (bulk_update_tag tag v vr s) in
  (forall x, shown_value tag s' x -> x = py_str v) /\
  fst (is_tag_consistent_across_files tag s') = true /\
  ((exists p d l, (p, d) ∈ all_datasets s /\ ds_get tag d = Some l) ->
   is_tag_consistent_across_files tag s' = (true, Some (py_str v))).
Proof.
  intros Hm Hall. cbn zeta.
  destruct (bulk_update_tag_run tag v vr s) as (_ & Hads & Hfiles & _).
  set (s' := snd (bulk_update_tag tag v vr s)) in *.
  assert (Hshown : forall p d l,
    (p, d) ∈ all_datasets s -> ds_get tag d = Some l ->
    py_str (elem_value (elements s' !!! l)) = py_str v).
  { intros p d l Hin Hget.
    destruct (Hall p d l Hin Hget) as (e & He & Hed).
    pose proof (bulk_update_assigns_holder tag v vr s p d l e Hin Hget He Hed)
      as Hnew.
    fold s' in Hnew. now rewrite lookup_total_alt, Hnew. }
  assert (Hx : forall x, shown_value tag s' x -> x = py_str v).
  { intros x (p & d & l & Hin & Hget & ->). rewrite Hads in Hin. eauto. }
  assert (Hm' : (1 < length (dicom_files s'))%nat) by now rewrite Hfiles.
  destruct (consistency_check_cases tag s' Hm') as (Hiff & Hval & _).
  assert (Hc : fst (is_tag_consistent_across_files tag s') = true).
  { apply Hiff. intros v1 v2 H1 H2. rewrite (Hx v1 H1), (Hx v2 H2). reflexivity. }
  split; [exact Hx|]. split; [exact Hc|].
  intros (p & d & l & Hin & Hget).
  assert (Hs : shown_value tag s' (py_str v)).
  { exists p, d, l. rewrite Hads. split; [exact Hin|]. split; [exact Hget|].
    symmetry. eauto. }
  specialize (Hval Hc _ Hs).
  destruct (is_tag_consistent_across_files tag s') as [b o]. cbn in *.
  congruence.
Qed.

End Facts.

(** *** Loading and navigation *)

Section Navigation.
Context {ext : Externals} {ld : Loader}.

Lemma dict_get_app_Some {V} (k : Path) (v : V) (d d' : list (Path * V)) :
  dict_get k d = Some v -> dict_get k (d ++ d') = Some v.
Proof.
  induction d as [|[k' v'] d IH]; cbn; [discriminate|].
  destruct (decide (k' = k)); auto.
Qed.

Lemma dict_get_app_None {V} (k : Path) (d d' : list (Path * V)) :
  dict_get k (d ++ d') = None -> dict_get k d = None.
Proof.
  induction d as [|[k' v'] d IH]; cbn; [reflexivity|].
  destruct (decide (k' = k)); auto.
Qed.

Lemma for_each_ok {A} (l : list A) (body : A -> Py unit) :
  (forall x s, fst (body x s) = Ok tt) ->
  forall s, fst (for_each l body s) = Ok tt.
Proof.
  intros Hb. induction l as [|x l IH]; intros s; [reflexivity|].
  cbn. unfold bind. specialize (Hb x s).
  destruct (body x s) as [[[]|e] s1]; cbn in Hb; [apply IH|discriminate].
Qed.

Lemma preserves_for_each_in {A} (I : State -> Prop) (l : list A)
    (body : A -> Py unit) :
  (forall x, x ∈ l -> preserves I (body x)) -> preserves I (for_each l body).
Proof.
  induction l as [|x l IH]; intros Hb; cbn.
  - apply preserves_ret.
  - apply preserves_bind; [apply Hb; left|].
    intros _. apply IH. intros y Hy. apply Hb. now right.
Qed.

Lemma keeps_session_refl (s : State) : keeps_session s s.
Proof. unfold keeps_session. auto. Qed.

Lemma keeps_session_trans (s0 s1 s2 : State) :
  keeps_session s0 s1 -> keeps_session s1 s2 -> keeps_session s0 s2.
Proof.
  intros (F1 & H1 & D1 & E1) (F2 & H2 & D2 & E2). unfold keeps_session.
  rewrite F2, H2, D2. repeat split; auto.
Qed.

Lemma extends_cache_refl (files : list Path) (ads : list (Path * Dataset)) :
  extends_cache files ads ads.
Proof.
  exists []. rewrite app_nil_r. split; [reflexivity|].
  intros p d Hin. now apply elem_of_nil in Hin.
Qed.

Lemma load_one_eq (file_path : Path) (s : State) :
  (ads <- gets all_datasets ;;
   if bool_decide (is_Some (dict_get file_path ads)) then ret tt
   else
     try_pass
       (d <- dcmread file_path ;;
        modify (fun s =>
          set_all_datasets (all_datasets s ++ [(file_path, d)]) s))) s
  = if bool_decide (is_Some (dict_get file_path (all_datasets s)))
    then (Ok tt, s)
    else
      (Ok tt,
       match dcmread file_path s with
       | (Ok d, s1) =>
           set_all_datasets (all_datasets s1 ++ [(file_path, d)]) s1
       | (Raise _, s1) => s1
       end).
Proof.
  unfold bind at 1, gets at 1.
  destruct (bool_decide _); [reflexivity|].
  unfold try_pass, bind. cbn [snd].
  now destruct (dcmread file_path s) as [[d|e] s1].
Qed.

(** The invariant of [load_all_datasets], relative to the state [s0] it
    starts from. *)
Lemma load_one_keeps (s0 : State) (file_path : Path)
    `{!LoaderLaws ld} :
  file_path ∈ dicom_files s0 ->
  preserves
    (fun s => keeps_session s0 s /\ current_index s = current_index s0 /\
              dataset s = dataset s0 /\ tag_map s = tag_map s0 /\
              extends_cache (dicom_files s0) (all_datasets s0)
                (all_datasets s))
    (ads <- gets all_datasets ;;
     if bool_decide (is_Some (dict_get file_path ads)) then ret tt
     else
       try_pass
         (d <- dcmread file_path ;;
          modify (fun s =>
            set_all_datasets (all_datasets s ++ [(file_path, d)]) s))).
Proof.
  intros Hin s (Hk & Hi & Hd & Ht & Hc).
  rewrite load_one_eq.
  destruct (bool_decide (is_Some (dict_get file_path (all_datasets s))))
    eqn:Hcached;
    [exact (conj Hk (conj Hi (conj Hd (conj Ht Hc))))|].
  apply bool_decide_eq_false in Hcached. cbn [snd].
  destruct (dcmread_allocates file_path s) as (h & Eh & Hold).
  destruct (dcmread file_path s) as [[d|e] s1]; cbn [snd] in Eh; subst s1.
  - destruct Hk as (F & H & D & E).
    cbn. repeat split; auto.
    destruct Hc as (added & Eadd & Hadded). rewrite Eadd in Hcached |- *.
    exists (added ++ [(file_path, d)]). rewrite app_assoc.
    split; [reflexivity|]. intros p d' Hp.
    apply elem_of_app in Hp as [Hp|Hp]; [exact (Hadded _ _ Hp)|].
    apply list_elem_of_singleton in Hp as [= -> ->].
    split; [exact Hin|].
    apply (dict_get_app_None file_path (all_datasets s0) added).
    destruct (dict_get file_path (all_datasets s0 ++ added)) eqn:E';
      [|reflexivity].
    exfalso. apply Hcached. eauto.
  - destruct Hk as (F & H & D & E).
    cbn. repeat split; auto.
Qed.

Lemma load_all_datasets_run (s : State) `{!LoaderLaws ld} :
  fst (load_all_datasets s) = Ok tt /\
  keeps_session s (snd (load_all_datasets s)) /\
  current_index (snd (load_all_datasets s)) = current_index s /\
  dataset (snd (load_all_datasets s)) = dataset s /\
  tag_map (snd (load_all_datasets s)) = tag_map s /\
  extends_cache (dicom_files s) (all_datasets s)
    (all_datasets (snd (load_all_datasets s))).
Proof.
  unfold load_all_datasets. unfold bind at 1 3 4 5 6 7, gets at 1 3 4 5 6 7.
  split.
  - apply for_each_ok. intros x s1. unfold bind, gets.
    now destruct (bool_decide _).
  - apply (preserves_for_each_in
             (fun s1 => keeps_session s s1 /\
                        current_index s1 = current_index s /\
                        dataset s1 = dataset s /\ tag_map s1 = tag_map s /\
                        extends_cache (dicom_files s) (all_datasets s)
                          (all_datasets s1))).
    + intros x Hx. now apply load_one_keeps.
    + split; [apply keeps_session_refl|].
      split; [reflexivity|]. split; [reflexivity|]. split; [reflexivity|].
      apply extends_cache_refl.
Qed.

Lemma load_all_datasets_cached (s : State) :
  (forall f, f ∈ dicom_files s -> is_Some (dict_get f (all_datasets s))) ->
  load_all_datasets s = (Ok tt, s).
Proof.
  unfold load_all_datasets. unfold bind at 1, gets at 1.
  generalize (dicom_files s) as files.
  induction files as [|f files IH]; intros Hall; [reflexivity|].
  cbn [for_each]. unfold bind at 1. unfold bind at 1, gets at 1.
  rewrite bool_decide_eq_true_2 by (apply Hall; left).
  unfold ret at 1. apply IH. intros g Hg. apply Hall. now right.
Qed.

(** X13: [load_all_datasets] never raises and never reloads: every
    dataset already in the cache stays under its key, new entries are
    only added, at the end, for listed files that had none, and the
    files, the flag, the disk, the current dataset and every element
    object already in the store are left as they are. With every listed
    file cached it does nothing at all. The reader is taken to do no
    more than allocate element objects. *)
Theorem load_all_datasets_never_reloads (s : State) `{!LoaderLaws ld} :
  let s' := snd (load_all_datasets s) in
  fst (load_all_datasets s) = Ok tt /\
  keeps_session s s' /\
  dataset s' = dataset s /\
  extends_cache (dicom_files s) (all_datasets s) (all_datasets s') /\
  (forall p d, dict_get p (all_datasets s) = Some d ->
               dict_get p (all_datasets s') = Some d) /\
  ((forall f, f ∈ dicom_files s -> is_Some (dict_get f (all_datasets s))) ->
   s' = s).
Proof.
  cbn zeta.
  destruct (load_all_datasets_run s) as (Hok & Hk & _ & Hd & _ & Hc).
  split; [exact Hok|]. split; [exact Hk|]. split; [exact Hd|].
  split; [exact Hc|]. split.
  - intros p d Hp. destruct Hc as (added & -> & _).
    now apply dict_get_app_Some.
  - intros Hall. now rewrite load_all_datasets_cached.
Qed.

Lemma load_dicom_file_run (s : State) `{!LoaderLaws ld} :
  (exists r, fst (load_dicom_file s) = Ok r) /\
  keeps_session s (snd (load_dicom_file s)) /\
  current_index (snd (load_dicom_file s)) = current_index s.
Proof.
  unfold load_dicom_file, bind, current_file.
  destruct (dicom_files s !! current_index s) as [p|];
    [|cbn; split; [eauto|split; [apply keeps_session_refl|reflexivity]]].
  destruct (dcmread_allocates p s) as (h & Eh & Hold).
  destruct (dcmread p s) as [[d|e] s1]; cbn [snd] in Eh; subst s1.
  - unfold modify, gets.
    assert (Hk : keeps_session s (set_dataset (Some d) (set_elements h s)))
      by (unfold keeps_session; cbn; auto).
    destruct (bool_decide _).
    + destruct (load_all_datasets_run (set_dataset (Some d) (set_elements h s)))
        as (Hok & Hk' & Hi & _).
      destruct (load_all_datasets (set_dataset (Some d) (set_elements h s)))
        as [[[]|e] s2]; cbn in *; [|discriminate].
      split; [eauto|]. split; [|exact Hi].
      exact (keeps_session_trans _ _ _ Hk Hk').
    + cbn. split; [eauto|]. split; [exact Hk|reflexivity].
  - cbn. split; [eauto|]. split; [|reflexivity].
    unfold keeps_session; cbn; auto.
Qed.

Lemma switch_to_current_file_eq (s : State) :
  switch_to_current_file s
  = if bool_decide (1 < length (dicom_files s))%nat then
      match dicom_files s !! current_index s with
      | Some p =>
          match dict_get p (all_datasets s) with
          | Some d => (Ok None, set_dataset (Some d) s)
          | None => load_dicom_file s
          end
      | None => (Raise IndexError, s)
      end
    else load_dicom_file s.
Proof.
  unfold switch_to_current_file. unfold bind at 1, gets at 1.
  destruct (bool_decide _); [|reflexivity].
  unfold bind at 1, current_file.
  destruct (dicom_files s !! current_index s) as [p|]; [|reflexivity].
  unfold bind at 1, gets at 1.
  now destruct (dict_get p (all_datasets s)).
Qed.

Lemma switch_to_current_file_cached (s : State) (f : Path) (d : Dataset) :
  (1 < length (dicom_files s))%nat ->
  dicom_files s !! current_index s = Some f ->
  dict_get f (all_datasets s) = Some d ->
  switch_to_current_file s = (Ok None, set_dataset (Some d) s).
Proof.
  intros Hn Hf Hd. rewrite switch_to_current_file_eq.
  rewrite bool_decide_eq_true_2 by exact Hn. now rewrite Hf, Hd.
Qed.

Lemma switch_to_current_file_run (s : State) `{!LoaderLaws ld} :
  keeps_session s (snd (switch_to_current_file s)) /\
  current_index (snd (switch_to_current_file s)) = current_index s.
Proof.
  rewrite switch_to_current_file_eq.
  destruct (load_dicom_file_run s) as (_ & Hk & Hi).
  destruct (bool_decide (1 < length (dicom_files s))%nat); [|now split].
  destruct (dicom_files s !! current_index s) as [p|];
    [|split; [apply keeps_session_refl|reflexivity]].
  destruct (dict_get p (all_datasets s)) as [d|]; [|now split].
  split; [unfold keeps_session; cbn; auto|reflexivity].
Qed.

Lemma same_records_keeps_session (s0 s : State) :
  same_records s0 s -> keeps_session s0 s /\ current_index s = current_index s0.
Proof.
  intros (F & I & D & H & A & E & K). unfold keeps_session.
  rewrite E. auto 10.
Qed.

Lemma next_index_lt (i n : nat) : (0 < n)%nat -> (next_index i n < n)%nat.
Proof.
  intros Hn. unfold next_index.
  pose proof (Z.mod_pos_bound (Z.of_nat i + 1) (Z.of_nat n)). lia.
Qed.

Lemma prev_index_lt (i n : nat) : (0 < n)%nat -> (prev_index i n < n)%nat.
Proof.
  intros Hn. unfold prev_index.
  pose proof (Z.mod_pos_bound (Z.of_nat i - 1) (Z.of_nat n)). lia.
Qed.

Lemma prev_next_index (i n : nat) :
  (i < n)%nat -> prev_index (next_index i n) n = i.
Proof.
  intros Hi. unfold prev_index, next_index.
  pose proof (Z.mod_pos_bound (Z.of_nat i + 1) (Z.of_nat n)).
  rewrite Z2Nat.id by lia.
  rewrite Zminus_mod_idemp_l.
  replace (Z.of_nat i + 1 - 1) with (Z.of_nat i) by lia.
  rewrite Z.mod_small by lia. lia.
Qed.

Lemma next_prev_index (i n : nat) :
  (i < n)%nat -> next_index (prev_index i n) n = i.
Proof.
  intros Hi. unfold prev_index, next_index.
  pose proof (Z.mod_pos_bound (Z.of_nat i - 1) (Z.of_nat n)).
  rewrite Z2Nat.id by lia.
  rewrite Zplus_mod_idemp_l.
  replace (Z.of_nat i - 1 + 1) with (Z.of_nat i) by lia.
  rewrite Z.mod_small by lia. lia.
Qed.

(** One step of navigation to the index [j]: the common part of
    [action_next_file] and [action_prev_file]. *)
Lemma navigate_run (j : State -> nat) (s : State) `{!LoaderLaws ld} :
  let s' :=
    snd ((modify (fun s => set_current_index (j s) s) ;;
          switch_to_current_file ;; populate_tree ;; ret VNone) s) in
  keeps_session s s' /\ current_index s' = j s.
Proof.
  cbn zeta.
  assert (E : snd ((modify (fun s => set_current_index (j s) s) ;;
                    switch_to_current_file ;; populate_tree ;; ret VNone) s)
              = match switch_to_current_file (set_current_index (j s) s) with
                | (Ok _, s1) => snd (populate_tree s1)
                | (Raise _, s1) => s1
                end).
  { unfold bind, modify.
    destruct (switch_to_current_file _) as [[r|e] s1]; [|reflexivity].
    now destruct (populate_tree s1) as [[[]|e] s2]. }
  rewrite E. clear E.
  destruct (switch_to_current_file_run (set_current_index (j s) s))
    as (Hk & Hi).
  assert (Hk0 : keeps_session s (set_current_index (j s) s))
    by (unfold keeps_session; cbn; auto).
  destruct (switch_to_current_file (set_current_index (j s) s))
    as [[r'|e] s1]; cbn in Hk, Hi;
    [|split; [exact (keeps_session_trans _ _ _ Hk0 Hk)|exact Hi]].
  pose proof (populate_tree_same_records s1) as Hp.
  apply same_records_keeps_session in Hp as [Hk' Hi'].
  split; [|congruence].
  exact (keeps_session_trans _ _ _ Hk0 (keeps_session_trans _ _ _ Hk Hk')).
Qed.

Lemma action_next_file_eq (s : State) :
  action_next_file s
  = if bool_decide (1 < length (dicom_files s))%nat then
      (modify (fun s0 =>
         set_current_index
           (next_index (current_index s0) (length (dicom_files s))) s0) ;;
       switch_to_current_file ;; populate_tree ;; ret VNone) s
    else (Ok VNone, s).
Proof.
  unfold action_next_file. unfold bind at 1, gets at 1.
  now destruct (bool_decide _).
Qed.

Lemma action_prev_file_eq (s : State) :
  action_prev_file s
  = if bool_decide (1 < length (dicom_files s))%nat then
      (modify (fun s0 =>
         set_current_index
           (prev_index (current_index s0) (length (dicom_files s))) s0) ;;
       switch_to_current_file ;; populate_tree ;; ret VNone) s
    else (Ok VNone, s).
Proof.
  unfold action_prev_file. unfold bind at 1, gets at 1.
  now destruct (bool_decide _).
Qed.

(** X14: moving to the next or previous file never leaves the list. With
    one file or none the state is not touched. With several, the index
    becomes [(i + 1) % n] or [(i - 1) % n], which lies below [n]; the
    files, the dirty flag, the disk and every element object of the
    store are kept, and from an index inside the list each direction
    undoes the other. The reader is taken to do no more than allocate
    element objects. *)
Theorem navigation_wraps_and_keeps_session (s : State) `{!LoaderLaws ld} :
  let n := length (dicom_files s) in
  let s1 := snd (action_next_file s) in
  let s2 := snd (action_prev_file s) in
  ((n <= 1)%nat -> action_next_file s = (Ok VNone, s) /\
                   action_prev_file s = (Ok VNone, s)) /\
  ((1 < n)%nat ->
     current_index s1 = next_index (current_index s) n /\
     current_index s2 = prev_index (current_index s) n /\
     (current_index s1 < length (dicom_files s1))%nat /\
     (current_index s2 < length (dicom_files s2))%nat /\
     keeps_session s s1 /\ keeps_session s s2 /\
     ((current_index s < n)%nat ->
        current_index (snd (action_prev_file s1)) = current_index s /\
        current_index (snd (action_next_file s2)) = current_index s)).
Proof.
  cbn zeta. split.
  - intros Hn. rewrite action_next_file_eq, action_prev_file_eq.
    rewrite bool_decide_eq_false_2 by lia. auto.
  - intros Hn.
    assert (Hnext : forall s0, (1 < length (dicom_files s0))%nat ->
              keeps_session s0 (snd (action_next_file s0)) /\
              current_index (snd (action_next_file s0))
              = next_index (current_index s0) (length (dicom_files s0))).
    { intros s0 H0. rewrite action_next_file_eq.
      rewrite bool_decide_eq_true_2 by exact H0.
      exact (navigate_run
               (fun s => next_index (current_index s)
                           (length (dicom_files s0))) s0). }
    assert (Hprev : forall s0, (1 < length (dicom_files s0))%nat ->
              keeps_session s0 (snd (action_prev_file s0)) /\
              current_index (snd (action_prev_file s0))
              = prev_index (current_index s0) (length (dicom_files s0))).
    { intros s0 H0. rewrite action_prev_file_eq.
      rewrite bool_decide_eq_true_2 by exact H0.
      exact (navigate_run
               (fun s => prev_index (current_index s)
                           (length (dicom_files s0))) s0). }
    destruct (Hnext s Hn) as [Hk1 Hi1]. destruct (Hprev s Hn) as [Hk2 Hi2].
    pose proof Hk1 as (F1 & _). pose proof Hk2 as (F2 & _).
    split; [exact Hi1|]. split; [exact Hi2|].
    split; [rewrite Hi1, F1; apply next_index_lt; lia|].
    split; [rewrite Hi2, F2; apply prev_index_lt; lia|].
    split; [exact Hk1|]. split; [exact Hk2|].
    intros Hi. split.
    + destruct (Hprev (snd (action_next_file s))) as [_ E];
        [rewrite F1; exact Hn|].
      rewrite E, Hi1, F1. now apply prev_next_index.
    + destruct (Hnext (snd (action_prev_file s))) as [_ E];
        [rewrite F2; exact Hn|].
      rewrite E, Hi2, F2. now apply next_prev_index.
Qed.

(** X15: with several files and the file at the new index already in the
    cache, navigation reads nothing: the dataset shown is the cached
    object, so edits made to it are still there, and the cache, the
    element store, the disk and the dirty flag are exactly as before. *)
Theorem navigation_shows_the_cached_dataset (s : State) (f : Path)
    (d : Dataset) :
  let n := length (dicom_files s) in
  let s' := snd (action_next_file s) in
  (1 < n)%nat ->
  dicom_files s !! next_index (current_index s) n = Some f ->
  dict_get f (all_datasets s) = Some d ->
  dataset s' = Some d /\
  all_datasets s' = all_datasets s /\ elements s' = elements s /\
  disk s' = disk s /\ has_changes s' = has_changes s /\
  dicom_files s' = dicom_files s.
Proof.
  cbn zeta. intros Hn Hf Hd. rewrite action_next_file_eq.
  rewrite bool_decide_eq_true_2 by exact Hn.
  set (s1 := set_dataset (Some d)
               (set_current_index
                  (next_index (current_index s) (length (dicom_files s))) s)).
  assert (E : snd ((modify (fun s0 =>
                      set_current_index
                        (next_index (current_index s0)
                           (length (dicom_files s))) s0) ;;
                    switch_to_current_file ;; populate_tree ;; ret VNone) s)
              = snd (populate_tree s1)).
  { unfold bind at 1, modify at 1. unfold bind at 1.
    rewrite (switch_to_current_file_cached _ f d) by (cbn; assumption).
    unfold bind. fold s1. now destruct (populate_tree s1) as [[[]|e] s2]. }
  rewrite E.
  destruct (populate_tree_same_records s1) as (F & I & D & H & A & E' & K).
  rewrite F, D, H, A, E', K. subst s1. cbn. auto 10.
Qed.

End Navigation.
End SessionFacts.

(** * Properties of rescaling, presets and glyph lines *)

Module ViewerFacts.
Import Render RenderFacts Viewer.

Lemma Qmin_cases (a b : Q) :
  (Qmin a b = a /\ (a <= b)%Q) \/ (Qmin a b = b /\ (b <= a)%Q).
Proof.
  unfold Qmin, GenericMinMax.gmin.
  destruct (Qcompare a b) eqn:E.
  - left. split; [reflexivity|]. apply Qeq_alt in E. lra.
  - left. split; [reflexivity|]. apply Qlt_alt in E. lra.
  - right. split; [reflexivity|]. apply Qgt_alt in E. lra.
Qed.

Lemma Qmax_cases (a b : Q) :
  (Qmax a b = a /\ (b <= a)%Q) \/ (Qmax a b = b /\ (a <= b)%Q).
Proof.
  unfold Qmax, GenericMinMax.gmax.
  destruct (Qcompare a b) eqn:E.
  - left. split; [reflexivity|]. apply Qeq_alt in E. lra.
  - right. split; [reflexivity|]. apply Qlt_alt in E. lra.
  - left. split; [reflexivity|]. apply Qgt_alt in E. lra.
Qed.

Lemma fold_left_Qmin_spec (xs : list Q) (a : Q) :
  (fold_left Qmin xs a ∈ a :: xs) /\
  forall x, x ∈ a :: xs -> (fold_left Qmin xs a <= x)%Q.
Proof.
  revert a. induction xs as [|y xs IH]; intros a; cbn [fold_left].
  - split; [left|]. intros x Hx. apply list_elem_of_singleton in Hx as ->. apply Qle_refl.
  - destruct (IH (Qmin a y)) as [Hin Hle]. split.
    + apply elem_of_cons in Hin as [E|Hin]; [|right; now right].
      rewrite E. destruct (Qmin_cases a y) as [[-> _]|[-> _]];
        [left|right; left].
    + intros x Hx.
      assert (Hm : (fold_left Qmin xs (Qmin a y) <= Qmin a y)%Q)
        by (apply Hle; left).
      pose proof (Q.le_min_l a y). pose proof (Q.le_min_r a y).
      apply elem_of_cons in Hx as [->|Hx]; [lra|].
      apply elem_of_cons in Hx as [->|Hx]; [lra|apply Hle; now right].
Qed.

Lemma fold_left_Qmax_spec (xs : list Q) (a : Q) :
  (fold_left Qmax xs a ∈ a :: xs) /\
  forall x, x ∈ a :: xs -> (x <= fold_left Qmax xs a)%Q.
Proof.
  revert a. induction xs as [|y xs IH]; intros a; cbn [fold_left].
  - split; [left|]. intros x Hx. apply list_elem_of_singleton in Hx as ->. apply Qle_refl.
  - destruct (IH (Qmax a y)) as [Hin Hle]. split.
    + apply elem_of_cons in Hin as [E|Hin]; [|right; now right].
      rewrite E. destruct (Qmax_cases a y) as [[-> _]|[-> _]];
        [left|right; left].
    + intros x Hx.
      assert (Hm : (Qmax a y <= fold_left Qmax xs (Qmax a y))%Q)
        by (apply Hle; left).
      pose proof (Q.le_max_l a y). pose proof (Q.le_max_r a y).
      apply elem_of_cons in Hx as [->|Hx]; [lra|].
      apply elem_of_cons in Hx as [->|Hx]; [lra|apply Hle; now right].
Qed.

Lemma grid_min_spec (g : Grid) (mn : Q) :
  grid_min g = Ok mn ->
  mn ∈ concat g /\ forall x, x ∈ concat g -> (mn <= x)%Q.
Proof.
  unfold grid_min. destruct (concat g) as [|a xs]; [discriminate|].
  intros [= <-]. apply fold_left_Qmin_spec.
Qed.

Lemma grid_max_spec (g : Grid) (mx : Q) :
  grid_max g = Ok mx ->
  mx ∈ concat g /\ forall x, x ∈ concat g -> (x <= mx)%Q.
Proof.
  unfold grid_max. destruct (concat g) as [|a xs]; [discriminate|].
  intros [= <-]. apply fold_left_Qmax_spec.
Qed.

Lemma grid_min_max_nonempty (g : Grid) :
  concat g <> [] -> exists mn mx, grid_min g = Ok mn /\ grid_max g = Ok mx.
Proof.
  intros Hne. unfold grid_min, grid_max.
  destruct (concat g); [contradiction|]. eauto.
Qed.

Lemma auto_scaled_range (mn mx x : Q) :
  (mn < mx)%Q -> (mn <= x)%Q -> (x <= mx)%Q ->
  (0 <= (x - mn) / (mx - mn) * 255 /\ (x - mn) / (mx - mn) * 255 <= 255)%Q.
Proof.
  intros Hlt Hlo Hhi.
  assert (Hd : (0 < mx - mn)%Q) by lra.
  assert (H0 : (0 <= (x - mn) / (mx - mn))%Q)
    by (apply Qle_shift_div_l; [exact Hd | lra]).
  assert (H1 : ((x - mn) / (mx - mn) <= 1)%Q)
    by (apply Qle_shift_div_r; [exact Hd | lra]).
  remember ((x - mn) / (mx - mn))%Q as r eqn:Er. clear Er. split; lra.
Qed.

Lemma grid_map_ext_in {A B} (f h : A -> B) (g : list (list A)) :
  (forall x, x ∈ concat g -> f x = h x) -> grid_map f g = grid_map h g.
Proof.
  unfold grid_map. induction g as [|row g IH]; intros Hf; [reflexivity|].
  cbn. f_equal.
  - apply map_ext_in. intros x Hx. apply Hf. cbn.
    apply elem_of_app. left. now apply list_elem_of_In.
  - apply IH. intros x Hx. apply Hf. cbn. apply elem_of_app. now right.
Qed.

Lemma grid_map_compose {A B C} (f : A -> B) (h : B -> C)
    (g : list (list A)) :
  grid_map h (grid_map f g) = grid_map (fun x => h (f x)) g.
Proof.
  unfold grid_map. rewrite map_map. apply map_ext. intros row.
  now rewrite map_map.
Qed.

Lemma grid_map_id {A} (g : list (list A)) : grid_map (fun x => x) g = g.
Proof.
  unfold grid_map. induction g as [|row g IH]; [reflexivity|].
  cbn. now rewrite map_id, IH.
Qed.

Lemma grid_map_empty {A B} (f h : A -> B) (g : list (list A)) :
  concat g = [] -> grid_map f g = grid_map h g.
Proof.
  intros E. apply grid_map_ext_in. intros x Hx. rewrite E in Hx.
  now apply elem_of_nil in Hx.
Qed.

(** The level the auto branch gives a sample. *)
Lemma window_auto_level (g : Grid) (mn mx : Q) :
  grid_min g = Ok mn -> grid_max g = Ok mx -> (mn < mx)%Q ->
  forall x, x ∈ concat g ->
    astype_uint8 ((x - mn) / (mx - mn) * 255)
    = Qfloor ((x - mn) / (mx - mn) * 255) /\
    0 <= Qfloor ((x - mn) / (mx - mn) * 255) <= 255.
Proof.
  intros Hmn Hmx Hlt x Hx.
  destruct (grid_min_spec g mn Hmn) as [_ Hlo].
  destruct (grid_max_spec g mx Hmx) as [_ Hhi].
  destruct (auto_scaled_range mn mx x Hlt (Hlo x Hx) (Hhi x Hx)) as [H0 H1].
  now apply astype_uint8_in_range.
Qed.



Lemma window_auto_in_range (g : Grid) :
  concat g <> [] ->
  exists out,
    window_auto g = Ok out /\
    Forall2 (Forall2 (fun (_ : Q) (v : Z) => 0 <= v <= 255)) g out.
Proof.
  intros Hne.
  destruct (grid_min_max_nonempty g Hne) as (mn & mx & Hmn & Hmx).
  destruct (Qlt_le_dec mn mx) as [Hlt|Hle].
  - exists (grid_map (fun x => Z.max 0 (Z.min 255
              (astype_uint8 ((x - mn) / (mx - mn) * 255)%Q))) g).
    split.
    + rewrite (window_auto_stretch g mn mx Hmn Hmx Hlt). f_equal.
      apply grid_map_ext_in. intros x Hx.
      destruct (window_auto_level g mn mx Hmn Hmx Hlt x Hx) as [-> R]. lia.
    + apply grid_map_Forall2. intros x. lia.
  - exists (zeros_like g). split; [now apply (window_auto_flat g mn mx)|].
    apply grid_map_Forall2. intros x. lia.
Qed.

Lemma window_fixed_in_range (w c : Z) (g : Grid) :
  exists out,
    window_fixed w c g = Ok out /\
    Forall2 (Forall2 (fun (_ : Q) (v : Z) => 0 <= v <= 255)) g out.
Proof.
  destruct (Qlt_le_dec (lower_bound w c) (upper_bound w c)) as [Hlt|Hle].
  - eexists. split; [now apply window_fixed_value|].
    apply grid_map_Forall2. intros x.
    destruct (scaled_range _ _ x Hlt) as [H0 H1].
    destruct (astype_uint8_in_range _ H0 H1) as [-> R]. exact R.
  - exists (zeros_like g). split; [now apply window_fixed_degenerate|].
    apply grid_map_Forall2. intros x. lia.
Qed.

Lemma window_auto_empty (g : Grid) :
  concat g = [] -> window_auto g = Raise ValueError.
Proof. intros E. unfold window_auto, grid_min. now rewrite E. Qed.

Lemma window_auto_raises (g : Grid) (e : exn) :
  window_auto g = Raise e -> e = ValueError.
Proof.
  intros Hr. destruct (concat g) as [|x xs] eqn:Ec.
  - rewrite window_auto_empty in Hr by exact Ec. congruence.
  - destruct (window_auto_in_range g) as (out & E & _);
      [rewrite Ec; discriminate|].
    rewrite E in Hr. discriminate.
Qed.

(** X17: with the presets the application is built with, windowing an
    array that has at least one sample succeeds for each of the seven
    presets and gives an image of the input's shape with every
    intensity in 0..255. On an array without samples the Auto preset
    raises [ValueError], because the minimum is undefined, while every
    fixed preset still succeeds. Beyond the seventh preset the lookup
    raises [IndexError]. *)
Theorem builtin_presets_give_valid_images (i : nat) (g : Grid) :
  ((i < 7)%nat -> concat g <> [] \/ i <> 0%nat ->
     exists out,
       apply_windowing window_presets i g = Ok out /\
       Forall2 (Forall2 (fun (_ : Q) (v : Z) => 0 <= v <= 255)) g out) /\
  (concat g = [] -> apply_windowing window_presets 0 g = Raise ValueError) /\
  ((7 <= i)%nat -> apply_windowing window_presets i g = Raise IndexError).
Proof.
  split; [|split].
  - intros Hi Hne.
    destruct i as [|i].
    { destruct Hne as [Hne|Hne]; [|contradiction].
      now apply window_auto_in_range. }
    do 6 (destruct i as [|i]; [apply window_fixed_in_range|]). lia.
  - apply window_auto_empty.
  - intros Hi. unfold apply_windowing.
    rewrite (lookup_ge_None_2 window_presets i); [reflexivity|].
    exact Hi.
Qed.

Lemma builtin_presets_give_valid_images_witness :
  (exists out,
     apply_windowing window_presets 2 [[-1000; -600; 150]]%Q = Ok out /\
     Forall2 (Forall2 (fun (_ : Q) (v : Z) => 0 <= v <= 255))
       [[-1000; -600; 150]]%Q out) /\
  apply_windowing window_presets 7 [[1]]%Q = Raise IndexError.
Proof.
  split.
  - apply (proj1 (builtin_presets_give_valid_images 2 [[-1000; -600; 150]]%Q));
      [lia | right; lia].
  - apply (proj2 (proj2 (builtin_presets_give_valid_images 7 [[1]]%Q))). lia.
Defined.

Lemma on_key_w (presets : list preset) (cp : nat) :
  presets <> [] ->
  on_key presets true "w" cp
  = Ok (Z.to_nat ((Z.of_nat cp + 1) mod Z.of_nat (length presets))).
Proof.
  intros Hne. unfold on_key, py_mod.
  rewrite (bool_decide_eq_true_2 ("w" ∈ ["w"; "s"])) by left.
  rewrite (bool_decide_eq_true_2 ("w" = "w")) by reflexivity.
  rewrite (bool_decide_eq_false_2 (Z.of_nat (length presets) = 0));
    [reflexivity|].
  destruct presets; [contradiction|]. cbn [length]. lia.
Qed.

Lemma on_key_s (presets : list preset) (cp : nat) :
  presets <> [] ->
  on_key presets true "s" cp
  = Ok (Z.to_nat ((Z.of_nat cp - 1) mod Z.of_nat (length presets))).
Proof.
  intros Hne. unfold on_key, py_mod.
  rewrite (bool_decide_eq_true_2 ("s" ∈ ["w"; "s"])) by (right; left).
  rewrite (bool_decide_eq_false_2 ("s" = "w")) by discriminate.
  rewrite (bool_decide_eq_false_2 (Z.of_nat (length presets) = 0));
    [reflexivity|].
  destruct presets; [contradiction|]. cbn [length]. lia.
Qed.

Lemma on_key_cases (presets : list preset) (show_image : bool) (key : string)
    (cp : nat) :
  on_key presets show_image key cp = Ok cp \/
  on_key presets show_image key cp = on_key presets true "w" cp \/
  on_key presets show_image key cp = on_key presets true "s" cp.
Proof.
  unfold on_key at 1 2 3.
  destruct show_image; [|now left]. cbn [andb].
  destruct (bool_decide (key ∈ ["w"; "s"])) eqn:E; [|now left].
  apply bool_decide_eq_true in E.
  apply elem_of_cons in E as [->|E]; [right; now left|].
  apply list_elem_of_singleton in E as ->. right. now right.
Qed.

Lemma on_key_in_range (presets : list preset) (show_image : bool)
    (key : string) (cp : nat) :
  presets <> [] -> (cp < length presets)%nat ->
  exists cp', on_key presets show_image key cp = Ok cp' /\
              (cp' < length presets)%nat.
Proof.
  intros Hne Hcp.
  assert (Hn : 0 < Z.of_nat (length presets))
    by (destruct presets; [contradiction|cbn [length]; lia]).
  destruct (on_key_cases presets show_image key cp) as [E|[E|E]]; rewrite E.
  - eauto.
  - rewrite on_key_w by exact Hne. eexists. split; [reflexivity|].
    pose proof (Z.mod_pos_bound (Z.of_nat cp + 1) _ Hn). lia.
  - rewrite on_key_s by exact Hne. eexists. split; [reflexivity|].
    pose proof (Z.mod_pos_bound (Z.of_nat cp - 1) _ Hn). lia.
Qed.

Lemma on_keys_in_range (presets : list preset) (events : list (bool * string)) :
  presets <> [] ->
  forall cp, (cp < length presets)%nat ->
  exists cp', on_keys presets events cp = Ok cp' /\
              (cp' < length presets)%nat.
Proof.
  intros Hne. induction events as [|[show key] events IH]; intros cp Hcp.
  - cbn. eauto.
  - cbn [on_keys].
    destruct (on_key_in_range presets show key cp Hne Hcp) as (cp1 & E & H1).
    rewrite E. cbn. now apply IH.
Qed.

Lemma on_keys_w_repeat (presets : list preset) (k : nat) :
  presets <> [] ->
  forall cp,
  on_keys presets (repeat (true, "w") k) cp
  = Ok (Z.to_nat ((Z.of_nat cp + Z.of_nat k) mod Z.of_nat (length presets))) \/
  (length presets <= cp)%nat /\ k = 0%nat.
Proof.
  intros Hne.
  assert (Hn : 0 < Z.of_nat (length presets))
    by (destruct presets; [contradiction|cbn [length]; lia]).
  induction k as [|k IH]; intros cp.
  - destruct (decide (cp < length presets)%nat) as [Hcp|Hcp];
      [left|right; split; [lia|reflexivity]].
    cbn. f_equal. rewrite Z.add_0_r, Z.mod_small by lia. lia.
  - left. cbn [repeat on_keys]. rewrite on_key_w by exact Hne. cbn [obind].
    pose proof (Z.mod_pos_bound (Z.of_nat cp + 1) _ Hn).
    destruct (IH (Z.to_nat ((Z.of_nat cp + 1) mod Z.of_nat (length presets))))
      as [E|[Hge _]]; [|lia].
    rewrite E. f_equal. f_equal. rewrite Z2Nat.id by lia.
    rewrite Zplus_mod_idemp_l. f_equal. lia.
Qed.

(** X18: the windowing keys keep the preset index valid. From an index
    inside the preset list, any run of key events ends at an index
    inside the list, so the following windowing never raises
    [IndexError]. [w] followed by [s], or [s] followed by [w], returns
    to the preset one started from, as many [w] presses as there are
    presets go once around, and a key that arrives while the tag tree is
    showing changes nothing. *)
Theorem preset_keys_stay_in_range
    (presets : list preset) (events : list (bool * string)) (cp : nat) :
  presets <> [] -> (cp < length presets)%nat ->
  (exists cp',
     on_keys presets events cp = Ok cp' /\ (cp' < length presets)%nat /\
     forall g, apply_windowing presets cp' g <> Raise IndexError) /\
  on_keys presets [(true, "w"); (true, "s")] cp = Ok cp /\
  on_keys presets [(true, "s"); (true, "w")] cp = Ok cp /\
  on_keys presets (repeat (true, "w") (length presets)) cp = Ok cp /\
  (forall key, on_key presets false key cp = Ok cp).
Proof.
  intros Hne Hcp.
  assert (Hn : 0 < Z.of_nat (length presets))
    by (destruct presets; [contradiction|cbn [length]; lia]).
  split; [|split; [|split; [|split]]].
  - destruct (on_keys_in_range presets events Hne cp Hcp) as (cp' & E & H').
    exists cp'. split; [exact E|]. split; [exact H'|].
    intros g. unfold apply_windowing.
    destruct (lookup_lt_is_Some_2 presets cp' H') as [p ->].
    destruct (is_auto p).
    + intros Hr. apply window_auto_raises in Hr. discriminate.
    + destruct (window_width p) as [w|]; [|discriminate].
      destruct (window_center p) as [c|]; [|discriminate].
      destruct (window_fixed_in_range w c g) as (out & -> & _). discriminate.
  - cbn [on_keys]. rewrite on_key_w by exact Hne. cbn [obind].
    rewrite on_key_s by exact Hne. cbn [obind]. f_equal.
    pose proof (Z.mod_pos_bound (Z.of_nat cp + 1) _ Hn).
    rewrite Z2Nat.id by lia. rewrite Zminus_mod_idemp_l.
    replace (Z.of_nat cp + 1 - 1) with (Z.of_nat cp) by lia.
    rewrite Z.mod_small by lia. lia.
  - cbn [on_keys]. rewrite on_key_s by exact Hne. cbn [obind].
    rewrite on_key_w by exact Hne. cbn [obind]. f_equal.
    pose proof (Z.mod_pos_bound (Z.of_nat cp - 1) _ Hn).
    rewrite Z2Nat.id by lia. rewrite Zplus_mod_idemp_l.
    replace (Z.of_nat cp - 1 + 1) with (Z.of_nat cp) by lia.
    rewrite Z.mod_small by lia. lia.
  - destruct (on_keys_w_repeat presets (length presets) Hne cp)
      as [E|[Hge _]]; [|lia].
    rewrite E. f_equal.
    rewrite <- (Z.mul_1_l (Z.of_nat (length presets))) at 1.
    rewrite Z.mod_add by lia. rewrite Z.mod_small by lia. lia.
  - intros key. reflexivity.
Qed.

Lemma preset_keys_stay_in_range_witness :
  (exists cp',
     on_keys window_presets [(true, "s"); (false, "w"); (true, "x")] 0 = Ok cp'
     /\ (cp' < length window_presets)%nat /\
     forall g, apply_windowing window_presets cp' g <> Raise IndexError) /\
  on_keys window_presets [(true, "w"); (true, "s")] 0 = Ok 0%nat /\
  on_keys window_presets [(true, "s"); (true, "w")] 0 = Ok 0%nat /\
  on_keys window_presets (repeat (true, "w") (length window_presets)) 0
  = Ok 0%nat /\
  (forall key, on_key window_presets false key 0 = Ok 0%nat).
Proof.
  apply (preset_keys_stay_in_range window_presets
           [(true, "s"); (false, "w"); (true, "x")] 0);
    [discriminate | cbn; lia].
Defined.

Lemma mapM_map {A B C} (f : B -> outcome C) (k : A -> B) (l : list A) :
  mapM f (map k l) = mapM (fun x => f (k x)) l.
Proof.
  induction l as [|x l IH]; [reflexivity|]. cbn. now rewrite IH.
Qed.

Lemma grid_mapM_grid_map {A B C} (f : B -> outcome C) (k : A -> B)
    (g : list (list A)) :
  grid_mapM f (grid_map k g) = grid_mapM (fun x => f (k x)) g.
Proof.
  unfold grid_mapM, grid_map. rewrite mapM_map.
  induction g as [|row g IH]; [reflexivity|].
  cbn. now rewrite mapM_map, IH.
Qed.

Lemma block_glyph_block_index (v : Z) :
  exists c, block_glyph (block_index v) = Some c.
Proof.
  unfold block_glyph. apply lookup_lt_is_Some_2.
  unfold block_index, clipZ, blocks. cbn [length]. lia.
Qed.

(** X19: building the lines of glyphs cannot fail. Whatever integers the
    resized image holds, every palette lookup is inside the palette, so
    no [IndexError] arises, and the result has one line per row and one
    glyph per sample. For a sample in 0..255 the clipping is idle: the
    glyph is entry [v // 32] of the palette. *)
Theorem unicode_lines_never_leave_the_palette (resized_array : Image8) :
  exists lines,
    unicode_lines resized_array = Ok lines /\
    Forall2 (Forall2 (fun (v : Z) (c : glyph) =>
      block_glyph (block_index v) = Some c /\
      (0 <= v <= 255 -> blocks !! Z.to_nat (v / 32) = Some c)))
      resized_array lines.
Proof.
  pose (pick := fun v : Z => default Space (block_glyph (block_index v))).
  exists (grid_map pick resized_array). split.
  - unfold unicode_lines, block_indices. rewrite grid_mapM_grid_map.
    apply grid_mapM_total. intros v. unfold pick.
    now destruct (block_glyph_block_index v) as [c ->].
  - apply grid_map_Forall2. intros v. unfold pick.
    destruct (block_glyph_block_index v) as [c E]. rewrite E. cbn.
    split; [reflexivity|]. intros Hv. rewrite <- E.
    unfold block_glyph, block_index, clipZ.
    assert (0 <= v / 32 <= 7).
    { split; [apply Z.div_pos; lia|].
      apply Z.lt_succ_r. apply Z.div_lt_upper_bound; lia. }
    f_equal. lia.
Qed.

Lemma apply_dicom_rescaling_eq (RescaleSlope RescaleIntercept : option attr)
    (g : Grid) :
  apply_dicom_rescaling RescaleSlope RescaleIntercept g
  = match getattr RescaleSlope 1, getattr RescaleIntercept 0 with
    | Number m, Number b => grid_map (fun x => x * m + b)%Q g
    | _, _ => g
    end.
Proof.
  unfold apply_dicom_rescaling.
  destruct (getattr RescaleSlope 1) as [m|]; [|reflexivity].
  destruct (getattr RescaleIntercept 0) as [b|]; [|reflexivity].
  cbn. apply grid_map_compose.
Qed.

(** The intensity a fixed window gives a sample, as one function of the
    sample. *)
Lemma window_fixed_level (w c : Z) :
  exists level : Q -> Z,
    (forall g, window_fixed w c g = Ok (grid_map level g)) /\
    (forall x, 0 <= level x <= 255) /\
    (forall x y, (x <= y)%Q -> level x <= level y).
Proof.
  destruct (Qlt_le_dec (lower_bound w c) (upper_bound w c)) as [Hlt|Hle].
  - set (lo := lower_bound w c) in *. set (hi := upper_bound w c) in *.
    exists (fun x => astype_uint8 ((clip lo hi x - lo) / (hi - lo) * 255)%Q).
    assert (Hv : forall x,
              astype_uint8 ((clip lo hi x - lo) / (hi - lo) * 255)
              = Qfloor ((clip lo hi x - lo) / (hi - lo) * 255) /\
              0 <= Qfloor ((clip lo hi x - lo) / (hi - lo) * 255) <= 255).
    { intros x. destruct (scaled_range lo hi x Hlt) as [H0 H1].
      now apply astype_uint8_in_range. }
    split; [|split].
    + intros g. now apply window_fixed_value.
    + intros x. destruct (Hv x) as [-> R]. exact R.
    + intros x y Hxy. destruct (Hv x) as [-> _]. destruct (Hv y) as [-> _].
      apply Qfloor_resp_le. apply scale_mono; [exact Hlt|].
      now apply clip_mono.
  - exists (fun _ => 0). split; [|split].
    + intros g. now apply window_fixed_degenerate.
    + intros x. lia.
    + intros x y _. lia.
Qed.

(** X20: under a fixed preset the displayed intensity is one
    order-preserving function of the stored pixel value. Whenever the
    rescale slope is not negative (or is absent, or is no number at
    all, in which case the samples are used as stored), the windowed
    image of the rescaled array is obtained by applying to every stored
    sample the same function into 0..255, and that function never gives
    a larger stored value a smaller intensity. *)
Theorem fixed_window_display_preserves_order
    (presets : list preset) (i : nat) (p : preset) (w c : Z)
    (RescaleSlope RescaleIntercept : option attr) (g : Grid) :
  presets !! i = Some p ->
  is_auto p = false ->
  window_width p = Some w ->
  window_center p = Some c ->
  match getattr RescaleSlope 1 with
  | Number m => (0 <= m)%Q
  | NotANumber => True
  end ->
  exists level : Q -> Z,
    apply_windowing presets i
      (apply_dicom_rescaling RescaleSlope RescaleIntercept g)
    = Ok (grid_map level g) /\
    (forall x, 0 <= level x <= 255) /\
    (forall x y, (x <= y)%Q -> level x <= level y).
Proof.
  intros Hp Hauto Hw Hc Hm.
  destruct (window_fixed_level w c) as (lv & Heq & Hr & Hmono).
  unfold apply_windowing. rewrite Hp, Hauto, Hw, Hc, Heq.
  rewrite apply_dicom_rescaling_eq.
  destruct (getattr RescaleSlope 1) as [m|]; [|now exists lv].
  destruct (getattr RescaleIntercept 0) as [b|]; [|now exists lv].
  exists (fun x => lv (x * m + b)%Q). split; [|split].
  - now rewrite grid_map_compose.
  - intros x. apply Hr.
  - intros x y Hxy. apply Hmono.
    assert (x * m <= y * m)%Q by (apply Qmult_le_compat_r; assumption).
    lra.
Qed.

Lemma fixed_window_display_preserves_order_witness :
  exists level : Q -> Z,
    apply_windowing window_presets 1
      (apply_dicom_rescaling (Some (Number 1)) (Some (Number (-1024)))
         [[0; 1064; 3000]]%Q)
    = Ok (grid_map level [[0; 1064; 3000]]%Q) /\
    (forall x, 0 <= level x <= 255) /\
    (forall x y, (x <= y)%Q -> level x <= level y).
Proof.
  apply (fixed_window_display_preserves_order window_presets 1
           (Preset "Soft Tissue" (Some 350) (Some 40)) 350 40
           (Some (Number 1)) (Some (Number (-1024))) [[0; 1064; 3000]]%Q);
    try reflexivity.
  simpl. lra.
Defined.

End ViewerFacts.

(** * Properties of file discovery *)

Module DiscoveryFacts.
Import Dicom Discovery.

Lemma insert_by_perm {A} (key : A -> Z) (x : A) (l : list A) :
  insert_by key x l ≡ₚ x :: l.
Proof.
  induction l as [|y l IH]; [reflexivity|]. cbn.
  destruct (key x <=? key y); [reflexivity|].
  rewrite IH. apply Permutation_swap.
Qed.

Lemma sorted_perm {A} (key : A -> Z) (l : list A) : sorted key l ≡ₚ l.
Proof.
  induction l as [|x l IH]; [reflexivity|]. cbn.
  now rewrite insert_by_perm, IH.
Qed.

Lemma insert_by_ascending {A} (key : A -> Z) (x : A) (l : list A) :
  ascending key l -> ascending key (insert_by key x l).
Proof.
  induction l as [|y l IH]; intros Hl.
  - cbn. auto.
  - cbn [insert_by]. destruct Hl as [Hy Hl].
    destruct (key x <=? key y) eqn:E.
    + apply Z.leb_le in E. cbn. repeat split; [|exact Hy|exact Hl].
      constructor; [exact E|].
      eapply Forall_impl; [exact Hy|]. cbn. intros z Hz. lia.
    + apply Z.leb_gt in E. cbn. split; [|now apply IH].
      rewrite insert_by_perm. constructor; [lia|exact Hy].
Qed.

Lemma sorted_ascending {A} (key : A -> Z) (l : list A) :
  ascending key (sorted key l).
Proof.
  induction l as [|x l IH]; [exact I|]. cbn.
  now apply insert_by_ascending.
Qed.

Lemma ascending_lookup {A} (key : A -> Z) (l : list A) :
  ascending key l ->
  forall i j a b, (i < j)%nat -> l !! i = Some a -> l !! j = Some b ->
                  key a <= key b.
Proof.
  induction l as [|x l IH]; intros Hl i j a b Hij Hi Hj; [discriminate|].
  destruct Hl as [Hx Hl].
  destruct j as [|j]; [lia|]. cbn in Hj.
  destruct i as [|i].
  - cbn in Hi. injection Hi as <-.
    rewrite Forall_forall in Hx. apply Hx.
    eapply list_elem_of_lookup_2. exact Hj.
  - cbn in Hi. apply (IH Hl i j); [lia|assumption..].
Qed.

(** Stability: the elements of any one key stay in their order. *)
Lemma insert_by_stable {A} (key : A -> Z) (k : Z) (x : A) (l : list A) :
  List.filter (fun y => key y =? k) (insert_by key x l)
  = List.filter (fun y => key y =? k) (x :: l).
Proof.
  induction l as [|y l IH]; [reflexivity|].
  cbn [insert_by]. destruct (key x <=? key y) eqn:E; [reflexivity|].
  apply Z.leb_gt in E. cbn [List.filter] in *. rewrite IH.
  destruct (key x =? k) eqn:Ex; [|reflexivity].
  apply Z.eqb_eq in Ex.
  destruct (key y =? k) eqn:Ey; [|reflexivity].
  apply Z.eqb_eq in Ey. lia.
Qed.

Lemma sorted_stable {A} (key : A -> Z) (k : Z) (l : list A) :
  List.filter (fun y => key y =? k) (sorted key l)
  = List.filter (fun y => key y =? k) l.
Proof.
  induction l as [|x l IH]; [reflexivity|].
  cbn [sorted foldr]. rewrite insert_by_stable. cbn [List.filter].
  fold (sorted key l). now rewrite IH.
Qed.

Section Facts.
Context {fs : FileSystem} {fa : FloatArith}.

Lemma find_dicom_files_cases (path : Path) :
  let found :=
    List.filter (fun f => is_file f && is_dicom_file f) (iterdir path) in
  (is_file path = true /\ is_dicom_file path = true /\
   find_dicom_files path = Returns [path]) \/
  (is_file path = false /\ is_dir path = true /\ found <> [] /\
   find_dicom_files path = Returns (sorted get_instance_number found)) \/
  (find_dicom_files path = Exits 1 /\
   (is_file path = true /\ is_dicom_file path = false \/
    is_file path = false /\ is_dir path = true /\ found = [] \/
    is_file path = false /\ is_dir path = false)).
Proof.
  cbn zeta. unfold find_dicom_files.
  destruct (is_file path).
  - destruct (is_dicom_file path); [left; auto|right; right; auto].
  - destruct (is_dir path); [|right; right; auto 10].
    destruct (decide (List.filter (fun f => is_file f && is_dicom_file f)
                        (iterdir path) = [])) as [E|E].
    + rewrite bool_decide_eq_true_2 by exact E. right; right; auto 10.
    + rewrite bool_decide_eq_false_2 by exact E. right; left; auto.
Qed.

Lemma found_files_are_dicom (path f : Path) :
  f ∈ List.filter (fun f => is_file f && is_dicom_file f) (iterdir path) ->
  f ∈ iterdir path /\ is_file f = true /\ is_dicom_file f = true.
Proof.
  intros Hf. apply list_elem_of_In, filter_In in Hf as [Hin Hb].
  apply andb_true_iff in Hb as [H1 H2].
  split; [now apply list_elem_of_In|auto].
Qed.

Lemma find_dicom_files_returns (path : Path) (l : list Path) :
  find_dicom_files path = Returns l ->
  l <> [] /\
  forall f, f ∈ l ->
    is_file f = true /\ is_dicom_file f = true /\
    (f = path \/ f ∈ iterdir path).
Proof.
  intros E.
  destruct (find_dicom_files_cases path)
    as [(F & D & E')|[(F & D & Hne & E')|(E' & _)]];
    rewrite E' in E; [| |discriminate]; injection E as <-.
  - split; [discriminate|].
    intros f Hf. apply list_elem_of_singleton in Hf as ->. auto.
  - split.
    + intros Hnil. apply Hne.
      apply Permutation_nil_r. rewrite <- Hnil. symmetry. apply sorted_perm.
    + intros f Hf. rewrite sorted_perm in Hf.
      apply found_files_are_dicom in Hf as (Hin & H1 & H2). auto.
Qed.

Lemma find_dicom_files_exit_code (path : Path) (code : Z) :
  find_dicom_files path = Exits code -> code = 1.
Proof.
  intros E.
  destruct (find_dicom_files_cases path)
    as [(_ & _ & E')|[(_ & _ & _ & E')|(E' & _)]];
    rewrite E' in E; congruence.
Qed.

(** X21: the search for files never hands back an empty list and never
    a file that does not read as DICOM. When [find_dicom_files]
    returns, the list has at least one entry, every entry is a regular
    file whose header can be read, and it is the given path itself or a
    direct entry of the given directory. Otherwise the program exits
    with status 1: for a file that is not DICOM, a directory without a
    DICOM file, or a path that is neither. *)
Theorem find_dicom_files_returns_only_dicom_files (path : Path) :
  (exists l,
     find_dicom_files path = Returns l /\ l <> [] /\
     forall f, f ∈ l ->
       is_file f = true /\ is_dicom_file f = true /\
       (f = path \/ f ∈ iterdir path)) \/
  (find_dicom_files path = Exits 1 /\
   (is_file path = true /\ is_dicom_file path = false \/
    is_file path = false /\ is_dir path = true /\
      (forall f, f ∈ iterdir path ->
         is_file f = false \/ is_dicom_file f = false) \/
    is_file path = false /\ is_dir path = false)).
Proof.
  destruct (find_dicom_files path) as [l|code] eqn:E.
  - left. exists l. split; [reflexivity|].
    now apply find_dicom_files_returns.
  - right. apply find_dicom_files_exit_code in E as Hc. subst code.
    split; [reflexivity|].
    destruct (find_dicom_files_cases path)
      as [(_ & _ & E')|[(_ & _ & _ & E')|(_ & Hwhy)]]; [congruence..|].
    destruct Hwhy as [H|[(F & D & Hnil)|H]]; [now left| |now right; right].
    right; left. split; [exact F|]. split; [exact D|].
    intros f Hf.
    destruct (is_file f) eqn:Ef; [|now left]. right.
    destruct (is_dicom_file f) eqn:Ed; [|reflexivity].
    exfalso.
    assert (Hin : In f (List.filter (fun f => is_file f && is_dicom_file f)
                          (iterdir path))).
    { apply filter_In. split; [now apply list_elem_of_In|].
      now rewrite Ef, Ed. }
    rewrite Hnil in Hin. exact Hin.
Qed.

(** The key of a file, by what its header holds. *)
Lemma get_instance_number_cases (a : Path) (ha : header) :
  read_header a = Some ha ->
  (forall n, InstanceNumber ha = Holds (Some n) ->
     get_instance_number a = n) /\
  (forall f q,
     InstanceNumber ha = Missing \/ InstanceNumber ha = IsNone ->
     SliceLocation ha = Holds (Some f) ->
     float_mul f (FFinite 1000) = FFinite q ->
     ((0 <= q)%Q -> get_instance_number a = Qfloor q) /\
     ((q <= 0)%Q -> get_instance_number a = Qceiling q)) /\
  (InstanceNumber ha = Missing \/ InstanceNumber ha = IsNone ->
   SliceLocation ha = Missing \/ SliceLocation ha = IsNone ->
   get_instance_number a = 999999).
Proof.
  intros Hr. unfold get_instance_number, instance_number_of.
  rewrite Hr. cbn. split; [|split].
  - now intros n ->.
  - intros f q Hi Hs Hq. rewrite Hs. cbn. rewrite Hq.
    assert (Ht : ((0 <= q)%Q -> Render.Qtrunc q = Qfloor q) /\
                 ((q <= 0)%Q -> Render.Qtrunc q = Qceiling q)).
    { unfold Render.Qtrunc. split.
      - intros H0. apply Qle_bool_iff in H0. now rewrite H0.
      - intros H0. destruct (Qle_bool 0 q) eqn:Eq; [|reflexivity].
        apply Qle_bool_iff in Eq.
        assert (Hz : (q == 0)%Q) by lra.
        now rewrite (Qfloor_comp _ _ Hz), (Qceiling_comp _ _ Hz). }
    destruct Hi as [-> | ->]; exact Ht.
  - intros Hi Hs.
    destruct Hi as [-> | ->]; destruct Hs as [-> | ->]; reflexivity.
Qed.

(** X22: the files of a directory are opened in ascending order of
    [get_instance_number], and the ordering is stable. The returned
    list is a rearrangement of the regular DICOM files of the
    directory; an entry never has a larger key than a later one; the
    files that share a key, among them all the files without a usable
    number, which share 999999, keep the order in which the directory
    listed them; and of two files with instance numbers the one with
    the smaller number comes first. The key of a file without an
    instance number is its slice location times 1000, as Python's float
    product gives it, truncated toward zero, and 999999 when it has no
    slice location either. *)
Theorem directory_files_are_sorted_stably (path : Path) (l : list Path) :
  is_file path = false ->
  find_dicom_files path = Returns l ->
  let found :=
    List.filter (fun f => is_file f && is_dicom_file f) (iterdir path) in
  l ≡ₚ found /\
  (forall i j a b, (i < j)%nat -> l !! i = Some a -> l !! j = Some b ->
     get_instance_number a <= get_instance_number b) /\
  (forall k,
     List.filter (fun f => get_instance_number f =? k) l
     = List.filter (fun f => get_instance_number f =? k) found) /\
  (forall a b ha hb na nb,
     a ∈ l -> b ∈ l ->
     read_header a = Some ha -> InstanceNumber ha = Holds (Some na) ->
     read_header b = Some hb -> InstanceNumber hb = Holds (Some nb) ->
     na < nb ->
     exists i j, l !! i = Some a /\ l !! j = Some b /\ (i < j)%nat) /\
  (forall a ha,
     a ∈ l -> read_header a = Some ha ->
     InstanceNumber ha = Missing \/ InstanceNumber ha = IsNone ->
     (forall f q,
        SliceLocation ha = Holds (Some f) ->
        float_mul f (FFinite 1000) = FFinite q ->
        ((0 <= q)%Q -> get_instance_number a = Qfloor q) /\
        ((q <= 0)%Q -> get_instance_number a = Qceiling q)) /\
     (SliceLocation ha = Missing \/ SliceLocation ha = IsNone ->
      get_instance_number a = 999999)).
Proof.
  intros F E. cbn zeta.
  destruct (find_dicom_files_cases path)
    as [(F' & _)|[(_ & D & Hne & E')|(E' & _)]]; [congruence| |congruence].
  rewrite E' in E. injection E as <-.
  pose proof (ascending_lookup get_instance_number _
                (sorted_ascending get_instance_number
                   (List.filter (fun f => is_file f && is_dicom_file f)
                      (iterdir path)))) as Hasc.
  split; [apply sorted_perm|]. split; [exact Hasc|].
  split; [intros k; apply sorted_stable|]. split.
  - intros a b ha hb na nb Ha Hb Hra Hna Hrb Hnb Hlt.
    apply list_elem_of_lookup in Ha as [i Hi].
    apply list_elem_of_lookup in Hb as [j Hj].
    destruct (get_instance_number_cases a ha Hra) as [Ka _].
    destruct (get_instance_number_cases b hb Hrb) as [Kb _].
    specialize (Ka na Hna). specialize (Kb nb Hnb).
    exists i, j. split; [exact Hi|]. split; [exact Hj|].
    destruct (lt_eq_lt_dec i j) as [[Hij|Hij]|Hij]; [exact Hij| |].
    + subst j. rewrite Hi in Hj. injection Hj as <-.
      rewrite Hra in Hrb. injection Hrb as <-.
      rewrite Hna in Hnb. injection Hnb as <-. lia.
    + pose proof (Hasc j i b a Hij Hj Hi). lia.
  - intros a ha _ Hra Hi.
    destruct (get_instance_number_cases a ha Hra) as (_ & Ks & Kn).
    split; [intros f q Hs Hq; now apply (Ks f q)|].
    intros Hs. now apply Kn.
Qed.

(** X23: the application is never built without a file. [main] exits
    with status 1 unless it is given exactly one argument, and when it
    goes on, the list it passes to the application is not empty, so the
    initial index 0 names a file. *)
Theorem main_starts_with_a_current_file (argv : list string) :
  (exists l first,
     main argv = Returns l /\ length argv = 2%nat /\ l !! 0%nat = Some first /\
     is_dicom_file first = true) \/
  main argv = Exits 1.
Proof.
  unfold main.
  destruct (decide (length argv <> 2%nat)) as [Hn|Hn].
  - right. now rewrite bool_decide_eq_true_2.
  - rewrite bool_decide_eq_false_2 by exact Hn.
    destruct (argv !! 1%nat) as [path|]; [|now right].
    destruct (find_dicom_files path) as [l|code] eqn:E.
    + left. destruct (find_dicom_files_returns path l E) as [Hne Hl].
      destruct l as [|first l]; [contradiction|].
      exists (first :: l), first. split; [reflexivity|].
      split; [lia|]. split; [reflexivity|]. apply Hl. left.
    + right. apply find_dicom_files_exit_code in E. now subst.
Qed.

End Facts.
End DiscoveryFacts.

(** * The further properties on concrete states *)

Module Staged.
Import Dicom Examples DicomFacts Session SessionFacts Discovery
  DiscoveryFacts Scenes.
#[local] Existing Instance test_runtime.
#[local] Existing Instance test_loader.
#[local] Existing Instance test_fs.
#[local] Existing Instance test_float_arith.
Local Open Scope py_scope.

(** The stand-in loader allocates at a fresh reference, so it keeps the
    objects already in the store. *)
Lemma test_loader_laws : LoaderLaws test_loader.
Proof.
  constructor. intros p s. cbn. unfold test_dcmread.
  destruct (disk s !! p) as [b|].
  - eexists. split; [reflexivity|]. intros l e Hl.
    rewrite lookup_insert_ne; [exact Hl|].
    intros <-. apply (is_fresh (dom (elements s) : gset loc)).
    now apply elem_of_dom_2 in Hl.
  - exists (elements s). split; [now destruct s|auto].
Qed.

Example scan_is_opened_in_slice_order :
  find_dicom_files "scan"
  = Returns ["scan/c.dcm"; "scan/a.dcm"; "scan/e.dcm"; "scan/b.dcm";
             "scan/d.dcm"] /\
  map get_instance_number
    ["scan/c.dcm"; "scan/a.dcm"; "scan/e.dcm"; "scan/b.dcm"; "scan/d.dcm"]
  = [1; 2; 1500; 999999; 999999] /\
  find_dicom_files "scan/notes.txt" = Exits 1 /\
  find_dicom_files "scan/sub" = Exits 1 /\
  find_dicom_files "nowhere" = Exits 1 /\
  main ["dicom_cli.py"; "one.dcm"] = Returns ["one.dcm"] /\
  main ["dicom_cli.py"] = Exits 1.
Proof. vm_compute. auto 10. Qed.



Example listed_edit_reaches_both_names :
  let s' :=
    snd (handle_edit_result (Some 1%nat) (Some "Poe") three_records_listed) in
  map (fun l => elem_value <$> elements s' !! l) [0; 1; 2; 3; 4]%nat
  = [Some (VStr "Poe"); Some (VStr "CT"); Some (VStr "CT");
     Some (VStr "Poe"); Some (VStr "CT")] /\
  has_changes s' = true.
Proof. vm_compute. auto. Qed.

Lemma bulk_update_makes_tag_consistent_witness :
  let s' := snd (bulk_update_tag PatientName (VStr "X") "PN" three_records) in
  (forall x, shown_value PatientName s' x -> x = py_str (VStr "X")) /\
  fst (is_tag_consistent_across_files PatientName s') = true /\
  ((exists p d l, (p, d) ∈ all_datasets three_records /\
                  ds_get PatientName d = Some l) ->
   is_tag_consistent_across_files PatientName s'
   = (true, Some (py_str (VStr "X")))).
Proof.
  apply (bulk_update_makes_tag_consistent
           PatientName (VStr "X") "PN" three_records).
  - cbn. lia.
  - intros p d l Hin Hget.
    apply elem_of_cons in Hin as [[= -> ->]|Hin];
      [injection Hget as <-; eexists; split; vm_compute; reflexivity|].
    apply elem_of_cons in Hin as [[= -> ->]|Hin]; [discriminate|].
    apply elem_of_cons in Hin as [[= -> ->]|Hin];
      [injection Hget as <-; eexists; split; vm_compute; reflexivity|].
    now apply elem_of_nil in Hin.
Defined.

Example names_differ_before_the_update :
  fst (is_tag_consistent_across_files PatientName three_records) = false /\
  is_tag_consistent_across_files Modality three_records = (true, Some "CT") /\
  is_tag_consistent_across_files Examples.InstanceNumber three_records = (true, None).
Proof. vm_compute. auto. Qed.

Lemma successful_save_writes_every_file_witness :
  exists b,
    save_as_codec (elements clean_save) [(PatientName, 0%nat)]
      (disk clean_save !! "scan.dcm") = inl b /\
    disk (snd (action_save_file clean_save)) !! "scan.dcm" = Some b.
Proof.
  apply (successful_save_writes_every_file clean_save).
  - apply NoDup_nil_2.
  - intros f d [[= <-] _]. vm_compute. eauto.
  - reflexivity.
  - vm_compute. reflexivity.
  - split; reflexivity.
Defined.

Lemma second_save_after_success_is_idle_witness :
  action_save_file (snd (action_save_file clean_save))
  = (Ok VNone, snd (action_save_file clean_save)).
Proof.
  apply (second_save_after_success_is_idle clean_save).
  left. vm_compute. reflexivity.
Defined.

Lemma failed_save_loses_no_original_witness :
  disk (snd (action_save_file batch_second_fails)) !! "b.dcm"
  = Some old_bytes \/
  disk (snd (action_save_file batch_second_fails)) !! backup_path "b.dcm"
  = Some old_bytes.
Proof.
  apply (failed_save_loses_no_original batch_second_fails EncodeError
           ltac:(apply (bool_decide_unpack _); vm_compute; exact I)
           ltac:(intros f d Hin;
                 repeat (apply elem_of_cons in Hin as [[= -> ->]|Hin];
                         [vm_compute; eauto|]);
                 now apply elem_of_nil in Hin)
           ltac:(reflexivity) ltac:(vm_compute; reflexivity)
           "b.dcm" [(PatientName, 1%nat)] old_bytes).
  - right. left.
  - vm_compute. reflexivity.
  - vm_compute. reflexivity.
Defined.

Lemma load_all_datasets_never_reloads_witness :
  let s := two_on_disk in
  let s' := snd (load_all_datasets s) in
  fst (load_all_datasets s) = Ok tt /\
  keeps_session s s' /\
  dataset s' = dataset s /\
  extends_cache (dicom_files s) (all_datasets s) (all_datasets s') /\
  (forall p d, dict_get p (all_datasets s) = Some d ->
               dict_get p (all_datasets s') = Some d) /\
  ((forall f, f ∈ dicom_files s -> is_Some (dict_get f (all_datasets s))) ->
   s' = s).
Proof.
  exact (@load_all_datasets_never_reloads test_loader two_on_disk
           test_loader_laws).
Defined.

(** The two readable files are cached, the missing one is skipped, and a
    second pass finds nothing to do. *)
Example missing_file_is_skipped :
  let s' := snd (load_all_datasets two_on_disk) in
  all_datasets s' = [("a.dcm", [(PatientName, 0%nat)]);
                     ("b.dcm", [(PatientName, 1%nat)])] /\
  all_datasets (snd (load_all_datasets s')) = all_datasets s' /\
  elements (snd (load_all_datasets s')) = elements s'.
Proof. vm_compute. auto. Qed.

Lemma navigation_wraps_and_keeps_session_witness :
  let s := two_on_disk in
  let n := length (dicom_files s) in
  let s1 := snd (action_next_file s) in
  let s2 := snd (action_prev_file s) in
  ((n <= 1)%nat -> action_next_file s = (Ok VNone, s) /\
                   action_prev_file s = (Ok VNone, s)) /\
  ((1 < n)%nat ->
     current_index s1 = next_index (current_index s) n /\
     current_index s2 = prev_index (current_index s) n /\
     (current_index s1 < length (dicom_files s1))%nat /\
     (current_index s2 < length (dicom_files s2))%nat /\
     keeps_session s s1 /\ keeps_session s s2 /\
     ((current_index s < n)%nat ->
        current_index (snd (action_prev_file s1)) = current_index s /\
        current_index (snd (action_next_file s2)) = current_index s)).
Proof.
  exact (@navigation_wraps_and_keeps_session test_runtime test_loader
           two_on_disk test_loader_laws).
Defined.

(** Backwards from the first file is the last one. *)
Example navigation_wraps_backwards :
  current_index (snd (action_prev_file two_on_disk)) = 2%nat /\
  current_index (snd (action_next_file two_on_disk)) = 1%nat /\
  dataset (snd (action_next_file two_on_disk)) = Some [(PatientName, 0%nat)].
Proof. vm_compute. auto. Qed.

Lemma navigation_shows_the_cached_dataset_witness :
  let s := three_records in
  let s' := snd (action_next_file s) in
  dataset s' = Some [(Modality, 2%nat)] /\
  all_datasets s' = all_datasets s /\ elements s' = elements s /\
  disk s' = disk s /\ has_changes s' = has_changes s /\
  dicom_files s' = dicom_files s.
Proof.
  apply (navigation_shows_the_cached_dataset three_records "b.dcm"
           [(Modality, 2%nat)]).
  - cbn. lia.
  - reflexivity.
  - reflexivity.
Defined.

Lemma directory_files_are_sorted_stably_witness :
  let l := ["scan/c.dcm"; "scan/a.dcm"; "scan/e.dcm"; "scan/b.dcm";
            "scan/d.dcm"] in
  let found :=
    List.filter (fun f => is_file f && is_dicom_file f) (iterdir "scan") in
  l ≡ₚ found /\
  (forall i j a b, (i < j)%nat -> l !! i = Some a -> l !! j = Some b ->
     get_instance_number a <= get_instance_number b) /\
  (forall k,
     List.filter (fun f => get_instance_number f =? k) l
     = List.filter (fun f => get_instance_number f =? k) found) /\
  (forall a b ha hb na nb,
     a ∈ l -> b ∈ l ->
     read_header a = Some ha ->
     Discovery.InstanceNumber ha = Holds (Some na) ->
     read_header b = Some hb ->
     Discovery.InstanceNumber hb = Holds (Some nb) ->
     na < nb ->
     exists i j, l !! i = Some a /\ l !! j = Some b /\ (i < j)%nat) /\
  (forall a ha,
     a ∈ l -> read_header a = Some ha ->
     Discovery.InstanceNumber ha = Missing \/
     Discovery.InstanceNumber ha = IsNone ->
     (forall f q,
        SliceLocation ha = Holds (Some f) ->
        float_mul f (FFinite 1000) = FFinite q ->
        ((0 <= q)%Q -> get_instance_number a = Qfloor q) /\
        ((q <= 0)%Q -> get_instance_number a = Qceiling q)) /\
     (SliceLocation ha = Missing \/ SliceLocation ha = IsNone ->
      get_instance_number a = 999999)).
Proof.
  apply (directory_files_are_sorted_stably "scan");
    vm_compute; reflexivity.
Defined.

End Staged.
